(** * A shallow embedding of the voice-interview wizard

    The development follows the TypeScript sources:
    - [Interview] : the interview component (turn orchestration, audio
      capture, speech playback, end-of-session delivery);
    - [MicTest]   : the standalone microphone self-test component;
    - [AssistantRoute] : the server route that polls a remote run;
    - [NumericPad], [PreCheck], [Home] : the keypad for the phone number,
      the checklist, and the page that moves through the steps;
    - [WhisperRoute], [SpeechRoute], [AssistantPOST] : the transcription
      route, the speech route and the dispatch of the assistant route.

    Asynchronous functions are cut at their [await] points.  The part of a
    function that runs up to an [await] is a state transformer that leaves a
    task in the list of pending tasks; the part that runs after it is a
    second transformer that takes what the environment answered.  React
    state is read by handlers through the values captured at the render
    that created them, so handlers take a render snapshot next to the
    current world; references ([useRef]) and browser objects are shared and
    live in the world. *)

From Stdlib Require Import String Ascii.
From Stdlib Require Import List Bool Arith NArith ZArith QArith Lia.
Import Corelib.Init.Datatypes.
Import ListNotations.
Close Scope Q_scope.
Open Scope nat_scope.

(** ** JavaScript strings *)

Module JS.

(** A JavaScript string is a sequence of UTF-16 code units. *)
Definition jsstring := list N.

(** Literals are written in the file as UTF-8 and decoded to code units. *)
Fixpoint decode (bytes : list N) : jsstring :=
  match bytes with
  | [] => []
  | b0 :: r0 =>
      if (b0 <? 128)%N then b0 :: decode r0
      else if (b0 <? 224)%N then
        match r0 with
        | b1 :: r1 =>
            N.lor (N.shiftl (N.land b0 31) 6) (N.land b1 63) :: decode r1
        | [] => []
        end
      else if (b0 <? 240)%N then
        match r0 with
        | b1 :: b2 :: r2 =>
            N.lor (N.shiftl (N.land b0 15) 12)
              (N.lor (N.shiftl (N.land b1 63) 6) (N.land b2 63)) :: decode r2
        | _ => []
        end
      else
        match r0 with
        | b1 :: b2 :: b3 :: r3 =>
            let cp :=
              N.lor (N.shiftl (N.land b0 7) 18)
                (N.lor (N.shiftl (N.land b1 63) 12)
                   (N.lor (N.shiftl (N.land b2 63) 6) (N.land b3 63))) in
            let v := (cp - 65536)%N in
            (55296 + N.shiftr v 10)%N :: (56320 + N.land v 1023)%N :: decode r3
        | _ => []
        end
  end.

Definition lit (s : string) : jsstring :=
  decode (map N_of_ascii (list_ascii_of_string s)).

Definition eqb (a b : jsstring) : bool :=
  if list_eq_dec N.eq_dec a b then true else false.

(** Truthiness of a string: every string but the empty one. *)
Definition truthy (s : jsstring) : bool :=
  match s with [] => false | _ :: _ => true end.

(** Truthiness of a property that holds a string or is [undefined]. *)
Definition truthy_opt (o : option jsstring) : bool :=
  match o with Some s => truthy s | None => false end.

(** [a || b] on strings. *)
Definition or_else (a b : jsstring) : jsstring :=
  if truthy a then a else b.

(** [o || b] where [o] may be [undefined]. *)
Definition opt_or_else (o : option jsstring) (b : jsstring) : jsstring :=
  match o with Some a => or_else a b | None => b end.

(** White space and line terminators, the code units [String.prototype.trim]
    strips. *)
Definition is_white_space (c : N) : bool :=
  ((9 <=? c) && (c <=? 13) || (c =? 32) || (c =? 160) || (c =? 5760)
   || (8192 <=? c) && (c <=? 8202) || (c =? 8232) || (c =? 8233)
   || (c =? 8239) || (c =? 8287) || (c =? 12288) || (c =? 65279))%N.

Fixpoint trim_start (s : jsstring) : jsstring :=
  match s with
  | c :: r => if is_white_space c then trim_start r else s
  | [] => []
  end.

Definition trim (s : jsstring) : jsstring :=
  rev (trim_start (rev (trim_start s))).

Definition white_space_only (s : jsstring) : Prop :=
  forall c, In c s -> is_white_space c = true.

(** [\D] : a code unit that is not one of [0-9]. *)
Definition is_digit (c : N) : bool := ((48 <=? c) && (c <=? 57))%N.

(** [s.replace(/\D/g, '')] *)
Definition digits_of (s : jsstring) : jsstring := filter is_digit s.

(** [s.substr(start, len)] and [s.substr(start)] for [start] in range. *)
Definition substr (s : jsstring) (start len : nat) : jsstring :=
  firstn len (skipn start s).
Definition substr_from (s : jsstring) (start : nat) : jsstring :=
  skipn start s.

(** [parts.join(sep)] *)
Fixpoint join (sep : jsstring) (parts : list jsstring) : jsstring :=
  match parts with
  | [] => []
  | [p] => p
  | p :: rest => p ++ sep ++ join sep rest
  end.

(** [window.atob]: whether the forgiving base64 decoding accepts the string
    (it throws otherwise). *)
Definition is_ascii_white_space (c : N) : bool :=
  ((c =? 9) || (c =? 10) || (c =? 12) || (c =? 13) || (c =? 32))%N.

Definition is_base64 (c : N) : bool :=
  ((65 <=? c) && (c <=? 90) || (97 <=? c) && (c <=? 122)
   || (48 <=? c) && (c <=? 57) || (c =? 43) || (c =? 47))%N.

Definition strip_padding (s : jsstring) : jsstring :=
  if length s mod 4 =? 0 then
    match rev s with
    | 61%N :: 61%N :: r => rev r
    | 61%N :: r => rev r
    | _ => s
    end
  else s.

Definition atob_ok (s : jsstring) : bool :=
  let d := strip_padding (filter (fun c => negb (is_ascii_white_space c)) s) in
  negb (length d mod 4 =? 1) && forallb is_base64 d.

(** Lists as arrays: writing and deleting at a position. *)
Fixpoint update_at {A : Type} (n : nat) (f : A -> A) (l : list A) : list A :=
  match l, n with
  | [], _ => []
  | x :: r, 0 => f x :: r
  | x :: r, S n' => x :: update_at n' f r
  end.

Fixpoint remove_at {A : Type} (n : nat) (l : list A) : list A :=
  match l, n with
  | [], _ => []
  | _ :: r, 0 => r
  | x :: r, S n' => x :: remove_at n' r
  end.

End JS.

Import JS.

(** Literals are compared as they are written; computing with them is left to
    [vm_compute]. *)
Opaque lit.

(** ** The assistant route: waiting for a remote run *)

Module AssistantRoute.

(** What [openai.beta.threads.runs.retrieve] gives at one polling attempt:
    the call rejects, or it returns a run with a status. *)
Inductive Retrieved :=
| RetrieveFails (message : jsstring)
| Run (status : jsstring).

(** How an [async] function ends. *)
Inductive Settled (A : Type) :=
| Returns (a : A)
| Throws (message : jsstring).
Arguments Returns {A} a.
Arguments Throws {A} message.

(** What the function does that the outside sees. *)
Inductive Action :=
| Retrieve (attempt : nat)
| Sleep (ms : nat).

Definition terminated : list jsstring :=
  [lit "failed"; lit "cancelled"; lit "expired"].

(** [['failed', 'cancelled', 'expired'].includes(status)] *)
Definition includes (l : list jsstring) (s : jsstring) : bool :=
  existsb (eqb s) l.

Definition ended_message (status : jsstring) : jsstring :=
  lit "실행이 " ++ status ++ lit " 상태로 종료되었습니다.".

Definition timeout_message : jsstring := lit "실행 시간이 초과되었습니다.".

(** The loop [for (let i = 0; i < maxAttempts; i++)], entered at [i] with
    [left = maxAttempts - i] iterations to go.  [poll i] is the answer of the
    remote service to the retrieval of iteration [i]. *)
Fixpoint poll_loop (poll : nat -> Retrieved) (i left : nat)
  : Settled jsstring * list Action :=
  match left with
  | 0 => (Throws timeout_message, [])
  | S left' =>
      match poll i with
      | RetrieveFails m => (Throws m, [Retrieve i])
      | Run status =>
          if eqb status (lit "completed") then (Returns status, [Retrieve i])
          else if includes terminated status
          then (Throws (ended_message status), [Retrieve i])
          else
            let '(r, acts) := poll_loop poll (S i) left' in
            (r, Retrieve i :: Sleep 1000 :: acts)
      end
  end.

(** [waitForRunCompletion(threadId, runId, maxAttempts)]: the run it returns
    is represented by its status, the one property the caller reads. *)
Definition waitForRunCompletion (poll : nat -> Retrieved) (maxAttempts : nat)
  : Settled jsstring * list Action :=
  poll_loop poll 0 maxAttempts.

(** The default value of the parameter [maxAttempts]. *)
Definition maxAttempts_default : nat := 60.

(** The polling attempts and the waits in a sequence of actions. *)
Definition retrievals (acts : list Action) : nat :=
  length (filter (fun a => match a with Retrieve _ => true | Sleep _ => false end) acts).

Definition waited (acts : list Action) : nat :=
  fold_right (fun a t => match a with Sleep ms => ms + t | Retrieve _ => t end) 0 acts.

(** An attempt after which the loop goes on: the run is there, and its
    status is neither ['completed'] nor one of the three final ones. *)
Definition in_progress (r : Retrieved) : bool :=
  match r with
  | RetrieveFails _ => false
  | Run status => negb (eqb status (lit "completed"))
                  && negb (includes terminated status)
  end.

(** [k] rounds of the loop from attempt [i] on: a retrieval, then a wait of
    one second. *)
Definition rounds (i k : nat) : list Action :=
  flat_map (fun n => [Retrieve n; Sleep 1000]) (seq i k).

(** *** [handleSendMessage] *)

Inductive Content :=
| TextContent (value : jsstring)
| OtherContent.

Record Message := { role : jsstring; content : list Content }.

(** The remote service, as far as [handleSendMessage] calls it: each call
    either resolves or rejects with an [Error] carrying a message. *)
Record Remote := {
  messages_create : option jsstring;  (* [Some m]: rejects with message [m] *)
  runs_create : option jsstring;      (* [Some m]: rejects with message [m] *)
  runs_retrieve : nat -> Retrieved;
  messages_list : Settled (list Message) }.

Inductive Body :=
| Answer (message runStatus : jsstring)
| Failure (error : jsstring).

Record Reply := { status : nat; body : Body }.

(** [response.ok] on the client side. *)
Definition ok (r : Reply) : bool := (200 <=? status r) && (status r <=? 299).

(** The message of the [TypeError] the runtime raises for [content.type]
    when [latestMessage.content] is empty. *)
Definition undefined_type_message : jsstring :=
  lit "Cannot read properties of undefined (reading 'type')".

Definition no_answer_message : jsstring := lit "응답을 생성할 수 없습니다.".

Definition handleSendMessage (threadId message : jsstring) (remote : Remote)
  : Reply :=
  if negb (truthy threadId) then
    {| status := 400; body := Failure (lit "스레드 ID가 필요합니다.") |}
  else if negb (truthy message) then
    {| status := 400; body := Failure (lit "메시지 내용이 필요합니다.") |}
  else
    match messages_create remote with
    | Some m => {| status := 500; body := Failure m |}
    | None =>
    match runs_create remote with
    | Some m => {| status := 500; body := Failure m |}
    | None =>
    match fst (waitForRunCompletion (runs_retrieve remote) maxAttempts_default) with
    | Throws m => {| status := 500; body := Failure m |}
    | Returns runStatus =>
    match messages_list remote with
    | Throws m => {| status := 500; body := Failure m |}
    | Returns data =>
        let assistantMessages :=
          filter (fun msg => eqb (role msg) (lit "assistant")) data in
        match assistantMessages with
        | latestMessage :: _ =>
            match content latestMessage with
            | TextContent value :: _ =>
                {| status := 200; body := Answer value runStatus |}
            | OtherContent :: _ =>
                {| status := 200; body := Answer no_answer_message runStatus |}
            | [] => {| status := 500; body := Failure undefined_type_message |}
            end
        | [] => {| status := 200; body := Answer no_answer_message runStatus |}
        end
    end end end end.

(** *** Sample runs *)

(** Three runs: one completed at the third attempt, one failed at the
    second, one that stays in progress. *)
Definition completes_third (i : nat) : Retrieved :=
  if i <? 2 then Run (lit "in_progress") else Run (lit "completed").
Definition fails_second (i : nat) : Retrieved :=
  if i <? 1 then Run (lit "queued") else Run (lit "failed").
Definition never_ends (i : nat) : Retrieved := Run (lit "in_progress").

End AssistantRoute.

(** ** What a request gives back to the interview component *)

(** The component awaits [fetch] and then [response.json()], and reads one
    property of the parsed body next to [response.ok].  A rejection of either
    promise lands in the same [catch]. *)
Inductive Fetched :=
| Rejected
| Response (ok : bool) (field : option jsstring).

(** The test [response.ok && data.field] of the interview component. *)
Definition usable (r : Fetched) : option jsstring :=
  match r with
  | Response true (Some s) => if truthy s then Some s else None
  | _ => None
  end.

(** ** Completions

    [MediaRecorder.stop()] throws [InvalidStateError] on a recorder that is
    not recording; a handler that lets the exception escape ends there, with
    the world as it was at that point. *)
Inductive Completion (W : Type) :=
| Normal (w : W)
| Abrupt (exception : jsstring) (w : W).
Arguments Normal {W} w.
Arguments Abrupt {W} exception w.

Definition world_of {W : Type} (c : Completion W) : W :=
  match c with Normal w => w | Abrupt _ w => w end.

Definition and_then {W : Type} (c : Completion W) (k : W -> Completion W)
  : Completion W :=
  match c with Normal w => k w | Abrupt e w => Abrupt e w end.

Notation "'do' w <- c ; k" := (and_then c (fun w => k))
  (at level 10, w name, c at level 100, k at level 200).

(** ** The interview component *)

Module Interview.

(** *** Data *)

Record QA := { q : jsstring; aText : jsstring; durationSec : Q }.

(** The values of [useState], the ones a render captures. *)
Record Hooks := {
  qaLogs : list QA;
  recordingState : nat;   (* 0: waiting, 1: recording *)
  aiState : nat;          (* 0: waiting, 1: asking, 2: question done *)
  isProcessing : bool;
  errorMessage : jsstring;
  threadId : jsstring;
  isInitialized : bool }.

(** A recorded chunk, by its size. *)
Definition Blob := nat.

Inductive RecordingState := inactive | recording.

(** A [MediaRecorder]: the stream it records and the render whose
    [processAudioToText] its [onstop] handler calls. *)
Record MediaRecorder := {
  rec_stream : nat;
  rec_state : RecordingState;
  rec_onstop : Hooks }.

(** The one [HTMLAudioElement] the component creates. *)
Record Audio := { src : jsstring; playing : bool }.

(** The objects behind [useRef]. *)
Record Refs := {
  recordStartTimeRef : Z;
  mediaRecorderRef : option nat;
  audioChunksRef : list Blob;
  audioContextRef : option nat;
  analyserRef : bool;          (* set together with [dataArrayRef] *)
  animationFrameRef : option nat;
  streamRef : option nat;
  audioRef : option Audio;
  isInitializingRef : bool }.

(** [localStorage.getItem('aiInterviewCache')] as [handleEndInterview] reads
    it through [JSON.parse]. *)
Inductive Cache :=
| CacheUnreadable                       (* [getItem] throws *)
| CacheAbsent                           (* [null] or the empty string *)
| CacheMalformed                        (* parsing or reading [contact] throws *)
| CacheObject (contact : option jsstring).

(** Whether [localStorage.getItem] returns. *)
Definition readable (c : Cache) : bool :=
  match c with CacheUnreadable => false | _ => true end.

(** The browser objects the component creates and the clock. *)
Record Browser := {
  now : Z;                     (* [Date.now()] *)
  streams : list bool;         (* a stream is its position; [true]: tracks live *)
  recorders : list MediaRecorder;
  contexts : list bool;        (* an [AudioContext]; [true]: not closed *)
  frames : list nat;           (* animation frames requested and not yet run *)
  frameCount : nat;
  cache : Cache }.

(** The suspended halves of the [async] functions. *)
Inductive Task :=
| TCreateThread (snap : Hooks)
| TSendMessage (fromInit : bool)
| TSynthesis (fromInit : bool)
| TPlay (fromInit : bool)
| TGetUserMedia (snap : Hooks)
| TRecorderStop (rid : nat)
| TWhisper (snap : Hooks) (recordDuration : Q)
| TTimer (snap : Hooks) (text : jsstring)
| TWebhook.

(** What leaves the component. *)
Inductive Effect :=
| FetchCreateThread
| FetchSendMessage (threadId message : jsstring)
| FetchTTS (text : jsstring)
| FetchWhisper (chunks : list Blob)
| FetchWebhook (interviewlog contact : jsstring)
| GetUserMedia
| AudioPlay (src : jsstring)
| SetTimeout (ms : nat)
| OnComplete.

Record World := {
  hooks : Hooks;
  refs : Refs;
  browser : Browser;
  pending : list Task;
  effects : list Effect;
  mounted : bool;
  deps : nat * bool;     (* [aiState] and [isInitialized] at the last commit *)
  cleanup : bool }.      (* the last run of the effect returned its cleanup *)

(** *** Updating the world *)

Definition upd_hooks (f : Hooks -> Hooks) (w : World) : World :=
  {| hooks := f (hooks w); refs := refs w; browser := browser w;
     pending := pending w; effects := effects w; mounted := mounted w;
     deps := deps w; cleanup := cleanup w |}.

Definition upd_refs (f : Refs -> Refs) (w : World) : World :=
  {| hooks := hooks w; refs := f (refs w); browser := browser w;
     pending := pending w; effects := effects w; mounted := mounted w;
     deps := deps w; cleanup := cleanup w |}.

Definition upd_browser (f : Browser -> Browser) (w : World) : World :=
  {| hooks := hooks w; refs := refs w; browser := f (browser w);
     pending := pending w; effects := effects w; mounted := mounted w;
     deps := deps w; cleanup := cleanup w |}.

Definition set_pending (p : list Task) (w : World) : World :=
  {| hooks := hooks w; refs := refs w; browser := browser w;
     pending := p; effects := effects w; mounted := mounted w;
     deps := deps w; cleanup := cleanup w |}.

Definition emit (e : Effect) (w : World) : World :=
  {| hooks := hooks w; refs := refs w; browser := browser w;
     pending := pending w; effects := effects w ++ [e]; mounted := mounted w;
     deps := deps w; cleanup := cleanup w |}.

Definition set_mounted (b : bool) (w : World) : World :=
  {| hooks := hooks w; refs := refs w; browser := browser w;
     pending := pending w; effects := effects w; mounted := b;
     deps := deps w; cleanup := cleanup w |}.

Definition set_deps (d : nat * bool) (w : World) : World :=
  {| hooks := hooks w; refs := refs w; browser := browser w;
     pending := pending w; effects := effects w; mounted := mounted w;
     deps := d; cleanup := cleanup w |}.

Definition set_cleanup (b : bool) (w : World) : World :=
  {| hooks := hooks w; refs := refs w; browser := browser w;
     pending := pending w; effects := effects w; mounted := mounted w;
     deps := deps w; cleanup := b |}.

Definition spawn (t : Task) (w : World) : World :=
  set_pending (pending w ++ [t]) w.

(** The setters of [useState]. *)
Definition setQaLogs (f : list QA -> list QA) : World -> World :=
  upd_hooks (fun h =>
    {| qaLogs := f (qaLogs h); recordingState := recordingState h;
       aiState := aiState h; isProcessing := isProcessing h;
       errorMessage := errorMessage h; threadId := threadId h;
       isInitialized := isInitialized h |}).

Definition setRecordingState (v : nat) : World -> World :=
  upd_hooks (fun h =>
    {| qaLogs := qaLogs h; recordingState := v;
       aiState := aiState h; isProcessing := isProcessing h;
       errorMessage := errorMessage h; threadId := threadId h;
       isInitialized := isInitialized h |}).

Definition setAiState (v : nat) : World -> World :=
  upd_hooks (fun h =>
    {| qaLogs := qaLogs h; recordingState := recordingState h;
       aiState := v; isProcessing := isProcessing h;
       errorMessage := errorMessage h; threadId := threadId h;
       isInitialized := isInitialized h |}).

Definition setIsProcessing (v : bool) : World -> World :=
  upd_hooks (fun h =>
    {| qaLogs := qaLogs h; recordingState := recordingState h;
       aiState := aiState h; isProcessing := v;
       errorMessage := errorMessage h; threadId := threadId h;
       isInitialized := isInitialized h |}).

Definition setErrorMessage (v : jsstring) : World -> World :=
  upd_hooks (fun h =>
    {| qaLogs := qaLogs h; recordingState := recordingState h;
       aiState := aiState h; isProcessing := isProcessing h;
       errorMessage := v; threadId := threadId h;
       isInitialized := isInitialized h |}).

Definition setThreadId (v : jsstring) : World -> World :=
  upd_hooks (fun h =>
    {| qaLogs := qaLogs h; recordingState := recordingState h;
       aiState := aiState h; isProcessing := isProcessing h;
       errorMessage := errorMessage h; threadId := v;
       isInitialized := isInitialized h |}).

Definition setIsInitialized (v : bool) : World -> World :=
  upd_hooks (fun h =>
    {| qaLogs := qaLogs h; recordingState := recordingState h;
       aiState := aiState h; isProcessing := isProcessing h;
       errorMessage := errorMessage h; threadId := threadId h;
       isInitialized := v |}).

(** Assignments to [ref.current]. *)
Definition set_recordStartTime (v : Z) : World -> World :=
  upd_refs (fun r =>
    {| recordStartTimeRef := v; mediaRecorderRef := mediaRecorderRef r;
       audioChunksRef := audioChunksRef r; audioContextRef := audioContextRef r;
       analyserRef := analyserRef r; animationFrameRef := animationFrameRef r;
       streamRef := streamRef r; audioRef := audioRef r;
       isInitializingRef := isInitializingRef r |}).

Definition set_mediaRecorder (v : option nat) : World -> World :=
  upd_refs (fun r =>
    {| recordStartTimeRef := recordStartTimeRef r; mediaRecorderRef := v;
       audioChunksRef := audioChunksRef r; audioContextRef := audioContextRef r;
       analyserRef := analyserRef r; animationFrameRef := animationFrameRef r;
       streamRef := streamRef r; audioRef := audioRef r;
       isInitializingRef := isInitializingRef r |}).

Definition set_audioChunks (v : list Blob) : World -> World :=
  upd_refs (fun r =>
    {| recordStartTimeRef := recordStartTimeRef r;
       mediaRecorderRef := mediaRecorderRef r;
       audioChunksRef := v; audioContextRef := audioContextRef r;
       analyserRef := analyserRef r; animationFrameRef := animationFrameRef r;
       streamRef := streamRef r; audioRef := audioRef r;
       isInitializingRef := isInitializingRef r |}).

Definition set_audioContext (v : option nat) : World -> World :=
  upd_refs (fun r =>
    {| recordStartTimeRef := recordStartTimeRef r;
       mediaRecorderRef := mediaRecorderRef r;
       audioChunksRef := audioChunksRef r; audioContextRef := v;
       analyserRef := analyserRef r; animationFrameRef := animationFrameRef r;
       streamRef := streamRef r; audioRef := audioRef r;
       isInitializingRef := isInitializingRef r |}).

Definition set_analyser (v : bool) : World -> World :=
  upd_refs (fun r =>
    {| recordStartTimeRef := recordStartTimeRef r;
       mediaRecorderRef := mediaRecorderRef r;
       audioChunksRef := audioChunksRef r; audioContextRef := audioContextRef r;
       analyserRef := v; animationFrameRef := animationFrameRef r;
       streamRef := streamRef r; audioRef := audioRef r;
       isInitializingRef := isInitializingRef r |}).

Definition set_animationFrame (v : option nat) : World -> World :=
  upd_refs (fun r =>
    {| recordStartTimeRef := recordStartTimeRef r;
       mediaRecorderRef := mediaRecorderRef r;
       audioChunksRef := audioChunksRef r; audioContextRef := audioContextRef r;
       analyserRef := analyserRef r; animationFrameRef := v;
       streamRef := streamRef r; audioRef := audioRef r;
       isInitializingRef := isInitializingRef r |}).

Definition set_stream (v : option nat) : World -> World :=
  upd_refs (fun r =>
    {| recordStartTimeRef := recordStartTimeRef r;
       mediaRecorderRef := mediaRecorderRef r;
       audioChunksRef := audioChunksRef r; audioContextRef := audioContextRef r;
       analyserRef := analyserRef r; animationFrameRef := animationFrameRef r;
       streamRef := v; audioRef := audioRef r;
       isInitializingRef := isInitializingRef r |}).

Definition set_audio (v : option Audio) : World -> World :=
  upd_refs (fun r =>
    {| recordStartTimeRef := recordStartTimeRef r;
       mediaRecorderRef := mediaRecorderRef r;
       audioChunksRef := audioChunksRef r; audioContextRef := audioContextRef r;
       analyserRef := analyserRef r; animationFrameRef := animationFrameRef r;
       streamRef := streamRef r; audioRef := v;
       isInitializingRef := isInitializingRef r |}).

Definition set_isInitializing (v : bool) : World -> World :=
  upd_refs (fun r =>
    {| recordStartTimeRef := recordStartTimeRef r;
       mediaRecorderRef := mediaRecorderRef r;
       audioChunksRef := audioChunksRef r; audioContextRef := audioContextRef r;
       analyserRef := analyserRef r; animationFrameRef := animationFrameRef r;
       streamRef := streamRef r; audioRef := audioRef r;
       isInitializingRef := v |}).

(** Changes to the browser objects. *)
Definition set_now (v : Z) : World -> World :=
  upd_browser (fun b =>
    {| now := v; streams := streams b; recorders := recorders b;
       contexts := contexts b; frames := frames b;
       frameCount := frameCount b; cache := cache b |}).

Definition set_streams (v : list bool) : World -> World :=
  upd_browser (fun b =>
    {| now := now b; streams := v; recorders := recorders b;
       contexts := contexts b; frames := frames b;
       frameCount := frameCount b; cache := cache b |}).

Definition set_recorders (v : list MediaRecorder) : World -> World :=
  upd_browser (fun b =>
    {| now := now b; streams := streams b; recorders := v;
       contexts := contexts b; frames := frames b;
       frameCount := frameCount b; cache := cache b |}).

Definition set_contexts (v : list bool) : World -> World :=
  upd_browser (fun b =>
    {| now := now b; streams := streams b; recorders := recorders b;
       contexts := v; frames := frames b;
       frameCount := frameCount b; cache := cache b |}).

Definition set_frames (v : list nat) (n : nat) : World -> World :=
  upd_browser (fun b =>
    {| now := now b; streams := streams b; recorders := recorders b;
       contexts := contexts b; frames := v;
       frameCount := n; cache := cache b |}).

(** A handler of the interview component ends normally or by an exception. *)
Definition Completion := Completion World.

(** *** Browser objects *)

Definition is_recording (r : MediaRecorder) : bool :=
  match rec_state r with recording => true | inactive => false end.

Definition with_state (st : RecordingState) (r : MediaRecorder) : MediaRecorder :=
  {| rec_stream := rec_stream r; rec_state := st; rec_onstop := rec_onstop r |}.

(** [recorder.stop()]: the recorder becomes inactive and queues its
    [dataavailable] and [stop] events. *)
Definition MediaRecorder_stop (rid : nat) (w : World) : Completion :=
  match nth_error (recorders (browser w)) rid with
  | Some r =>
      if is_recording r then
        let w := set_recorders
                   (update_at rid (with_state inactive) (recorders (browser w))) w in
        Normal (spawn (TRecorderStop rid) w)
      else Abrupt (lit "InvalidStateError") w
  | None => Normal w
  end.

(** The recorders that record stream [s]. *)
Definition recording_on (s : nat) (rs : list MediaRecorder) : list nat :=
  filter (fun i => match nth_error rs i with
                   | Some r => (rec_stream r =? s) && is_recording r
                   | None => false
                   end)
         (seq 0 (length rs)).

(** [stream.getTracks().forEach(track => track.stop())]: the tracks end, and
    a recorder whose tracks have all ended stops as with [stop()]. *)
Definition stop_tracks (s : nat) (w : World) : World :=
  let ended := recording_on s (recorders (browser w)) in
  let w := set_streams (update_at s (fun _ => false) (streams (browser w))) w in
  let w := set_recorders
             (map (fun r => if (rec_stream r =? s) && is_recording r
                            then with_state inactive r else r)
                  (recorders (browser w))) w in
  fold_left (fun w rid => spawn (TRecorderStop rid) w) ended w.

(** The number of microphone streams whose tracks are live. *)
Definition open_streams (w : World) : nat :=
  count_occ bool_dec (streams (browser w)) true.

Definition cancelAnimationFrame (id : nat) (w : World) : World :=
  set_frames (filter (fun i => negb (i =? id)) (frames (browser w)))
             (frameCount (browser w)) w.

(** [requestAnimationFrame(drawWaveform)] stored in [animationFrameRef]. *)
Definition requestAnimationFrame (w : World) : World :=
  let id := S (frameCount (browser w)) in
  set_animationFrame (Some id) (set_frames (frames (browser w) ++ [id]) id w).

Definition context_open (c : nat) (w : World) : bool :=
  nth c (contexts (browser w)) false.

Definition AudioContext_close (c : nat) (w : World) : World :=
  set_contexts (update_at c (fun _ => false) (contexts (browser w))) w.

(** *** The functions of the component *)

(** The three steps of [cleanupAudio]. *)
Definition cancel_frame (w : World) : World :=
  match animationFrameRef (refs w) with
  | Some id => if negb (id =? 0) then cancelAnimationFrame id w else w
  | None => w
  end.

Definition end_stream (w : World) : World :=
  match streamRef (refs w) with
  | Some s => stop_tracks s w
  | None => w
  end.

Definition close_context (w : World) : World :=
  match audioContextRef (refs w) with
  | Some c => if context_open c w then AudioContext_close c w else w
  | None => w
  end.

Definition cleanupAudio (w : World) : World :=
  close_context (end_stream (cancel_frame w)).

(** The end of [initInterview] once [startNextQuestion] has returned. *)
Definition initInterview_done (w : World) : World :=
  set_isInitializing false (setIsInitialized true w).

(** Where control goes when [startNextQuestion] returns: back into
    [initInterview], or to the end of the timer callback. *)
Definition returned (fromInit : bool) (w : World) : World :=
  if fromInit then initInterview_done w else w.

(** The audio of an answer of the synthesis route that can be played: the
    response is [ok], its [audio] is not empty and decodes. *)
Definition playable (r : Fetched) : option jsstring :=
  match usable r with
  | Some audio => if atob_ok audio then Some audio else None
  | None => None
  end.

(** [playTTS], up to the request to the synthesis route. *)
Definition playTTS (fromInit : bool) (text : jsstring) (w : World) : World :=
  let w := setAiState 1 w in
  let w := match audioRef (refs w) with
           | Some a => set_audio (Some {| src := []; playing := false |}) w
           | None => set_audio (Some {| src := []; playing := false |}) w
           end in
  spawn (TSynthesis fromInit) (emit (FetchTTS text) w).

(** [playTTS], from the answer of the synthesis route on. *)
Definition playTTS_fetched (fromInit : bool) (r : Fetched) (w : World) : World :=
  match usable r with
  | Some audio =>
      if atob_ok audio then
        let w := set_audio (Some {| src := audio; playing := false |}) w in
        spawn (TPlay fromInit) (emit (AudioPlay audio) w)
      else returned fromInit (setAiState 2 w)
  | None => returned fromInit (setAiState 2 w)
  end.

(** [playTTS], once [audio.play()] has settled. *)
Definition playTTS_played (fromInit : bool) (started : bool) (w : World) : World :=
  if started then
    let w := match audioRef (refs w) with
             | Some a => set_audio (Some {| src := src a; playing := true |}) w
             | None => w
             end in
    returned fromInit w
  else returned fromInit (setAiState 2 w).

(** The [onended] handler of the audio element, which the element calls
    when the audio that plays reaches its end. *)
Definition onended (w : World) : World :=
  match audioRef (refs w) with
  | Some a =>
      if playing a then
        setAiState 2 (set_audio (Some {| src := src a; playing := false |}) w)
      else w
  | None => w
  end.

Definition new_question (question : jsstring) : QA :=
  {| q := question; aText := []; durationSec := 0 |}.

(** [startNextQuestion], up to the request to the assistant route. *)
Definition startNextQuestion (snap : Hooks) (fromInit : bool)
    (currentThreadId userMessage : jsstring) (w : World) : World :=
  if aiState snap =? 1 then returned fromInit w
  else
    let w := setAiState 1 w in
    spawn (TSendMessage fromInit)
          (emit (FetchSendMessage currentThreadId userMessage) w).

(** [startNextQuestion], from the answer of the assistant route on. *)
Definition startNextQuestion_fetched (fromInit : bool) (r : Fetched) (w : World)
  : World :=
  match r with
  | Rejected =>
      let w := setErrorMessage
                 (lit "서버 연결에 문제가 발생했습니다. 다시 시도해주세요.") w in
      returned fromInit (setAiState 0 w)
  | Response _ _ =>
      match usable r with
      | Some nextQuestion =>
          let w := setQaLogs (fun prevLogs => prevLogs ++ [new_question nextQuestion]) w in
          playTTS fromInit nextQuestion w
      | None =>
          let w := setErrorMessage
                     (lit "질문을 생성할 수 없습니다. 다시 시도해주세요.") w in
          returned fromInit (setAiState 0 w)
      end
  end.

Definition seed_prompt : jsstring := lit "면접을 시작합니다. 첫번째 질문을 해주세요.".

(** [initInterview], up to the request that creates the thread. *)
Definition initInterview (snap : Hooks) (w : World) : World :=
  let w := set_isInitializing true w in
  spawn (TCreateThread snap) (emit FetchCreateThread w).

Definition initInterview_fetched (snap : Hooks) (r : Fetched) (w : World) : World :=
  match r with
  | Rejected =>
      let w := setErrorMessage
                 (lit "면접 초기화 중 오류가 발생했습니다. 새로고침 후 다시 시도해주세요.") w in
      set_isInitializing false w
  | Response _ _ =>
      match usable r with
      | Some id =>
          let w := setThreadId id w in
          startNextQuestion snap true id seed_prompt w
      | None =>
          let w := setErrorMessage
                     (lit "면접 초기화에 실패했습니다. 새로고침 후 다시 시도해주세요.") w in
          set_isInitializing false w
      end
  end.

(** [drawWaveform]: the canvas is in the document while the committed
    [recordingState] is 1. *)
Definition drawWaveform (w : World) : World :=
  if analyserRef (refs w) && (recordingState (hooks w) =? 1)
  then requestAnimationFrame w
  else w.

(** [initializeRecording], up to the request for the microphone; it first
    stops the tracks of the stream in [streamRef], as [cleanupAudio] does. *)
Definition initializeRecording (snap : Hooks) (w : World) : World :=
  let w := end_stream w in
  spawn (TGetUserMedia snap) (emit GetUserMedia w).

(** [initializeRecording], once [getUserMedia] has settled. *)
Definition initializeRecording_resumed (snap : Hooks) (granted : bool) (w : World)
  : World :=
  if granted then
    let stream := length (streams (browser w)) in
    let w := set_streams (streams (browser w) ++ [true]) w in
    let w := set_stream (Some stream) w in
    let mediaRecorder := length (recorders (browser w)) in
    let w := set_recorders
               (recorders (browser w) ++
                [{| rec_stream := stream; rec_state := inactive;
                    rec_onstop := snap |}]) w in
    let w := set_mediaRecorder (Some mediaRecorder) w in
    let w := set_audioChunks [] w in
    let audioContext := length (contexts (browser w)) in
    let w := set_contexts (contexts (browser w) ++ [true]) w in
    let w := set_audioContext (Some audioContext) w in
    let w := set_analyser true w in
    let w := set_recordStartTime (now (browser w)) w in
    let w := set_recorders
               (update_at mediaRecorder (with_state recording)
                          (recorders (browser w))) w in
    drawWaveform w
  else
    let w := setErrorMessage
               (lit "마이크에 접근할 수 없습니다. 마이크 권한을 확인해주세요.") w in
    setRecordingState 0 w.

(** The three steps of [stopRecording]. *)
Definition stop_recorder (w : World) : Completion :=
  match mediaRecorderRef (refs w) with
  | Some rid =>
      match nth_error (recorders (browser w)) rid with
      | Some r => if is_recording r then MediaRecorder_stop rid w else Normal w
      | None => Normal w
      end
  | None => Normal w
  end.

Definition drop_frame (w : World) : World :=
  match animationFrameRef (refs w) with
  | Some id =>
      if negb (id =? 0)
      then set_animationFrame None (cancelAnimationFrame id w)
      else w
  | None => w
  end.

Definition drop_stream (w : World) : World :=
  match streamRef (refs w) with
  | Some s => set_stream None (stop_tracks s w)
  | None => w
  end.

Definition stopRecording (w : World) : Completion :=
  do w <- stop_recorder w;
  Normal (drop_stream (drop_frame w)).


(** No capture session is open: the recorder, if there is one, is inactive,
    no animation frame is requested and no stream is held. *)
Definition no_capture (w : World) : Prop :=
  (forall rid r,
     mediaRecorderRef (refs w) = Some rid ->
     nth_error (recorders (browser w)) rid = Some r ->
     rec_state r = inactive)
  /\ animationFrameRef (refs w) = None
  /\ streamRef (refs w) = None.

(** [processAudioToText], up to the request to the transcription route. *)
Definition processAudioToText (snap : Hooks) (w : World) : World :=
  if length (audioChunksRef (refs w)) =? 0 then w
  else if isProcessing snap then w
  else
    let w := setIsProcessing true w in
    let recordEndTime := now (browser w) in
    let recordDuration :=
      Qmake (recordEndTime - recordStartTimeRef (refs w)) 1000 in
    spawn (TWhisper snap recordDuration)
          (emit (FetchWhisper (audioChunksRef (refs w))) w).

(** The update of the log: the last record gets the answer. *)
Definition answer_last (text : jsstring) (recordDuration : Q) (prevLogs : list QA)
  : list QA :=
  if 0 <? length prevLogs then
    update_at (length prevLogs - 1)
              (fun lastQA => {| q := q lastQA; aText := text;
                                durationSec := recordDuration |})
              prevLogs
  else prevLogs.

(** The message shown when the recognition gives no usable text. *)
Definition recognition_failed : jsstring :=
  lit "음성 인식에 실패했습니다. 다시 시도해주세요.".

(** [processAudioToText], from the answer of the transcription route on. *)
Definition processAudioToText_fetched (snap : Hooks) (recordDuration : Q)
    (r : Fetched) (w : World) : World :=
  let w :=
    match r with
    | Rejected =>
        setErrorMessage
          (lit "서버 연결에 문제가 발생했습니다. 다시 시도해주세요.") w
    | Response _ _ =>
        match usable r with
        | Some text =>
            let w := setQaLogs (answer_last text recordDuration) w in
            spawn (TTimer snap text) (emit (SetTimeout 1000) w)
        | None =>
            setErrorMessage recognition_failed w
        end
    end in
  setIsProcessing false w.

(** The message shown when the render that recorded had no thread yet. *)
Definition session_invalid : jsstring :=
  lit "면접 세션이 유효하지 않습니다. 새로고침 후 다시 시도해주세요.".

(** The callback of [setTimeout] in [processAudioToText]. *)
Definition processAudioToText_timer (snap : Hooks) (text : jsstring) (w : World)
  : World :=
  let currentThreadId := threadId snap in
  if truthy currentThreadId then
    startNextQuestion snap false currentThreadId text w
  else setErrorMessage session_invalid w.

Definition toggleRecording (snap : Hooks) (w : World) : Completion :=
  if (aiState snap =? 1) || isProcessing snap then Normal w
  else
    let newRecordingState := if recordingState snap =? 0 then 1 else 0 in
    let w := setRecordingState newRecordingState w in
    if newRecordingState =? 1 then Normal (initializeRecording snap w)
    else stopRecording w.

(** *** The end of the interview *)

Definition no_record : jsstring := lit "면접 기록이 없습니다".

(** The body of [qaLogs.forEach((qa, index) => ...)], from position [index]
    on, appending to [interviewContent]. *)
Fixpoint forEach_qa (total index : nat) (rest : list QA)
    (interviewContent : jsstring) : jsstring :=
  match rest with
  | [] => interviewContent
  | qa :: rest' =>
      let answer := or_else (aText qa) [] in
      let interviewContent :=
        interviewContent ++ (lit "질문 : " ++ q qa ++ lit ", 답변 : " ++ answer) in
      let interviewContent :=
        if index <? total - 1 then interviewContent ++ lit ", "
        else interviewContent in
      forEach_qa total (S index) rest' interviewContent
  end.

Definition interviewContent (qaLogs : list QA) : jsstring :=
  if length qaLogs =? 0 then no_record
  else forEach_qa (length qaLogs) 0 qaLogs [].

Definition contactNumber (c : Cache) : jsstring :=
  match c with
  | CacheUnreadable => []
  | CacheAbsent => []
  | CacheMalformed => []
  | CacheObject contact =>
      let rawPhoneNumber := opt_or_else contact [] in
      if truthy rawPhoneNumber then
        let digits := digits_of rawPhoneNumber in
        if length digits =? 11 then
          substr digits 0 3 ++ lit "-" ++ substr digits 3 4 ++ lit "-"
            ++ substr_from digits 7
        else if length digits =? 10 then
          substr digits 0 3 ++ lit "-" ++ substr digits 3 3 ++ lit "-"
            ++ substr_from digits 6
        else rawPhoneNumber
      else []
  end.

(** The segment a turn is expected to give in the transcript, and the
    separator between segments. *)
Definition segment (qa : QA) : jsstring :=
  lit "질문 : " ++ q qa ++ lit ", 답변 : " ++ aText qa.

Definition separator : jsstring := lit ", ".

(** The questions of the turns of the log, in order. *)
Definition questions (w : World) : list jsstring := map q (qaLogs (hooks w)).

(** A turn is completed once it has an answer. *)
Definition completed (qa : QA) : bool := truthy (aText qa).

Definition completed_turns (logs : list QA) : nat :=
  length (filter completed logs).

(** The cleanup function the effect returns. *)
Definition effect_cleanup (w : World) : World :=
  cleanupAudio (world_of (stopRecording w)).

(** React calls the cleanup that the last run of the effect returned; a run
    that ended at its early [return] returned none. *)
Definition run_cleanup (w : World) : World :=
  if cleanup w then effect_cleanup w else w.

(** [onComplete()]: the page moves to the next step and the component is
    unmounted. *)
Definition onComplete (w : World) : World :=
  set_mounted false (run_cleanup (emit OnComplete w)).

(** [handleEndInterview], up to the request to the webhook.  The cache is
    read inside the [try] that holds the request: when [getItem] throws, the
    request is skipped, and the [finally] block calls [onComplete]. *)
Definition handleEndInterview (snap : Hooks) (w : World) : Completion :=
  do w <- stopRecording w;
  let w := cleanupAudio w in
  let w := match audioRef (refs w) with
           | Some a => set_audio (Some {| src := []; playing := false |}) w
           | None => w
           end in
  let w := setAiState 0 w in
  let w := setRecordingState 0 w in
  let w := setIsProcessing false w in
  let content := interviewContent (qaLogs snap) in
  if readable (cache (browser w)) then
    let contact := contactNumber (cache (browser w)) in
    Normal (spawn TWebhook (emit (FetchWebhook content contact) w))
  else Normal (onComplete w).

(** [handleEndInterview], from the answer of the webhook on: the [finally]
    block runs whatever the answer. *)
Definition handleEndInterview_fetched (r : Fetched) (w : World) : World :=
  match r with
  | Rejected => onComplete w
  | Response _ _ => onComplete w
  end.

(** *** Renders and the effect

    The effect depends on [isInitialized] and on [startNextQuestion], a
    callback that is made anew when [aiState] has changed.  A run of the
    effect that finds the interview initialized, or being initialized,
    returns at once and without a cleanup; the other runs call
    [initInterview] and return the cleanup. *)
Definition effect_body (w : World) : World :=
  if isInitializingRef (refs w) || isInitialized (hooks w)
  then set_cleanup false w
  else set_cleanup true (initInterview (hooks w) w).

Definition same_deps (a b : nat * bool) : bool :=
  (fst a =? fst b) && Bool.eqb (snd a) (snd b).

Definition commit (w : World) : World :=
  if mounted w then
    let d := (aiState (hooks w), isInitialized (hooks w)) in
    if same_deps d (deps w) then w
    else effect_body (run_cleanup (set_deps d w))
  else w.

(** *** Events *)

Inductive Event :=
| ClickRecord                          (* the record button *)
| ClickEnd                             (* the button that ends the interview *)
| Tick (ms : nat)                      (* time passes *)
| Fetch (i : nat) (r : Fetched)        (* the request of pending task [i] settles *)
| Microphone (i : nat) (granted : bool)
| Playback (i : nat) (started : bool)
| Recorded (i : nat) (data : Blob)     (* a stopped recorder delivers its events *)
| Timeout (i : nat)
| Ended                                (* the audio element has played to its end *)
| AnimationFrame (id : nat).

Definition resume (i : nat) (w : World) : option (Task * World) :=
  match nth_error (pending w) i with
  | Some t => Some (t, set_pending (remove_at i (pending w)) w)
  | None => None
  end.

Definition handle (e : Event) (w : World) : Completion :=
  match e with
  | ClickRecord => toggleRecording (hooks w) w
  | ClickEnd => handleEndInterview (hooks w) w
  | Tick ms => Normal (set_now (now (browser w) + Z.of_nat ms)%Z w)
  | Fetch i r =>
      match resume i w with
      | Some (TCreateThread snap, w') => Normal (initInterview_fetched snap r w')
      | Some (TSendMessage fromInit, w') =>
          Normal (startNextQuestion_fetched fromInit r w')
      | Some (TSynthesis fromInit, w') => Normal (playTTS_fetched fromInit r w')
      | Some (TWhisper snap d, w') =>
          Normal (processAudioToText_fetched snap d r w')
      | Some (TWebhook, w') => Normal (handleEndInterview_fetched r w')
      | _ => Normal w
      end
  | Microphone i granted =>
      match resume i w with
      | Some (TGetUserMedia snap, w') =>
          Normal (initializeRecording_resumed snap granted w')
      | _ => Normal w
      end
  | Playback i started =>
      match resume i w with
      | Some (TPlay fromInit, w') => Normal (playTTS_played fromInit started w')
      | _ => Normal w
      end
  | Recorded i data =>
      match resume i w with
      | Some (TRecorderStop rid, w') =>
          let w' := set_audioChunks (audioChunksRef (refs w') ++ [data]) w' in
          match nth_error (recorders (browser w')) rid with
          | Some r => Normal (processAudioToText (rec_onstop r) w')
          | None => Normal w'
          end
      | _ => Normal w
      end
  | Timeout i =>
      match resume i w with
      | Some (TTimer snap text, w') => Normal (processAudioToText_timer snap text w')
      | _ => Normal w
      end
  | Ended => Normal (onended w)
  | AnimationFrame id =>
      if existsb (Nat.eqb id) (frames (browser w))
      then Normal (drawWaveform (cancelAnimationFrame id w))
      else Normal w
  end.

(** One event: its handler runs, then React renders and runs the effect.
    The component is followed until it is unmounted. *)
Definition step (w : World) (e : Event) : World :=
  if mounted w then commit (world_of (handle e w)) else w.

Definition run (w : World) (es : list Event) : World := fold_left step es w.

(** The component right after it is mounted. *)
Definition mount (c : Cache) : World :=
  effect_body
    {| hooks := {| qaLogs := []; recordingState := 0; aiState := 0;
                   isProcessing := false; errorMessage := [];
                   threadId := []; isInitialized := false |};
       refs := {| recordStartTimeRef := 0; mediaRecorderRef := None;
                  audioChunksRef := []; audioContextRef := None;
                  analyserRef := false; animationFrameRef := None;
                  streamRef := None; audioRef := None;
                  isInitializingRef := false |};
       browser := {| now := 0; streams := []; recorders := [];
                     contexts := []; frames := []; frameCount := 0;
                     cache := c |};
       pending := []; effects := []; mounted := true; deps := (0, false);
       cleanup := false |}.

Definition reachable (w : World) : Prop :=
  exists c es, w = run (mount c) es.

(** *** The renders that recordings carry

    A recording is started by [toggleRecording], and the render of that
    click travels with the request for the microphone, with the recorder and
    with the transcription that follows. *)
Definition can_record (snap : Hooks) : bool :=
  negb ((aiState snap =? 1) || isProcessing snap).

Definition task_can_record (t : Task) : Prop :=
  match t with
  | TGetUserMedia snap => can_record snap = true
  | TWhisper snap _ => can_record snap = true
  | TTimer snap _ => can_record snap = true
  | _ => True
  end.

Definition renders_can_record (w : World) : Prop :=
  Forall task_can_record (pending w)
  /\ Forall (fun r => can_record (rec_onstop r) = true) (recorders (browser w)).

(** *** Sessions in which the starts of a capture do not overlap *)

Definition is_microphone_request (t : Task) : bool :=
  match t with TGetUserMedia _ => true | _ => false end.

(** The requests for the microphone that the browser has not answered. *)
Definition microphone_requests (w : World) : nat :=
  length (filter is_microphone_request (pending w)).

(** The event does not start a capture while a request for the microphone
    is not yet answered. *)
Definition unhurried (w : World) (e : Event) : bool :=
  match e with
  | ClickRecord =>
      (microphone_requests w =? 0) || negb (recordingState (hooks w) =? 0)
  | _ => true
  end.

Fixpoint unhurried_run (w : World) (es : list Event) : bool :=
  match es with
  | [] => true
  | e :: es' => unhurried w e && unhurried_run (step w e) es'
  end.

(** All the streams have ended. *)
Definition all_ended (l : list bool) : Prop :=
  forall s, nth s l false = false.

(** The only stream that can be live is the one in [streamRef]; while a
    request for the microphone waits, which is at most one, no stream is
    live. *)
Definition one_stream (w : World) : Prop :=
  (forall s, nth s (streams (browser w)) false = true ->
             streamRef (refs w) = Some s)
  /\ (1 <= microphone_requests w -> all_ended (streams (browser w)))
  /\ microphone_requests w <= 1.

(** [w'] has no live stream that [w] has not, holds the same stream if any is
    live, and waits for no more requests. *)
Definition calmer (w w' : World) : Prop :=
  (forall s, nth s (streams (browser w')) false = true ->
             nth s (streams (browser w)) false = true
             /\ streamRef (refs w') = streamRef (refs w))
  /\ microphone_requests w' <= microphone_requests w.

(** *** What stopping and cleaning up leave as it was *)

(** The parts of the world that capture and cleanup never write. *)
Definition same_surface (w w' : World) : Prop :=
  hooks w' = hooks w /\ effects w' = effects w /\ mounted w' = mounted w
  /\ cache (browser w') = cache (browser w)
  /\ audioRef (refs w') = audioRef (refs w) /\ deps w' = deps w.

(** *** Sample sessions *)

Definition answered (s : string) : Fetched := Response true (Some (lit s)).

Definition sample_question : jsstring := lit "자기소개를 해주세요.".

(** The thread is created, the first question arrives, is synthesized,
    played to its end. *)
Definition first_question : list Event :=
  [Fetch 0 (answered "thread_1"); Fetch 0 (Response true (Some sample_question));
   Fetch 0 (answered "QUJD"); Playback 0 true; Ended].

(** Then the user records an answer of two and a half seconds and stops;
    the recording is on its way to the transcription route. *)
Definition first_answer_recorded : list Event :=
  first_question ++
  [ClickRecord; Microphone 0 true; Tick 2500; ClickRecord; Recorded 0 4096].

(** The creation of the thread fails (the route answers with status 500);
    the user records two and a half seconds all the same and stops. *)
Definition recorded_without_thread : list Event :=
  [Fetch 0 (Response false None);
   ClickRecord; Microphone 0 true; Tick 2500; ClickRecord; Recorded 0 4096].

(** The user presses the record button while the thread is being created;
    the thread then arrives and the first question is asked for. *)
Definition record_before_first_question : list Event :=
  [ClickRecord; Fetch 0 (answered "thread_1")].

(** The first answer is transcribed; in the second before the next question
    is asked for, the user presses the record button again; then the timer
    fires. *)
Definition record_before_next_question : list Event :=
  first_answer_recorded ++
  [Fetch 0 (answered "A1"); ClickRecord; Timeout 0].

(** After the first question the user presses the record button three
    times (start, stop, start) while the browser has not yet answered the
    first request for the microphone; then both requests are granted. *)
Definition start_stop_start : list Event :=
  first_question ++
  [ClickRecord; ClickRecord; ClickRecord; Microphone 0 true; Microphone 0 true].

(** The render that the recorder of the first answer captured. *)
Definition first_answer_render : Hooks :=
  {| qaLogs := [new_question sample_question]; recordingState := 0;
     aiState := 2; isProcessing := false; errorMessage := [];
     threadId := lit "thread_1"; isInitialized := true |}.

(** The render that the recorder captured when the creation of the thread
    had failed. *)
Definition no_thread_render : Hooks :=
  {| qaLogs := []; recordingState := 0; aiState := 0; isProcessing := false;
     errorMessage :=
       lit "면접 초기화에 실패했습니다. 새로고침 후 다시 시도해주세요.";
     threadId := []; isInitialized := false |}.

End Interview.

(** ** The microphone self-test *)

Module MicTest.

(** *** Data *)

Inductive Permission := granted | denied | prompt.

Record Hooks := {
  isRecording : bool;
  isRecordingComplete : bool;
  isConverting : bool;
  conversionResult : jsstring;
  isSuccess : option bool;        (* [null] until a test has been judged *)
  errorMessage : jsstring;
  isLoading : bool;
  micPermission : Permission;
  isTimerComplete : bool;
  remainingTime : nat }.

Definition Blob := nat.

Inductive RecordingState := inactive | recording.

Record MediaRecorder := { rec_stream : nat; rec_state : RecordingState }.

Record Refs := {
  recorderRef : option nat;
  audioChunksRef : list Blob;
  audioContextRef : option nat;
  animationFrameRef : option nat;
  analyserRef : bool;
  streamRef : option nat;
  recordStartTimeRef : Z;
  timerRef : option nat }.

Record Browser := {
  now : Z;
  supported : bool;   (* [navigator.mediaDevices] and [window.MediaRecorder] exist *)
  streams : list bool;
  recorders : list MediaRecorder;
  contexts : list bool;
  frames : list nat;
  frameCount : nat;
  intervals : list nat;          (* the interval timers that run *)
  intervalCount : nat }.

(** A value that was thrown: an [Error] with its name and message, or
    something else. *)
Inductive Thrown :=
| ErrorObject (name message : jsstring)
| OtherValue.

(** What the transcription request gives: [fetch] rejects, the response is
    not [ok], [response.json()] rejects, or the body is parsed and its
    [text] read. *)
Inductive Transcribed :=
| FetchRejected (e : Thrown)
| NotOk
| BadJson (e : Thrown)
| Parsed (text : option jsstring).

Inductive Task :=
| TGetUserMedia
| TRecorderStop (rid : nat)
| TWhisper.

Inductive Effect :=
| GetUserMedia
| FetchWhisper (chunks : list Blob)
| OnComplete.

Record World := {
  hooks : Hooks;
  refs : Refs;
  browser : Browser;
  pending : list Task;
  effects : list Effect;
  mounted : bool }.

Definition Completion := Completion World.

(** *** Updating the world *)

Definition upd_hooks (f : Hooks -> Hooks) (w : World) : World :=
  {| hooks := f (hooks w); refs := refs w; browser := browser w;
     pending := pending w; effects := effects w; mounted := mounted w |}.

Definition upd_refs (f : Refs -> Refs) (w : World) : World :=
  {| hooks := hooks w; refs := f (refs w); browser := browser w;
     pending := pending w; effects := effects w; mounted := mounted w |}.

Definition upd_browser (f : Browser -> Browser) (w : World) : World :=
  {| hooks := hooks w; refs := refs w; browser := f (browser w);
     pending := pending w; effects := effects w; mounted := mounted w |}.

Definition set_pending (p : list Task) (w : World) : World :=
  {| hooks := hooks w; refs := refs w; browser := browser w;
     pending := p; effects := effects w; mounted := mounted w |}.

Definition emit (e : Effect) (w : World) : World :=
  {| hooks := hooks w; refs := refs w; browser := browser w;
     pending := pending w; effects := effects w ++ [e]; mounted := mounted w |}.

Definition set_mounted (b : bool) (w : World) : World :=
  {| hooks := hooks w; refs := refs w; browser := browser w;
     pending := pending w; effects := effects w; mounted := b |}.

Definition spawn (t : Task) (w : World) : World :=
  set_pending (pending w ++ [t]) w.

Definition setIsRecording (v : bool) : World -> World :=
  upd_hooks (fun h =>
    {| isRecording := v; isRecordingComplete := isRecordingComplete h;
       isConverting := isConverting h;
       conversionResult := conversionResult h; isSuccess := isSuccess h;
       errorMessage := errorMessage h; isLoading := isLoading h;
       micPermission := micPermission h;
       isTimerComplete := isTimerComplete h;
       remainingTime := remainingTime h |}).

Definition setIsRecordingComplete (v : bool) : World -> World :=
  upd_hooks (fun h =>
    {| isRecording := isRecording h; isRecordingComplete := v;
       isConverting := isConverting h;
       conversionResult := conversionResult h; isSuccess := isSuccess h;
       errorMessage := errorMessage h; isLoading := isLoading h;
       micPermission := micPermission h;
       isTimerComplete := isTimerComplete h;
       remainingTime := remainingTime h |}).

Definition setIsConverting (v : bool) : World -> World :=
  upd_hooks (fun h =>
    {| isRecording := isRecording h;
       isRecordingComplete := isRecordingComplete h; isConverting := v;
       conversionResult := conversionResult h; isSuccess := isSuccess h;
       errorMessage := errorMessage h; isLoading := isLoading h;
       micPermission := micPermission h;
       isTimerComplete := isTimerComplete h;
       remainingTime := remainingTime h |}).

Definition setConversionResult (v : jsstring) : World -> World :=
  upd_hooks (fun h =>
    {| isRecording := isRecording h;
       isRecordingComplete := isRecordingComplete h;
       isConverting := isConverting h; conversionResult := v;
       isSuccess := isSuccess h; errorMessage := errorMessage h;
       isLoading := isLoading h; micPermission := micPermission h;
       isTimerComplete := isTimerComplete h;
       remainingTime := remainingTime h |}).

Definition setIsSuccess (v : option bool) : World -> World :=
  upd_hooks (fun h =>
    {| isRecording := isRecording h;
       isRecordingComplete := isRecordingComplete h;
       isConverting := isConverting h;
       conversionResult := conversionResult h; isSuccess := v;
       errorMessage := errorMessage h; isLoading := isLoading h;
       micPermission := micPermission h;
       isTimerComplete := isTimerComplete h;
       remainingTime := remainingTime h |}).

Definition setErrorMessage (v : jsstring) : World -> World :=
  upd_hooks (fun h =>
    {| isRecording := isRecording h;
       isRecordingComplete := isRecordingComplete h;
       isConverting := isConverting h;
       conversionResult := conversionResult h; isSuccess := isSuccess h;
       errorMessage := v; isLoading := isLoading h;
       micPermission := micPermission h;
       isTimerComplete := isTimerComplete h;
       remainingTime := remainingTime h |}).

Definition setIsLoading (v : bool) : World -> World :=
  upd_hooks (fun h =>
    {| isRecording := isRecording h;
       isRecordingComplete := isRecordingComplete h;
       isConverting := isConverting h;
       conversionResult := conversionResult h; isSuccess := isSuccess h;
       errorMessage := errorMessage h; isLoading := v;
       micPermission := micPermission h;
       isTimerComplete := isTimerComplete h;
       remainingTime := remainingTime h |}).

Definition setMicPermission (v : Permission) : World -> World :=
  upd_hooks (fun h =>
    {| isRecording := isRecording h;
       isRecordingComplete := isRecordingComplete h;
       isConverting := isConverting h;
       conversionResult := conversionResult h; isSuccess := isSuccess h;
       errorMessage := errorMessage h; isLoading := isLoading h;
       micPermission := v; isTimerComplete := isTimerComplete h;
       remainingTime := remainingTime h |}).

Definition setIsTimerComplete (v : bool) : World -> World :=
  upd_hooks (fun h =>
    {| isRecording := isRecording h;
       isRecordingComplete := isRecordingComplete h;
       isConverting := isConverting h;
       conversionResult := conversionResult h; isSuccess := isSuccess h;
       errorMessage := errorMessage h; isLoading := isLoading h;
       micPermission := micPermission h; isTimerComplete := v;
       remainingTime := remainingTime h |}).

Definition setRemainingTime (v : nat) : World -> World :=
  upd_hooks (fun h =>
    {| isRecording := isRecording h;
       isRecordingComplete := isRecordingComplete h;
       isConverting := isConverting h;
       conversionResult := conversionResult h; isSuccess := isSuccess h;
       errorMessage := errorMessage h; isLoading := isLoading h;
       micPermission := micPermission h;
       isTimerComplete := isTimerComplete h; remainingTime := v |}).

Definition set_recorder (v : option nat) : World -> World :=
  upd_refs (fun r =>
    {| recorderRef := v; audioChunksRef := audioChunksRef r;
       audioContextRef := audioContextRef r;
       animationFrameRef := animationFrameRef r;
       analyserRef := analyserRef r; streamRef := streamRef r;
       recordStartTimeRef := recordStartTimeRef r;
       timerRef := timerRef r |}).

Definition set_audioChunks (v : list Blob) : World -> World :=
  upd_refs (fun r =>
    {| recorderRef := recorderRef r; audioChunksRef := v;
       audioContextRef := audioContextRef r;
       animationFrameRef := animationFrameRef r;
       analyserRef := analyserRef r; streamRef := streamRef r;
       recordStartTimeRef := recordStartTimeRef r;
       timerRef := timerRef r |}).

Definition set_audioContext (v : option nat) : World -> World :=
  upd_refs (fun r =>
    {| recorderRef := recorderRef r; audioChunksRef := audioChunksRef r;
       audioContextRef := v; animationFrameRef := animationFrameRef r;
       analyserRef := analyserRef r; streamRef := streamRef r;
       recordStartTimeRef := recordStartTimeRef r;
       timerRef := timerRef r |}).

Definition set_animationFrame (v : option nat) : World -> World :=
  upd_refs (fun r =>
    {| recorderRef := recorderRef r; audioChunksRef := audioChunksRef r;
       audioContextRef := audioContextRef r; animationFrameRef := v;
       analyserRef := analyserRef r; streamRef := streamRef r;
       recordStartTimeRef := recordStartTimeRef r;
       timerRef := timerRef r |}).

Definition set_analyser (v : bool) : World -> World :=
  upd_refs (fun r =>
    {| recorderRef := recorderRef r; audioChunksRef := audioChunksRef r;
       audioContextRef := audioContextRef r;
       animationFrameRef := animationFrameRef r; analyserRef := v;
       streamRef := streamRef r; recordStartTimeRef := recordStartTimeRef r;
       timerRef := timerRef r |}).

Definition set_stream (v : option nat) : World -> World :=
  upd_refs (fun r =>
    {| recorderRef := recorderRef r; audioChunksRef := audioChunksRef r;
       audioContextRef := audioContextRef r;
       animationFrameRef := animationFrameRef r;
       analyserRef := analyserRef r; streamRef := v;
       recordStartTimeRef := recordStartTimeRef r;
       timerRef := timerRef r |}).

Definition set_recordStartTime (v : Z) : World -> World :=
  upd_refs (fun r =>
    {| recorderRef := recorderRef r; audioChunksRef := audioChunksRef r;
       audioContextRef := audioContextRef r;
       animationFrameRef := animationFrameRef r;
       analyserRef := analyserRef r; streamRef := streamRef r;
       recordStartTimeRef := v; timerRef := timerRef r |}).

Definition set_timer (v : option nat) : World -> World :=
  upd_refs (fun r =>
    {| recorderRef := recorderRef r; audioChunksRef := audioChunksRef r;
       audioContextRef := audioContextRef r;
       animationFrameRef := animationFrameRef r;
       analyserRef := analyserRef r; streamRef := streamRef r;
       recordStartTimeRef := recordStartTimeRef r; timerRef := v |}).

Definition set_now (v : Z) : World -> World :=
  upd_browser (fun b =>
    {| now := v; supported := supported b; streams := streams b;
       recorders := recorders b; contexts := contexts b; frames := frames b;
       frameCount := frameCount b; intervals := intervals b;
       intervalCount := intervalCount b |}).

Definition set_streams (v : list bool) : World -> World :=
  upd_browser (fun b =>
    {| now := now b; supported := supported b; streams := v;
       recorders := recorders b; contexts := contexts b; frames := frames b;
       frameCount := frameCount b; intervals := intervals b;
       intervalCount := intervalCount b |}).

Definition set_recorders (v : list MediaRecorder) : World -> World :=
  upd_browser (fun b =>
    {| now := now b; supported := supported b; streams := streams b;
       recorders := v; contexts := contexts b; frames := frames b;
       frameCount := frameCount b; intervals := intervals b;
       intervalCount := intervalCount b |}).

Definition set_contexts (v : list bool) : World -> World :=
  upd_browser (fun b =>
    {| now := now b; supported := supported b; streams := streams b;
       recorders := recorders b; contexts := v; frames := frames b;
       frameCount := frameCount b; intervals := intervals b;
       intervalCount := intervalCount b |}).

Definition set_frames (v : list nat) (n : nat) : World -> World :=
  upd_browser (fun b =>
    {| now := now b; supported := supported b; streams := streams b;
       recorders := recorders b; contexts := contexts b; frames := v;
       frameCount := n; intervals := intervals b;
       intervalCount := intervalCount b |}).

Definition set_intervals (v : list nat) (n : nat) : World -> World :=
  upd_browser (fun b =>
    {| now := now b; supported := supported b; streams := streams b;
       recorders := recorders b; contexts := contexts b; frames := frames b;
       frameCount := frameCount b; intervals := v; intervalCount := n |}).

(** *** Browser objects *)

Definition is_recording (r : MediaRecorder) : bool :=
  match rec_state r with recording => true | inactive => false end.

Definition with_state (st : RecordingState) (r : MediaRecorder) : MediaRecorder :=
  {| rec_stream := rec_stream r; rec_state := st |}.

Definition MediaRecorder_stop (rid : nat) (w : World) : Completion :=
  match nth_error (recorders (browser w)) rid with
  | Some r =>
      if is_recording r then
        let w := set_recorders
                   (update_at rid (with_state inactive) (recorders (browser w))) w in
        Normal (spawn (TRecorderStop rid) w)
      else Abrupt (lit "InvalidStateError") w
  | None => Normal w
  end.

Definition recording_on (s : nat) (rs : list MediaRecorder) : list nat :=
  filter (fun i => match nth_error rs i with
                   | Some r => (rec_stream r =? s) && is_recording r
                   | None => false
                   end)
         (seq 0 (length rs)).

Definition stop_tracks (s : nat) (w : World) : World :=
  let ended := recording_on s (recorders (browser w)) in
  let w := set_streams (update_at s (fun _ => false) (streams (browser w))) w in
  let w := set_recorders
             (map (fun r => if (rec_stream r =? s) && is_recording r
                            then with_state inactive r else r)
                  (recorders (browser w))) w in
  fold_left (fun w rid => spawn (TRecorderStop rid) w) ended w.

Definition open_streams (w : World) : nat :=
  count_occ bool_dec (streams (browser w)) true.

Definition cancelAnimationFrame (id : nat) (w : World) : World :=
  set_frames (filter (fun i => negb (i =? id)) (frames (browser w)))
             (frameCount (browser w)) w.

(** One turn of [draw]: [animationFrameRef.current = requestAnimationFrame(draw)]. *)
Definition draw (w : World) : World :=
  let id := S (frameCount (browser w)) in
  set_animationFrame (Some id) (set_frames (frames (browser w) ++ [id]) id w).

Definition clearInterval (id : nat) (w : World) : World :=
  set_intervals (filter (fun i => negb (i =? id)) (intervals (browser w)))
                (intervalCount (browser w)) w.

(** [timerRef.current = setInterval(..., 1000)] *)
Definition setInterval (w : World) : World :=
  let id := S (intervalCount (browser w)) in
  set_timer (Some id) (set_intervals (intervals (browser w) ++ [id]) id w).

Definition context_open (c : nat) (w : World) : bool :=
  nth c (contexts (browser w)) false.

Definition AudioContext_close (c : nat) (w : World) : World :=
  set_contexts (update_at c (fun _ => false) (contexts (browser w))) w.

(** *** The functions of the component *)

(** The canvas is in the document while the committed render shows the
    recording view. *)
Definition canvas_present (dom : Hooks) : bool :=
  match micPermission dom with
  | denied => false
  | _ => isRecording dom
  end.

Definition startCanvasAnimation (dom : Hooks) (w : World) : World :=
  if negb (canvas_present dom) || negb (analyserRef (refs w)) then w
  else draw w.

Definition setupAudioVisualization (dom : Hooks) (w : World) : World :=
  let w := match audioContextRef (refs w) with
           | Some c => if context_open c w then AudioContext_close c w else w
           | None => w
           end in
  let audioContext := length (contexts (browser w)) in
  let w := set_contexts (contexts (browser w) ++ [true]) w in
  let w := set_audioContext (Some audioContext) w in
  let w := set_analyser true w in
  startCanvasAnimation dom w.

Definition message_or (e : Thrown) (fallback : jsstring) : jsstring :=
  match e with
  | ErrorObject _ message => message
  | OtherValue => fallback
  end.

(** The [catch] block of [startRecording]. *)
Definition startRecording_catch (e : Thrown) (w : World) : World :=
  let w := setIsLoading false w in
  let w := setErrorMessage (message_or e (lit "마이크 접근에 실패했습니다.")) w in
  match e with
  | ErrorObject name _ =>
      if eqb name (lit "NotAllowedError") || eqb name (lit "PermissionDeniedError")
      then setMicPermission denied w
      else w
  | OtherValue => w
  end.

(** [startRecording], up to the request for the microphone. *)
Definition startRecording (w : World) : World :=
  let w := setIsLoading true w in
  let w := setErrorMessage [] w in
  let w := setIsTimerComplete false w in
  let w := match streamRef (refs w) with
           | Some s => set_stream None (stop_tracks s w)
           | None => w
           end in
  if negb (supported (browser w)) then
    startRecording_catch
      (ErrorObject (lit "Error")
         (lit "브라우저가 미디어 녹음 기능을 지원하지 않습니다.")) w
  else spawn TGetUserMedia (emit GetUserMedia w).

(** The callback of the interval timer. *)
Definition countdown (w : World) : World :=
  let prev := remainingTime (hooks w) in
  if prev <=? 1 then setRemainingTime 0 (setIsTimerComplete true w)
  else setRemainingTime (prev - 1) w.

(** [startRecording], once [getUserMedia] has settled. *)
Definition startRecording_resumed (dom : Hooks) (r : option Thrown) (w : World)
  : World :=
  match r with
  | Some e => startRecording_catch e w
  | None =>
      let stream := length (streams (browser w)) in
      let w := set_streams (streams (browser w) ++ [true]) w in
      let w := set_stream (Some stream) w in
      let w := setMicPermission granted w in
      let w := setupAudioVisualization dom w in
      let mediaRecorder := length (recorders (browser w)) in
      let w := set_recorders
                 (recorders (browser w) ++
                  [{| rec_stream := stream; rec_state := inactive |}]) w in
      let w := set_recorder (Some mediaRecorder) w in
      let w := set_audioChunks [] w in
      let w := set_recorders
                 (update_at mediaRecorder (with_state recording)
                            (recorders (browser w))) w in
      let w := setIsRecording true w in
      let w := setIsLoading false w in
      let w := set_recordStartTime (now (browser w)) w in
      let w := setRemainingTime 5 w in
      setInterval w
  end.

(** The three steps of [stopRecording]. *)
Definition clear_timer (w : World) : World :=
  match timerRef (refs w) with
  | Some t => if negb (t =? 0) then set_timer None (clearInterval t w) else w
  | None => w
  end.

Definition stop_recorder (snap : Hooks) (w : World) : Completion :=
  match recorderRef (refs w) with
  | Some rid =>
      if isRecording snap then
        do w <- MediaRecorder_stop rid w;
        Normal (set_recorder None (setIsRecording false w))
      else Normal w
  | None => Normal w
  end.

Definition drop_frame (w : World) : World :=
  match animationFrameRef (refs w) with
  | Some id => set_animationFrame None (cancelAnimationFrame id w)
  | None => w
  end.

Definition stopRecording (snap : Hooks) (w : World) : Completion :=
  do w <- stop_recorder snap (clear_timer w);
  Normal (drop_frame w).

(** No capture session is open, as the render [snap] and the references
    have it: no timer runs, no recorder is held or the render does not
    record, and no animation frame is requested. *)
Definition no_capture (snap : Hooks) (w : World) : Prop :=
  timerRef (refs w) = None
  /\ (recorderRef (refs w) = None \/ isRecording snap = false)
  /\ animationFrameRef (refs w) = None.



(** [handleRecordingComplete], up to the request to the transcription route. *)
Definition handleRecordingComplete (w : World) : World :=
  let w := setIsRecordingComplete true w in
  let w := setIsConverting true w in
  spawn TWhisper (emit (FetchWhisper (audioChunksRef (refs w))) w).

(** The [catch] block of [handleRecordingComplete]. *)
Definition handleRecordingComplete_catch (e : Thrown) (w : World) : World :=
  let w := setErrorMessage
             (message_or e (lit "음성 변환 중 오류가 발생했습니다.")) w in
  setIsSuccess (Some false) w.

(** [handleRecordingComplete], from the answer of the route on. *)
Definition handleRecordingComplete_fetched (r : Transcribed) (w : World) : World :=
  let w :=
    match r with
    | FetchRejected e => handleRecordingComplete_catch e w
    | NotOk =>
        handleRecordingComplete_catch
          (ErrorObject (lit "Error") (lit "음성 변환에 실패했습니다.")) w
    | BadJson e => handleRecordingComplete_catch e w
    | Parsed text =>
        let w := setConversionResult (opt_or_else text []) w in
        if truthy_opt text
           && negb (eqb (trim (opt_or_else text [])) [])
        then setIsSuccess (Some true) w
        else setIsSuccess (Some false) w
    end in
  setIsConverting false w.

Definition handleRetry (w : World) : World :=
  let w := setIsRecordingComplete false w in
  let w := setConversionResult [] w in
  let w := setIsSuccess None w in
  let w := setErrorMessage [] w in
  let w := setIsTimerComplete false w in
  let w := match streamRef (refs w) with
           | Some s => stop_tracks s w
           | None => w
           end in
  startRecording w.

(** The cleanup the component runs when it leaves the page. *)
Definition unmount (w : World) : World :=
  let w := clear_timer w in
  let w := drop_frame w in
  let w := match audioContextRef (refs w) with
           | Some c =>
               if context_open c w
               then set_audioContext None (AudioContext_close c w)
               else w
           | None => w
           end in
  let w := match streamRef (refs w) with
           | Some s => set_stream None (stop_tracks s w)
           | None => w
           end in
  set_mounted false w.

Definition handleNext (w : World) : World :=
  let w := match streamRef (refs w) with
           | Some s => set_stream None (stop_tracks s w)
           | None => w
           end in
  let w := match audioContextRef (refs w) with
           | Some c =>
               if context_open c w
               then set_audioContext None (AudioContext_close c w)
               else w
           | None => w
           end in
  unmount (emit OnComplete w).

(** *** What the render shows *)

(** The single button of the recording view, which starts or stops. *)
Definition main_button_enabled (h : Hooks) : bool :=
  match micPermission h with
  | denied => false
  | _ => negb (isRecordingComplete h) && negb (isLoading h)
  end.

Definition retry_button_shown (h : Hooks) : bool :=
  match micPermission h with
  | denied => true
  | _ => isRecordingComplete h
  end.

(** The button to the next step, [disabled={!isSuccess}]. *)
Definition next_button_enabled (h : Hooks) : bool :=
  match micPermission h with
  | denied => false
  | _ => isRecordingComplete h
         && match isSuccess h with Some true => true | _ => false end
  end.

(** *** Events *)

Inductive Event :=
| ClickMain
| ClickRetry
| ClickNext
| Tick (ms : nat)
| Microphone (i : nat) (r : option Thrown)   (* [None]: a stream is granted *)
| Recorded (i : nat) (data : Blob)
| Fetch (i : nat) (r : Transcribed)
| Interval (id : nat)
| AnimationFrame (id : nat).

Definition resume (i : nat) (w : World) : option (Task * World) :=
  match nth_error (pending w) i with
  | Some t => Some (t, set_pending (remove_at i (pending w)) w)
  | None => None
  end.

Definition handle (e : Event) (w : World) : Completion :=
  let dom := hooks w in
  match e with
  | ClickMain =>
      if main_button_enabled dom then
        if isRecording dom then stopRecording dom w
        else Normal (startRecording w)
      else Normal w
  | ClickRetry =>
      if retry_button_shown dom then Normal (handleRetry w) else Normal w
  | ClickNext =>
      if next_button_enabled dom then Normal (handleNext w) else Normal w
  | Tick ms => Normal (set_now (now (browser w) + Z.of_nat ms)%Z w)
  | Microphone i r =>
      match resume i w with
      | Some (TGetUserMedia, w') => Normal (startRecording_resumed dom r w')
      | _ => Normal w
      end
  | Recorded i data =>
      match resume i w with
      | Some (TRecorderStop rid, w') =>
          let w' := if 0 <? data
                    then set_audioChunks (audioChunksRef (refs w') ++ [data]) w'
                    else w' in
          Normal (handleRecordingComplete w')
      | _ => Normal w
      end
  | Fetch i r =>
      match resume i w with
      | Some (TWhisper, w') => Normal (handleRecordingComplete_fetched r w')
      | _ => Normal w
      end
  | Interval id =>
      if existsb (Nat.eqb id) (intervals (browser w))
      then Normal (countdown w) else Normal w
  | AnimationFrame id =>
      if existsb (Nat.eqb id) (frames (browser w))
      then Normal (draw (cancelAnimationFrame id w))
      else Normal w
  end.

Definition step (w : World) (e : Event) : World :=
  if mounted w then world_of (handle e w) else w.

Definition run (w : World) (es : list Event) : World := fold_left step es w.

Definition mount (media : bool) : World :=
  {| hooks := {| isRecording := false; isRecordingComplete := false;
                 isConverting := false; conversionResult := [];
                 isSuccess := None; errorMessage := []; isLoading := false;
                 micPermission := prompt; isTimerComplete := false;
                 remainingTime := 5 |};
     refs := {| recorderRef := None; audioChunksRef := [];
                audioContextRef := None; animationFrameRef := None;
                analyserRef := false; streamRef := None;
                recordStartTimeRef := 0; timerRef := None |};
     browser := {| now := 0; supported := media; streams := [];
                   recorders := []; contexts := []; frames := [];
                   frameCount := 0; intervals := []; intervalCount := 0 |};
     pending := []; effects := []; mounted := true |}.

(** *** Sample sessions *)

(** The user starts the test, the microphone is granted, and the user stops
    the recording after three seconds. *)
Definition recorded : list Event :=
  [ClickMain; Microphone 0 None; Tick 3000; ClickMain].

(** The recorder has delivered its data and the recording is on its way to
    the transcription route. *)
Definition transcribing : list Event := recorded ++ [Recorded 0 4096].

(** The microphone is refused; the user then allows it in the browser and
    presses the retry button of the refusal view twice before the browser
    has answered; both requests are granted. *)
Definition refusal : Thrown :=
  ErrorObject (lit "NotAllowedError") (lit "Permission denied").

Definition retry_twice_after_refusal : list Event :=
  [ClickMain; Microphone 0 (Some refusal); ClickRetry; ClickRetry;
   Microphone 0 None; Microphone 0 None].






End MicTest.

(** ** Sessions of the interview: what is delivered *)

Module InterviewSession.
Import Interview.

(** The requests to the webhook among what left the component. *)
Definition deliveries (w : World) : list Effect :=
  filter (fun e => match e with FetchWebhook _ _ => true | _ => false end)
         (effects w).

(** What a step leaves of the cache and of the deliveries. *)
Definition same_delivery (w w' : World) : Prop :=
  cache (browser w') = cache (browser w) /\ deliveries w' = deliveries w.

(** The cache is [c] and every delivery carries the contact number read
    from it. *)
Definition delivers (c : Cache) (w : World) : Prop :=
  cache (browser w) = c
  /\ forall content contact,
       In (FetchWebhook content contact) (deliveries w) ->
       contact = contactNumber c.

End InterviewSession.

(** ** Sessions of the microphone self-test *)

Module MicTestSession.
Import MicTest.

(** The session has a transcription that answered with a text that is not
    blank. *)
Definition heard (es : list Event) : Prop :=
  exists i text, In (Fetch i (Parsed (Some text))) es /\ trim text <> [].

(** The calls of [onComplete]. *)
Definition completions (w : World) : nat :=
  length (filter (fun e => match e with OnComplete => true | _ => false end)
                 (effects w)).

(** What a step leaves of the verdict and of the way out of the test. *)
Definition same_verdict (w w' : World) : Prop :=
  isSuccess (hooks w') = isSuccess (hooks w)
  /\ conversionResult (hooks w') = conversionResult (hooks w)
  /\ completions w' = completions w
  /\ mounted w' = mounted w.

(** What a step leaves of the render, of what left the component, and of
    its place on the page. *)
Definition same_face (w w' : World) : Prop :=
  hooks w' = hooks w /\ effects w' = effects w /\ mounted w' = mounted w.

(** What holds of the verdict after the events [es]. *)
Definition judged (es : list Event) (w : World) : Prop :=
  (isSuccess (hooks w) = Some true ->
   heard es /\ trim (conversionResult (hooks w)) <> [])
  /\ (completions w = 0
      \/ (completions w = 1 /\ mounted w = false /\ heard es)).

(** The interval timer fires [n] times. *)
Definition ticks (n : nat) (w : World) : World := Nat.iter n countdown w.

End MicTestSession.

(** ** The keypad for the phone number *)

Module NumericPad.

(** The twelve keys of the pad. *)
Inductive Key :=
| K1 | K2 | K3 | K4 | K5 | K6 | K7 | K8 | K9 | KStar | K0 | KHash.

(** The string a key passes to [handleNumberClick]. *)
Definition label (k : Key) : jsstring :=
  match k with
  | K1 => lit "1" | K2 => lit "2" | K3 => lit "3" | K4 => lit "4"
  | K5 => lit "5" | K6 => lit "6" | K7 => lit "7" | K8 => lit "8"
  | K9 => lit "9" | KStar => lit "*" | K0 => lit "0" | KHash => lit "#"
  end.

Definition digit_key (k : Key) : bool :=
  match k with KStar | KHash => false | _ => true end.

(** [s.endsWith(t)] *)
Definition endsWith (s t : jsstring) : bool :=
  eqb (skipn (length s - length t) s) t.

(** [s.slice(0, -1)] *)
Definition drop_last (s : jsstring) : jsstring := firstn (length s - 1) s.

(** [s.slice(a)] and [s.slice(a, b)] for [0 <= a <= b]. *)
Definition slice_from (s : jsstring) (a : nat) : jsstring := skipn a s.
Definition slice (s : jsstring) (a b : nat) : jsstring := firstn (b - a) (skipn a s).

(** [s.padEnd(n, 'X')] *)
Definition padEnd (s : jsstring) (n : nat) : jsstring :=
  s ++ repeat 88%N (n - length s).

(** [s.replace(/-/g, '')] *)
Definition no_hyphen (c : N) : bool := negb (c =? 45)%N.
Definition without_hyphens (s : jsstring) : jsstring := filter no_hyphen s.

(** The value [handleNumberClick] passes to [setPhoneNumber], or the state
    as it is when the handler returns early.  [phoneNumber] is the value of
    the render. *)
Definition handleNumberClick (num : jsstring) (phoneNumber : jsstring)
  : jsstring :=
  if 13 <=? length phoneNumber then phoneNumber
  else if eqb phoneNumber [] && negb (eqb num (lit "0")) then lit "010-" ++ num
  else if eqb phoneNumber [] then lit "0"
  else if eqb phoneNumber (lit "0") then lit "01"
  else if eqb phoneNumber (lit "01") then lit "010-"
  else if eqb phoneNumber (lit "010-") && negb (eqb num (lit "0"))
  then phoneNumber ++ num
  else if length phoneNumber =? 8 then phoneNumber ++ lit "-" ++ num
  else phoneNumber ++ num.

(** [handleDelete]: both calls of [setPhoneNumber] take the number of the
    render, and the second one stands. *)
Definition handleDelete (phoneNumber : jsstring) : jsstring :=
  if length phoneNumber =? 0 then phoneNumber
  else
    let state := phoneNumber in
    let state := if endsWith phoneNumber (lit "-")
                 then drop_last phoneNumber else state in
    let state := drop_last phoneNumber in
    state.

(** A string matches a sequence of one-character tests from its first to
    its last character. *)
Fixpoint matches_all (pattern : list (N -> bool)) (s : jsstring) : bool :=
  match pattern, s with
  | [], [] => true
  | p :: pattern', c :: s' => p c && matches_all pattern' s'
  | _, _ => false
  end.

(** The regular expression [/^010-\d{4}-\d{4}$/]. *)
Definition phone_pattern : list (N -> bool) :=
  map N.eqb (lit "010-") ++ repeat is_digit 4 ++ map N.eqb (lit "-")
  ++ repeat is_digit 4.

Definition isValidPhoneNumber (phone : jsstring) : bool :=
  matches_all phone_pattern phone.

Definition placeholder : jsstring := lit "여기에 번호가 표시됩니다".

Definition displayPhoneNumber (phoneNumber : jsstring) : jsstring :=
  if negb (truthy phoneNumber) then placeholder
  else if length phoneNumber <=? 4 then
    padEnd phoneNumber 4 ++ lit "-XXXX-XXXX"
  else if length phoneNumber <=? 9 then
    let digits := slice_from (without_hyphens phoneNumber) 3 in
    lit "010-" ++ padEnd digits 4 ++ lit "-XXXX"
  else
    let digits := slice_from (without_hyphens phoneNumber) 7 in
    lit "010-" ++ slice (without_hyphens phoneNumber) 3 7 ++ lit "-"
    ++ padEnd digits 4.

(** *** The component *)

Record Pad := {
  phoneNumber : jsstring;
  isSubmitting : bool;
  completed : list jsstring }.   (* the numbers passed to [onComplete] *)

Definition handleConfirm (p : Pad) : Pad :=
  if isValidPhoneNumber (phoneNumber p) && negb (isSubmitting p) then
    {| phoneNumber := phoneNumber p; isSubmitting := true;
       completed := completed p ++ [phoneNumber p] |}
  else p.

Inductive Event :=
| Press (k : Key)
| Delete
| Confirm.

(** The keys and the delete button are disabled while the number is
    submitted; the confirm button is then replaced by a spinner, and is
    disabled for a number that is not valid. *)
Definition step (p : Pad) (e : Event) : Pad :=
  match e with
  | Press k =>
      if isSubmitting p then p
      else {| phoneNumber := handleNumberClick (label k) (phoneNumber p);
              isSubmitting := isSubmitting p; completed := completed p |}
  | Delete =>
      if isSubmitting p then p
      else {| phoneNumber := handleDelete (phoneNumber p);
              isSubmitting := isSubmitting p; completed := completed p |}
  | Confirm =>
      if isSubmitting p then p
      else if isValidPhoneNumber (phoneNumber p) then handleConfirm p
      else p
  end.

Definition run (p : Pad) (es : list Event) : Pad := fold_left step es p.

Definition mount : Pad :=
  {| phoneNumber := []; isSubmitting := false; completed := [] |}.

(** The number after the keys [ks] are pressed one after the other. *)
Definition typed (ks : list Key) : jsstring :=
  fold_left (fun p k => handleNumberClick (label k) p) ks [].

(** A string of decimal digits. *)
Definition all_digits (s : jsstring) : bool := forallb is_digit s.

(** The number that shows the characters [d] after the prefix ["010-"]: the
    first four, and once there is a fifth, a hyphen and the next four. *)
Definition grouped (d : jsstring) : jsstring :=
  lit "010-" ++ firstn 4 d
  ++ (if 4 <? length d then lit "-" ++ firstn 4 (skipn 4 d) else []).

(** The characters of the keys [ks]. *)
Definition labels (ks : list Key) : jsstring := flat_map label ks.

Definition template : jsstring := lit "010-XXXX-XXXX".

End NumericPad.

(** ** The checklist before the interview *)

Module PreCheck.

(** The ids of [checkItems]; they are the keys of [checkedItems] and the
    only keys [handleCheck] is called with. *)
Inductive Id := noise | microphone | internet | mindset.

Definition Id_eqb (a b : Id) : bool :=
  match a, b with
  | noise, noise | microphone, microphone
  | internet, internet | mindset, mindset => true
  | _, _ => false
  end.

Definition checkItems : list Id := [noise; microphone; internet; mindset].

(** An object with boolean values: its properties in insertion order. *)
Definition CheckedItems := list (Id * bool).

(** [prev[key]], which is [undefined] for a key the object does not have. *)
Fixpoint get (key : Id) (o : CheckedItems) : option bool :=
  match o with
  | [] => None
  | (k, v) :: o' => if Id_eqb k key then Some v else get key o'
  end.

(** [{ ...prev, [key]: value }]: the value of a key the object has is
    replaced where it stands; a new key comes last. *)
Fixpoint put (key : Id) (value : bool) (o : CheckedItems) : CheckedItems :=
  match o with
  | [] => [(key, value)]
  | (k, v) :: o' =>
      if Id_eqb k key then (k, value) :: o' else (k, v) :: put key value o'
  end.

(** The updater of [handleCheck]; [!undefined] is [true]. *)
Definition handleCheck (key : Id) (prev : CheckedItems) : CheckedItems :=
  put key (negb (match get key prev with Some v => v | None => false end)) prev.

(** [Object.values(checkedItems).every(value => value === true)] *)
Definition allChecked (checkedItems : CheckedItems) : bool :=
  forallb (fun kv => Bool.eqb (snd kv) true) checkedItems.

Record World := {
  checkedItems : CheckedItems;
  completions : nat }.        (* the calls of [onComplete] *)

Definition handleNext (w : World) : World :=
  if allChecked (checkedItems w) then
    {| checkedItems := checkedItems w; completions := S (completions w) |}
  else w.

Inductive Event :=
| Check (key : Id)     (* the checkbox of an item *)
| Next.                (* the button to the next step *)

(** The button is [disabled={!allChecked()}]. *)
Definition step (w : World) (e : Event) : World :=
  match e with
  | Check key =>
      {| checkedItems := handleCheck key (checkedItems w);
         completions := completions w |}
  | Next => if allChecked (checkedItems w) then handleNext w else w
  end.

Definition run (w : World) (es : list Event) : World := fold_left step es w.

Definition mount : World :=
  {| checkedItems := [(noise, false); (microphone, false);
                      (internet, false); (mindset, false)];
     completions := 0 |}.

(** The object with the four keys in the order of the initial state. *)
Definition items (a b c d : bool) : CheckedItems :=
  [(noise, a); (microphone, b); (internet, c); (mindset, d)].

(** How many times the checkbox of [key] is clicked in [es]. *)
Definition checks (key : Id) (es : list Event) : nat :=
  length (filter (fun e => match e with
                           | Check k => Id_eqb k key
                           | Next => false
                           end) es).

End PreCheck.

(** ** The page: the steps of the wizard *)

Module Home.
Import JS.

Record Hooks := {
  currentStep : nat;
  showSuccessModal : bool;
  isLoading : bool }.

(** [responseData]: [null] when [response.json()] rejects. *)
Inductive ResponseData :=
| DataFalsy                          (* [null] or another falsy value *)
| DataValue (success_is_true : bool). (* a truthy value; [success === true]? *)

(** What the registration webhook gives: [fetch] rejects, or a response. *)
Inductive Answer :=
| FetchRejected
| Responded (ok : bool) (responseData : ResponseData).

Inductive Task :=
| TWebhook (number : jsstring)
| TTimer.

Inductive Effect :=
| FetchWebhook (contact : jsstring)
| SetTimeout (ms : nat).

(** The page with the keypad it shows while [currentStep] is 0, the entry
    [aiInterviewCache] of [localStorage], and whether the storage takes a
    write. *)
Record World := {
  hooks : Hooks;
  pad : NumericPad.Pad;
  storage : Interview.Cache;
  writable : bool;
  pending : list Task;
  effects : list Effect }.

Definition upd_hooks (f : Hooks -> Hooks) (w : World) : World :=
  {| hooks := f (hooks w); pad := pad w; storage := storage w;
     writable := writable w; pending := pending w; effects := effects w |}.

Definition setCurrentStep (n : nat) : World -> World :=
  upd_hooks (fun h => {| currentStep := n;
                         showSuccessModal := showSuccessModal h;
                         isLoading := isLoading h |}).

Definition setShowSuccessModal (b : bool) : World -> World :=
  upd_hooks (fun h => {| currentStep := currentStep h;
                         showSuccessModal := b;
                         isLoading := isLoading h |}).

Definition setIsLoading (b : bool) : World -> World :=
  upd_hooks (fun h => {| currentStep := currentStep h;
                         showSuccessModal := showSuccessModal h;
                         isLoading := b |}).

Definition set_pad (p : NumericPad.Pad) (w : World) : World :=
  {| hooks := hooks w; pad := p; storage := storage w;
     writable := writable w; pending := pending w; effects := effects w |}.

Definition set_storage (c : Interview.Cache) (w : World) : World :=
  {| hooks := hooks w; pad := pad w; storage := c;
     writable := writable w; pending := pending w; effects := effects w |}.

Definition set_pending (l : list Task) (w : World) : World :=
  {| hooks := hooks w; pad := pad w; storage := storage w;
     writable := writable w; pending := l; effects := effects w |}.

Definition spawn (t : Task) (w : World) : World :=
  set_pending (pending w ++ [t]) w.

Definition emit (e : Effect) (w : World) : World :=
  {| hooks := hooks w; pad := pad w; storage := storage w;
     writable := writable w; pending := pending w;
     effects := effects w ++ [e] |}.

(** [localStorage.setItem('aiInterviewCache', JSON.stringify({ contact:
    number }))]: what [JSON.parse] gives back from the entry is an object
    whose [contact] is [number].  The call throws when the storage does not
    take the write. *)
Definition localStorage_setItem (number : jsstring) (w : World)
  : Completion World :=
  if writable w
  then Normal (set_storage (Interview.CacheObject (Some number)) w)
  else Abrupt (lit "QuotaExceededError") w.

(** [handlePhoneNumberComplete], up to the request to the webhook. *)
Definition handlePhoneNumberComplete (number : jsstring) (w : World) : World :=
  let w := setIsLoading true w in
  spawn (TWebhook number) (emit (FetchWebhook number) w).

(** Its [catch] block. *)
Definition handlePhoneNumberComplete_catch (w : World) : World :=
  let w := setIsLoading false w in
  setCurrentStep 1 w.

Definition success_is (d : ResponseData) : bool :=
  match d with DataValue true => true | _ => false end.

(** [handlePhoneNumberComplete], from the answer of the webhook on. *)
Definition handlePhoneNumberComplete_fetched
    (number : jsstring) (a : Answer) (w : World) : World :=
  match a with
  | FetchRejected => handlePhoneNumberComplete_catch w
  | Responded ok responseData =>
      if ok then
        match localStorage_setItem number w with
        | Abrupt _ w => handlePhoneNumberComplete_catch w
        | Normal w =>
            if success_is responseData then
              let w := setShowSuccessModal true w in
              spawn TTimer (emit (SetTimeout 3000) w)
            else
              let w := setShowSuccessModal true w in
              spawn TTimer (emit (SetTimeout 3000) w)
        end
      else
        let w := setIsLoading false w in
        setCurrentStep 1 w
  end.

(** The callback of the timer. *)
Definition handlePhoneNumberComplete_timer (w : World) : World :=
  let w := setShowSuccessModal false w in
  setCurrentStep 1 w.

Definition handleMicTestComplete : World -> World := setCurrentStep 2.
Definition handlePreCheckComplete : World -> World := setCurrentStep 3.
Definition handleInterviewComplete : World -> World := setCurrentStep 4.

(** The overlay with the spinner. *)
Definition spinner_shown (h : Hooks) : bool :=
  isLoading h && (currentStep h =? 0).

(** *** Events *)

(** The events of the keypad reach it while it is on the page.  The
    microphone test and the checklist call back from a click, which they
    receive while they are on the page; the interview calls back when its
    delivery has settled, which a second delivery may do after the page
    has moved on. *)
Inductive Event :=
| Pad (e : NumericPad.Event)
| Webhook (i : nat) (a : Answer)
| Timer (i : nat)
| MicTestComplete
| PreCheckComplete
| InterviewComplete.

Definition resume (i : nat) (w : World) : option (Task * World) :=
  match nth_error (pending w) i with
  | Some t => Some (t, set_pending (remove_at i (pending w)) w)
  | None => None
  end.

(** The numbers [onComplete] was called with between two states of the
    keypad. *)
Definition calls (p p' : NumericPad.Pad) : list jsstring :=
  skipn (length (NumericPad.completed p)) (NumericPad.completed p').

Definition step (w : World) (e : Event) : World :=
  match e with
  | Pad e =>
      if currentStep (hooks w) =? 0 then
        let p' := NumericPad.step (pad w) e in
        fold_left (fun w number => handlePhoneNumberComplete number w)
                  (calls (pad w) p') (set_pad p' w)
      else w
  | Webhook i a =>
      match resume i w with
      | Some (TWebhook number, w') =>
          handlePhoneNumberComplete_fetched number a w'
      | _ => w
      end
  | Timer i =>
      match resume i w with
      | Some (TTimer, w') => handlePhoneNumberComplete_timer w'
      | _ => w
      end
  | MicTestComplete =>
      if currentStep (hooks w) =? 1 then handleMicTestComplete w else w
  | PreCheckComplete =>
      if currentStep (hooks w) =? 2 then handlePreCheckComplete w else w
  | InterviewComplete =>
      if 3 <=? currentStep (hooks w) then handleInterviewComplete w else w
  end.

Definition run (w : World) (es : list Event) : World := fold_left step es w.

Definition mount (c : Interview.Cache) (writable : bool) : World :=
  {| hooks := {| currentStep := 0; showSuccessModal := false;
                 isLoading := false |};
     pad := NumericPad.mount; storage := c; writable := writable;
     pending := []; effects := [] |}.

(** *** What holds on the page throughout *)

(** The page mounted with the cache [c]: the step is one of the five; a
    request or a timer is under way only at step 0, one at a time, and
    with the keypad locked; the number of a request is one the keypad
    accepts and was sent to the webhook; the cache is the one at the start
    or a number sent to the webhook. *)
Definition sound (c : Interview.Cache) (wr : bool) (w : World) : Prop :=
  currentStep (hooks w) <= 4
  /\ writable w = wr
  /\ (pending w = []
      \/ exists t, pending w = [t] /\ currentStep (hooks w) = 0
                   /\ NumericPad.isSubmitting (pad w) = true)
  /\ (forall n, In (TWebhook n) (pending w) ->
                NumericPad.isValidPhoneNumber n = true
                /\ In (FetchWebhook n) (effects w))
  /\ (storage w = c
      \/ exists p, storage w = Interview.CacheObject (Some p)
                   /\ NumericPad.isValidPhoneNumber p = true
                   /\ wr = true
                   /\ In (FetchWebhook p) (effects w)).

(** [response.ok] *)
Definition accepted (a : Answer) : bool :=
  match a with Responded true _ => true | _ => false end.

(** The presses of the keys [ks] on the keypad of the page. *)
Definition presses (ks : list NumericPad.Key) : list Event :=
  map (fun k => Pad (NumericPad.Press k)) ks.

End Home.

(** ** The contact number as the delivery of the interview writes it *)

(** The digits [d] in groups of [n] and [m] and the rest. *)
Definition hyphenated (n m : nat) (d : JS.jsstring) : JS.jsstring :=
  JS.substr d 0 n ++ JS.lit "-" ++ JS.substr d n m ++ JS.lit "-"
  ++ JS.substr_from d (n + m).

(** ** The routes of the server *)

Module Route.

(** A value that was thrown: an [Error] with its message, or something
    else. *)
Inductive Thrown :=
| ErrorObject (message : jsstring)
| OtherValue.

(** [error instanceof Error ? error.message : fallback] *)
Definition message_or (e : Thrown) (fallback : jsstring) : jsstring :=
  match e with
  | ErrorObject message => message
  | OtherValue => fallback
  end.

(** How an awaited call ends. *)
Inductive Awaited (A : Type) :=
| Resolves (a : A)
| Rejects (e : Thrown).
Arguments Resolves {A} a.
Arguments Rejects {A} e.

(** [response.ok] *)
Definition ok (status : nat) : bool := (200 <=? status) && (status <=? 299).

(** The messages of the errors the runtime raises itself; their text is the
    runtime's. *)
Record Runtime := {
  type_error : jsstring;     (* a property of [null] is read, or a body is
                                given with a status that allows none *)
  range_error : jsstring }.  (* a status outside 200..599 *)

Definition null_body_status (status : nat) : bool :=
  (status =? 101) || (status =? 103) || (status =? 204) || (status =? 205)
  || (status =? 304).

(** [NextResponse.json(body, { status })] builds a [Response], which throws
    for a status outside 200..599 and for a status that allows no body. *)
Definition response_init (rt : Runtime) (status : nat) : option Thrown :=
  if (status <? 200) || (599 <? status) then Some (ErrorObject (range_error rt))
  else if null_body_status status then Some (ErrorObject (type_error rt))
  else None.

End Route.

(** *** The transcription route *)

Module WhisperRoute.
Import Route.

(** The parsed body of the answer of the transcription service. *)
Inductive Data :=
| DataNull
| DataObject (text : option jsstring) (error_message : option jsstring).
    (* [data.text] and [data.error?.message] *)

Inductive Upstream :=
| FetchRejects (e : Thrown)
| Responds (status : nat) (json : Awaited Data).

Record Env := {
  apiKey : option jsstring;       (* [process.env.OPENAI_API_KEY] *)
  formData : option Thrown;       (* [Some e]: [request.formData()] rejects *)
  upstream : Upstream;
  runtime : Runtime }.

Inductive Body :=
| Passed (data : Data)
| Failure (error : jsstring).

Record Reply := { status : nat; body : Body }.

Definition catch (e : Thrown) : Reply :=
  {| status := 500;
     body := Failure (message_or e (lit "서버 오류가 발생했습니다.")) |}.

Definition POST (env : Env) : Reply :=
  if negb (truthy_opt (apiKey env)) then
    {| status := 500;
       body := Failure (lit "OpenAI API 키가 설정되지 않았습니다.") |}
  else
    match formData env with
    | Some e => catch e
    | None =>
    match upstream env with
    | FetchRejects e => catch e
    | Responds _ (Rejects e) => catch e
    | Responds response_status (Resolves data) =>
        if ok response_status then {| status := 200; body := Passed data |}
        else
          match data with
          | DataNull => catch (ErrorObject (type_error (runtime env)))
          | DataObject _ error_message =>
              let error :=
                opt_or_else error_message (lit "음성 변환에 실패했습니다.") in
              match response_init (runtime env) response_status with
              | Some e => catch e
              | None => {| status := response_status; body := Failure error |}
              end
          end
    end end.

(** The reply as the interview reads it: [response.ok] and [data.text];
    reading a property of [null] throws into the [catch] a rejection
    reaches. *)
Definition seen_by_interview (r : Reply) : Fetched :=
  match body r with
  | Passed DataNull => Rejected
  | Passed (DataObject text _) => Response (ok (status r)) text
  | Failure _ => Response (ok (status r)) None
  end.

(** The reply as the microphone test reads it: the body is parsed only
    after [response.ok] was found true. *)
Definition seen_by_micTest (rt : Runtime) (r : Reply) : MicTest.Transcribed :=
  if ok (status r) then
    match body r with
    | Passed DataNull =>
        MicTest.BadJson (MicTest.ErrorObject (lit "TypeError") (type_error rt))
    | Passed (DataObject text _) => MicTest.Parsed text
    | Failure _ => MicTest.Parsed None
    end
  else MicTest.NotOk.

End WhisperRoute.

(** *** The speech route *)

Module SpeechRoute.
Import Route.

(** The body of the request: [request.json()] rejects, or gives [null], or
    a value whose [text] is read. *)
Inductive Request :=
| JsonRejects (e : Thrown)
| JsonNull
| JsonValue (text : option jsstring).

Record Env := {
  request : Request;
  speech : jsstring -> Awaited (list Byte.byte);
    (* [openai.audio.speech.create] and [arrayBuffer()] for an input *)
  runtime : Runtime }.

Inductive Body :=
| Audio (audio : jsstring)
| Failure (error : jsstring).

Record Reply := { status : nat; body : Body }.

(** The base64 alphabet. *)
Definition alphabet : jsstring :=
  lit "ABCDEFGHIJKLMNOPQRSTUVWXYZabcdefghijklmnopqrstuvwxyz0123456789+/".

Definition digit64 (i : N) : N := nth (N.to_nat i) alphabet 0%N.

(** [Buffer.from(bytes).toString('base64')]: three bytes give four digits,
    and the last one or two bytes give two or three digits and the padding. *)
Fixpoint base64 (bytes : list Byte.byte) : jsstring :=
  match bytes with
  | [] => []
  | [a] =>
      let a := Byte.to_N a in
      [digit64 (a / 4); digit64 (a mod 4 * 16); 61; 61]%N
  | [a; b] =>
      let a := Byte.to_N a in
      let b := Byte.to_N b in
      [digit64 (a / 4); digit64 (a mod 4 * 16 + b / 16);
       digit64 (b mod 16 * 4); 61]%N
  | a :: b :: c :: rest =>
      let a := Byte.to_N a in
      let b := Byte.to_N b in
      let c := Byte.to_N c in
      [digit64 (a / 4); digit64 (a mod 4 * 16 + b / 16);
       digit64 (b mod 16 * 4 + c / 64); digit64 (c mod 64)]%N
      ++ base64 rest
  end.

Definition catch (e : Thrown) : Reply :=
  {| status := 500;
     body := Failure (message_or e (lit "음성 변환에 실패했습니다.")) |}.

Definition POST (env : Env) : Reply :=
  match request env with
  | JsonRejects e => catch e
  | JsonNull => catch (ErrorObject (type_error (runtime env)))
  | JsonValue text =>
      if negb (truthy_opt text) then
        {| status := 400; body := Failure (lit "변환할 텍스트가 필요합니다.") |}
      else
        match speech env (opt_or_else text []) with
        | Rejects e => catch e
        | Resolves audioBuffer =>
            let base64Audio := base64 audioBuffer in
            {| status := 200; body := Audio base64Audio |}
        end
  end.

(** The reply as the interview reads it: [response.ok] and [data.audio]. *)
Definition seen_by_interview (r : Reply) : Fetched :=
  Response (ok (status r))
           (match body r with Audio audio => Some audio | Failure _ => None end).

End SpeechRoute.

(** *** The assistant route: the dispatch *)

Module AssistantPOST.
Import Route AssistantRoute.

Inductive Request :=
| JsonRejects (e : Thrown)
| JsonNull
| JsonValue (action threadId message : option jsstring).

Record Env := {
  request : Request;
  threads_create : Awaited jsstring;   (* [openai.beta.threads.create()] *)
  remote : Remote;
  runtime : Runtime }.

(** How the promise of [POST] settles: with the reply of
    [handleSendMessage] or one of its own, with the id of a new thread, or
    with the rejection of a promise it returned without awaiting it. *)
Inductive Outcome :=
| Replies (r : Reply)
| Creates (threadId : jsstring)
| Escapes (e : Thrown).

Definition handleCreateThread (env : Env) : Outcome :=
  match threads_create env with
  | Resolves id => Creates id
  | Rejects e => Escapes e
  end.

Definition catch (e : Thrown) : Outcome :=
  Replies {| status := 500;
             body := Failure (message_or e (lit "서버 오류가 발생했습니다.")) |}.

(** An argument that is [undefined] fails the same tests as the empty
    string. *)
Definition argument (o : option jsstring) : jsstring :=
  match o with Some s => s | None => [] end.

Definition is_action (action : option jsstring) (name : jsstring) : bool :=
  match action with Some a => eqb a name | None => false end.

Definition POST (env : Env) : Outcome :=
  match request env with
  | JsonRejects e => catch e
  | JsonNull => catch (ErrorObject (type_error (runtime env)))
  | JsonValue action threadId message =>
      if is_action action (lit "createThread") then handleCreateThread env
      else if is_action action (lit "sendMessage") then
        Replies (handleSendMessage (argument threadId) (argument message)
                                   (remote env))
      else
        Replies {| status := 400;
                   body := Failure (lit "유효하지 않은 액션입니다.") |}
  end.

(** The reply to a message as the interview reads it: [response.ok] and
    [data.message]. *)
Definition seen_by_interview (r : Reply) : Fetched :=
  Response (AssistantRoute.ok r)
           (match body r with
            | Answer message _ => Some message
            | Failure _ => None
            end).

(** The first text of the latest message of the assistant, or the apology
    when there is no such message or it begins with something else. *)
Definition answered (data : list Message) (message : jsstring) : Prop :=
  match filter (fun msg => eqb (role msg) (lit "assistant")) data with
  | [] => message = no_answer_message
  | latestMessage :: _ =>
      match content latestMessage with
      | TextContent value :: _ => message = value
      | _ => message = no_answer_message
      end
  end.

End AssistantPOST.

(** * Properties *)

(** ** JavaScript strings *)

Module JSFacts.

Lemma eqb_eq (a b : jsstring) : eqb a b = true <-> a = b.
Proof.
  unfold eqb. destruct (list_eq_dec N.eq_dec a b) as [E|E]; split; intro H;
    try reflexivity; try assumption; try discriminate. now elim E.
Qed.

Lemma trim_start_head (s r : jsstring) (c : N) :
  trim_start s = c :: r -> is_white_space c = false.
Proof.
  induction s as [|x s IH]; cbn [trim_start]; [discriminate|].
  destruct (is_white_space x) eqn:E; [exact IH|].
  intro H. injection H as <- _. exact E.
Qed.

Lemma trim_start_nil (s : jsstring) :
  trim_start s = [] <-> white_space_only s.
Proof.
  unfold white_space_only. induction s as [|x s IH]; cbn [trim_start].
  - split; [intros _ c []|reflexivity].
  - destruct (is_white_space x) eqn:E.
    + rewrite IH. split.
      * intros H c [<-|Hc]; [exact E|now apply H].
      * intros H c Hc. apply H. now right.
    + split; [discriminate|]. intro H.
      rewrite (H x (or_introl eq_refl)) in E. discriminate.
Qed.

(** A string trims to the empty string exactly when it is made of white
    space only (the empty string included). *)
Lemma trim_nil (s : jsstring) : trim s = [] <-> white_space_only s.
Proof.
  unfold trim. split.
  - intro H. apply trim_start_nil.
    destruct (trim_start s) as [|c r] eqn:E; [reflexivity|].
    assert (Hr : trim_start (rev (c :: r)) = []).
    { destruct (trim_start (rev (c :: r))); [reflexivity|].
      apply (f_equal (@length N)) in H. rewrite length_rev in H. discriminate. }
    apply trim_start_nil in Hr.
    pose proof (trim_start_head s r c E) as Hc.
    rewrite (Hr c) in Hc; [discriminate|].
    apply -> in_rev. now left.
  - intro H. apply trim_start_nil in H. now rewrite H.
Qed.

End JSFacts.

(** ** The assistant route *)

Module RouteFacts.
Import AssistantRoute JSFacts.

Lemma retrievals_app (a b : list Action) :
  retrievals (a ++ b) = retrievals a + retrievals b.
Proof. unfold retrievals. now rewrite filter_app, length_app. Qed.

Lemma waited_app (a b : list Action) : waited (a ++ b) = waited a + waited b.
Proof.
  induction a as [|[n|ms] a IH]; simpl; auto. rewrite IH. lia.
Qed.

Lemma rounds_S (i k : nat) :
  rounds i (S k) = Retrieve i :: Sleep 1000 :: rounds (S i) k.
Proof. reflexivity. Qed.

Lemma retrievals_rounds (i k : nat) : retrievals (rounds i k) = k.
Proof.
  revert i. induction k as [|k IH]; intro i; [reflexivity|].
  rewrite rounds_S. specialize (IH (S i)). unfold retrievals in *. simpl. now rewrite IH.
Qed.

Lemma waited_rounds (i k : nat) : waited (rounds i k) = 1000 * k.
Proof.
  revert i. induction k as [|k IH]; intro i; [reflexivity|].
  rewrite rounds_S. change (waited (Retrieve i :: Sleep 1000 :: rounds (S i) k))
    with (1000 + waited (rounds (S i) k)). rewrite IH. lia.
Qed.

(** While the run is in progress the loop goes round. *)
Lemma poll_loop_rounds (poll : nat -> Retrieved) :
  forall k i left,
    (forall j, j < k -> in_progress (poll (i + j)) = true) ->
    poll_loop poll i (k + left) =
    (fst (poll_loop poll (i + k) left),
     rounds i k ++ snd (poll_loop poll (i + k) left)).
Proof.
  induction k as [|k IH]; intros i left H.
  - rewrite Nat.add_0_r. simpl. now destruct (poll_loop poll i left).
  - change (S k + left) with (S (k + left)). cbn [poll_loop].
    pose proof (H 0 ltac:(lia)) as H0. rewrite Nat.add_0_r in H0.
    destruct (poll i) as [m|status]; [discriminate|].
    cbn [in_progress] in H0. apply andb_prop in H0 as [Hc Ht].
    apply negb_true_iff in Hc, Ht. rewrite Hc, Ht.
    rewrite (IH (S i) left).
    + rewrite rounds_S. replace (S i + k) with (i + S k) by lia. reflexivity.
    + intros j Hj. replace (S i + j) with (i + S j) by lia. apply H. lia.
Qed.

Lemma terminated_not_completed (status : jsstring) :
  includes terminated status = true -> eqb status (lit "completed") = false.
Proof.
  unfold includes, terminated. cbn [existsb]. intro H.
  destruct (eqb status (lit "completed")) eqn:E; [|reflexivity].
  apply eqb_eq in E. subst status. vm_compute in H. discriminate.
Qed.

Lemma poll_loop_bounded (poll : nat -> Retrieved) :
  forall left i,
    retrievals (snd (poll_loop poll i left)) <= left
    /\ waited (snd (poll_loop poll i left)) <= 1000 * left.
Proof.
  induction left as [|left IH]; intro i; cbn [poll_loop].
  - cbn. split; lia.
  - destruct (poll i) as [m|status].
    + cbn. split; lia.
    + destruct (eqb status (lit "completed")); [cbn; split; lia|].
      destruct (includes terminated status); [cbn; split; lia|].
      specialize (IH (S i)). destruct (poll_loop poll (S i) left) as [r acts].
      cbn [snd] in *.
      change (retrievals (Retrieve i :: Sleep 1000 :: acts)) with (S (retrievals acts)).
      change (waited (Retrieve i :: Sleep 1000 :: acts)) with (1000 + waited acts).
      lia.
Qed.

(** A wait that fails makes the route answer with a status that is not 2xx. *)
Lemma handleSendMessage_wait_fails (threadId message : jsstring) (remote : Remote)
    (m : jsstring) :
  fst (waitForRunCompletion (runs_retrieve remote) maxAttempts_default) = Throws m ->
  ok (handleSendMessage threadId message remote) = false.
Proof.
  intro H. unfold handleSendMessage.
  destruct (truthy threadId); [|reflexivity].
  destruct (truthy message); [|reflexivity]. cbn [negb].
  destruct (messages_create remote); [reflexivity|].
  destruct (runs_create remote); [reflexivity|].
  rewrite H. reflexivity.
Qed.

(** C6.  [waitForRunCompletion] polls the remote run at most 60 times and
    waits one second after every attempt that finds the run in progress: in
    all it retrieves at most 60 times and waits at most 60 seconds.  It
    returns the run at the first attempt that finds it completed, throws at
    the first attempt that finds it failed, cancelled or expired, and throws
    the time-out error when 60 attempts have found it in progress; a wait
    that throws makes the route answer with a failure status. *)
Theorem waitForRunCompletion_bounded_polling :
  forall poll : nat -> Retrieved,
    let outcome := waitForRunCompletion poll maxAttempts_default in
    retrievals (snd outcome) <= 60
    /\ waited (snd outcome) <= 60 * 1000
    /\ (forall k status,
          k < 60 ->
          (forall j, j < k -> in_progress (poll j) = true) ->
          poll k = Run status ->
          (eqb status (lit "completed") = true ->
           outcome = (Returns status, rounds 0 k ++ [Retrieve k]))
          /\ (includes terminated status = true ->
              outcome = (Throws (ended_message status),
                         rounds 0 k ++ [Retrieve k])))
    /\ ((forall j, j < 60 -> in_progress (poll j) = true) ->
        outcome = (Throws timeout_message, rounds 0 60))
    /\ (forall threadId message remote m,
          runs_retrieve remote = poll ->
          fst outcome = Throws m ->
          ok (handleSendMessage threadId message remote) = false).
Proof.
  intros poll outcome. subst outcome.
  unfold waitForRunCompletion, maxAttempts_default.
  pose proof (poll_loop_bounded poll 60 0) as [Hr Hw].
  split; [exact Hr|]. split; [lia|]. split; [|split].
  - intros k status Hk Hprog Hpoll.
    replace 60 with (k + S (59 - k)) by lia.
    rewrite (poll_loop_rounds poll k 0 (S (59 - k))) by exact Hprog.
    cbn [Nat.add poll_loop]. rewrite Hpoll. split; intro H.
    + rewrite H. reflexivity.
    + rewrite (terminated_not_completed status H), H. reflexivity.
  - intro Hprog.
    change 60 with (60 + 0) at 1.
    rewrite (poll_loop_rounds poll 60 0 0) by exact Hprog.
    cbn [poll_loop fst snd]. now rewrite app_nil_r.
  - intros threadId message remote m Hremote Hthrows.
    apply handleSendMessage_wait_fails with (m := m).
    rewrite Hremote. exact Hthrows.
Qed.

Lemma waitForRunCompletion_bounded_polling_witness :
  waitForRunCompletion completes_third maxAttempts_default
    = (Returns (lit "completed"), rounds 0 2 ++ [Retrieve 2])
  /\ waitForRunCompletion fails_second maxAttempts_default
    = (Throws (ended_message (lit "failed")), rounds 0 1 ++ [Retrieve 1])
  /\ waitForRunCompletion never_ends maxAttempts_default
    = (Throws timeout_message, rounds 0 60)
  /\ ok (handleSendMessage (lit "thread_1") (lit "hello")
           {| messages_create := None; runs_create := None;
              runs_retrieve := never_ends; messages_list := Returns [] |})
     = false.
Proof.
  split; [|split; [|split]].
  - refine (proj1 (proj1 (proj2 (proj2 (waitForRunCompletion_bounded_polling
              completes_third))) 2 (lit "completed") _ _ _) _).
    + lia.
    + intros j Hj. destruct j as [|[|j]]; [reflexivity|reflexivity|lia].
    + reflexivity.
    + reflexivity.
  - refine (proj2 (proj1 (proj2 (proj2 (waitForRunCompletion_bounded_polling
              fails_second))) 1 (lit "failed") _ _ _) _).
    + lia.
    + intros j Hj. destruct j as [|j]; [reflexivity|lia].
    + reflexivity.
    + reflexivity.
  - refine (proj1 (proj2 (proj2 (proj2 (waitForRunCompletion_bounded_polling
              never_ends)))) _).
    intros j Hj. reflexivity.
  - refine (proj2 (proj2 (proj2 (proj2 (waitForRunCompletion_bounded_polling
              never_ends)))) _ _ _ timeout_message _ _).
    + reflexivity.
    + vm_compute. reflexivity.
Defined.

End RouteFacts.

(** ** The interview component: the transcript *)

Module TranscriptFacts.
Import Interview.

Lemma or_else_nil (a : jsstring) : or_else a [] = a.
Proof. now destruct a. Qed.

(** The loop adds the segments of the turns it has still to visit, with the
    separator between two of them. *)
Lemma forEach_qa_join :
  forall rest total index acc,
    index + length rest = total ->
    forEach_qa total index rest acc = acc ++ join separator (map segment rest).
Proof.
  induction rest as [|qa rest IH]; intros total index acc Hlen.
  - simpl. now rewrite app_nil_r.
  - cbn [forEach_qa]. rewrite or_else_nil. fold (segment qa).
    destruct rest as [|qa' rest].
    + cbn [length] in Hlen.
      replace (index <? total - 1) with false
        by (symmetry; apply Nat.ltb_ge; lia).
      reflexivity.
    + cbn [length] in Hlen.
      replace (index <? total - 1) with true
        by (symmetry; apply Nat.ltb_lt; lia).
      rewrite IH by (cbn [length]; lia).
      change (join separator (map segment (qa :: qa' :: rest)))
        with (segment qa ++ separator ++ join separator (map segment (qa' :: rest))).
      unfold separator. now rewrite <- !app_assoc.
Qed.

Lemma interviewContent_cons (qa : QA) (logs : list QA) :
  interviewContent (qa :: logs) = join separator (map segment (qa :: logs)).
Proof.
  unfold interviewContent. cbn [length Nat.eqb].
  now rewrite forEach_qa_join with (total := S (length logs)).
Qed.

(** C3.  The transcript of a log that is not empty is the segments of its
    turns, one per turn and in the order of the log, joined by the
    separator [", "]: a separator stands between two segments and none after
    the last.  (The empty log gives the fixed text that says there is no
    record.) *)
Theorem interviewContent_joins_segments :
  forall logs : list QA,
    interviewContent logs =
    match logs with
    | [] => no_record
    | _ :: _ => join separator (map segment logs)
    end
    /\ length (map segment logs) = length logs.
Proof.
  intro logs. split; [|apply length_map].
  destruct logs as [|qa logs]; [reflexivity|].
  apply interviewContent_cons.
Qed.


End TranscriptFacts.

(** ** The interview component: what the functions leave untouched *)

Module InterviewFrame.
Import Interview.

Lemma spawn_all (l : list nat) :
  forall w,
    fold_left (fun w rid => spawn (TRecorderStop rid) w) l w
    = set_pending (pending w ++ map TRecorderStop l) w.
Proof.
  induction l as [|rid l IH]; intro w.
  - destruct w. unfold set_pending. cbn. now rewrite app_nil_r.
  - cbn [fold_left map]. rewrite IH. destruct w. unfold spawn, set_pending.
    cbn. now rewrite <- app_assoc.
Qed.

Lemma same_surface_refl w : same_surface w w.
Proof. repeat split. Qed.

Lemma same_surface_trans w1 w2 w3 :
  same_surface w1 w2 -> same_surface w2 w3 -> same_surface w1 w3.
Proof.
  unfold same_surface. intros (?&?&?&?&?&?) (?&?&?&?&?&?).
  repeat split; congruence.
Qed.

Lemma stop_tracks_surface s w : same_surface w (stop_tracks s w).
Proof. unfold stop_tracks. rewrite spawn_all. repeat split. Qed.

Lemma cancel_frame_surface w : same_surface w (cancel_frame w).
Proof.
  unfold cancel_frame. destruct (animationFrameRef (refs w)) as [id|];
    [destruct (negb (id =? 0))|]; repeat split.
Qed.

Lemma end_stream_surface w : same_surface w (end_stream w).
Proof.
  unfold end_stream. destruct (streamRef (refs w));
    [apply stop_tracks_surface|apply same_surface_refl].
Qed.

Lemma close_context_surface w : same_surface w (close_context w).
Proof.
  unfold close_context. destruct (audioContextRef (refs w)) as [c|];
    [destruct (context_open c w)|]; repeat split.
Qed.

Lemma cleanupAudio_surface w : same_surface w (cleanupAudio w).
Proof.
  unfold cleanupAudio.
  eapply same_surface_trans; [apply cancel_frame_surface|].
  eapply same_surface_trans; [apply end_stream_surface|].
  apply close_context_surface.
Qed.

Lemma drop_frame_surface w : same_surface w (drop_frame w).
Proof.
  unfold drop_frame. destruct (animationFrameRef (refs w)) as [id|];
    [destruct (negb (id =? 0))|]; repeat split.
Qed.

Lemma drop_stream_surface w : same_surface w (drop_stream w).
Proof.
  unfold drop_stream. destruct (streamRef (refs w)) as [s|];
    [|apply same_surface_refl].
  pose proof (stop_tracks_surface s w) as (?&?&?&?&?&?).
  repeat split; cbn; assumption.
Qed.

(** [stop()] is only called on a recorder that records. *)
Lemma stop_recorder_normal w :
  exists w', stop_recorder w = Normal w' /\ same_surface w w'.
Proof.
  unfold stop_recorder.
  destruct (mediaRecorderRef (refs w)) as [rid|];
    [|exists w; split; [reflexivity|apply same_surface_refl]].
  destruct (nth_error (recorders (browser w)) rid) as [r|] eqn:E;
    [|exists w; split; [reflexivity|apply same_surface_refl]].
  destruct (is_recording r) eqn:R;
    [|exists w; split; [reflexivity|apply same_surface_refl]].
  unfold MediaRecorder_stop. rewrite E, R.
  eexists. split; [reflexivity|]. repeat split.
Qed.

(** [stopRecording] never ends by an exception. *)
Lemma stopRecording_normal w :
  exists w', stopRecording w = Normal w' /\ same_surface w w'.
Proof.
  unfold stopRecording.
  destruct (stop_recorder_normal w) as (w1 & E & H1). rewrite E. cbn [and_then].
  eexists. split; [reflexivity|].
  eapply same_surface_trans; [exact H1|].
  eapply same_surface_trans; [apply drop_frame_surface|apply drop_stream_surface].
Qed.

Lemma effect_cleanup_surface w : same_surface w (effect_cleanup w).
Proof.
  unfold effect_cleanup. destruct (stopRecording_normal w) as (w' & E & H).
  rewrite E. cbn [world_of].
  eapply same_surface_trans; [exact H|apply cleanupAudio_surface].
Qed.

Lemma run_cleanup_surface w : same_surface w (run_cleanup w).
Proof.
  unfold run_cleanup. destruct (cleanup w);
    [apply effect_cleanup_surface|apply same_surface_refl].
Qed.

End InterviewFrame.

(** ** The interview component: transcription, playback, delivery *)

Module InterviewFacts.
Import Interview InterviewFrame TranscriptFacts.

Lemma returned_aiState b w : aiState (hooks (returned b w)) = aiState (hooks w).
Proof. now destruct b. Qed.

Lemma returned_effects b w : effects (returned b w) = effects w.
Proof. now destruct b. Qed.

Lemma returned_pending b w : pending (returned b w) = pending w.
Proof. now destruct b. Qed.

Lemma returned_logs b w : qaLogs (hooks (returned b w)) = qaLogs (hooks w).
Proof. now destruct b. Qed.

Lemma update_at_last {A : Type} (f : A -> A) (before : list A) (x : A) :
  update_at (length (before ++ [x]) - 1) f (before ++ [x]) = before ++ [f x].
Proof.
  rewrite length_app. cbn [length]. replace (length before + 1 - 1) with (length before) by lia.
  induction before as [|b before IH]; [reflexivity|].
  cbn [length app update_at]. now rewrite IH.
Qed.

(** The answer goes to the last turn of the log, the open one. *)
Lemma answer_last_open (text : jsstring) (d : Q) (before : list QA) (lastQA : QA) :
  answer_last text d (before ++ [lastQA])
  = before ++ [{| q := q lastQA; aText := text; durationSec := d |}].
Proof.
  unfold answer_last.
  replace (0 <? length (before ++ [lastQA])) with true
    by (symmetry; apply Nat.ltb_lt; rewrite length_app; cbn; lia).
  exact (update_at_last _ before lastQA).
Qed.

(** C1, as the code has it.  A transcription that succeeds with a text that
    is not empty (a text of white space included) writes that text unchanged,
    with the duration of the recording, as the answer of the last turn of
    the log when the log has one, and leaves an empty log empty; it sets no
    error message and sets a timer of one second.  What the callback of the
    timer does is decided by the render that started the recording: with a
    thread and an [aiState] other than 1 it asks for the next question with
    that text on that thread; with a thread and [aiState] 1 it does nothing;
    without a thread it sets the error message of an invalid session and
    asks for nothing.  A transcription that succeeds with the empty text is
    handled as a failure: nothing is written to the log, the error message
    is set and no timer is set. *)
Theorem processAudioToText_records_usable_text :
  forall (snap : Hooks) (d : Q) (text : jsstring) (w : World),
    text <> [] ->
    let w' := processAudioToText_fetched snap d (Response true (Some text)) w in
    qaLogs (hooks w') = answer_last text d (qaLogs (hooks w))
    /\ (forall before lastQA,
          qaLogs (hooks w) = before ++ [lastQA] ->
          qaLogs (hooks w')
          = before ++ [{| q := q lastQA; aText := text; durationSec := d |}])
    /\ (qaLogs (hooks w) = [] -> qaLogs (hooks w') = [])
    /\ pending w' = pending w ++ [TTimer snap text]
    /\ effects w' = effects w ++ [SetTimeout 1000]
    /\ errorMessage (hooks w') = errorMessage (hooks w)
    /\ (forall w2,
          truthy (threadId snap) = true -> aiState snap <> 1 ->
          let w3 := processAudioToText_timer snap text w2 in
          effects w3 = effects w2 ++ [FetchSendMessage (threadId snap) text]
          /\ aiState (hooks w3) = 1)
    /\ (forall w2,
          truthy (threadId snap) = true -> aiState snap = 1 ->
          processAudioToText_timer snap text w2 = w2)
    /\ (forall w2,
          truthy (threadId snap) = false ->
          processAudioToText_timer snap text w2
          = setErrorMessage session_invalid w2)
    /\ processAudioToText_fetched snap d (Response true (Some [])) w
       = setIsProcessing false (setErrorMessage recognition_failed w).
Proof.
  intros snap d text w Htext w'. subst w'.
  destruct text as [|c text]; [now elim Htext|].
  assert (E : qaLogs (hooks (processAudioToText_fetched snap d
                 (Response true (Some (c :: text))) w))
              = answer_last (c :: text) d (qaLogs (hooks w))) by reflexivity.
  split; [exact E|].
  split; [|split; [|split; [|split; [|split; [|split; [|split; [|split]]]]]]].
  - intros before lastQA Hlogs. etransitivity; [exact E|].
    rewrite Hlogs. apply answer_last_open.
  - intro Hlogs. etransitivity; [exact E|]. now rewrite Hlogs.
  - reflexivity.
  - reflexivity.
  - reflexivity.
  - intros w2 Hthread Hai w3. subst w3. unfold processAudioToText_timer.
    rewrite Hthread. unfold startNextQuestion.
    destruct (aiState snap =? 1) eqn:G; [apply Nat.eqb_eq in G; now elim Hai|].
    split; reflexivity.
  - intros w2 Hthread Hai. unfold processAudioToText_timer.
    rewrite Hthread. unfold startNextQuestion. now rewrite Hai.
  - intros w2 Hthread. unfold processAudioToText_timer. now rewrite Hthread.
  - reflexivity.
Qed.

(** The text of a single space, at the first answer of the sample session. *)
Lemma processAudioToText_records_usable_text_witness :
  let w := run (mount CacheAbsent) first_answer_recorded in
  let w' := processAudioToText_fetched first_answer_render (2500 # 1000)
              (Response true (Some (lit " "))) w in
  qaLogs (hooks w')
  = [{| q := sample_question; aText := lit " "; durationSec := 2500 # 1000 |}]
  /\ effects (processAudioToText_timer first_answer_render (lit " ") w')
     = effects w' ++ [FetchSendMessage (lit "thread_1") (lit " ")].
Proof.
  intros w w'.
  pose proof (processAudioToText_records_usable_text first_answer_render
                (2500 # 1000) (lit " ") w ltac:(discriminate)) as H.
  cbv zeta in H. destruct H as (_ & Hlast & _ & _ & _ & _ & Htimer & _).
  split.
  - apply (Hlast [] (new_question sample_question)). reflexivity.
  - apply (Htimer w'); [reflexivity|discriminate].
Defined.

(** The creation of the thread fails, and the user records an answer all the
    same: the record button is enabled.  The text ["hello"] comes back from
    the transcription: the log is empty and stays empty, and when the timer
    fires the error message of an invalid session is set and no question is
    asked for. *)
Lemma usable_text_without_a_thread :
  let w := run (mount CacheAbsent) recorded_without_thread in
  let w' := step w (Fetch 0 (answered "hello")) in
  let w'' := step w' (Timeout 0) in
  pending w = [TWhisper no_thread_render (2500 # 1000)]
  /\ qaLogs (hooks w') = []
  /\ pending w' = [TTimer no_thread_render (lit "hello")]
  /\ qaLogs (hooks w'') = []
  /\ errorMessage (hooks w'') = session_invalid
  /\ effects w'' = effects w ++ [SetTimeout 1000]
  /\ pending w'' = [].
Proof. vm_compute. repeat split. Qed.

(** The empty text at the first answer of the sample session: the answer is
    not written (the duration of the turn stays 0), the error message says
    that the recognition failed, nothing is pending and no request has been
    sent: the next question is not asked for. *)
Lemma empty_transcript_is_a_failure :
  let w := run (mount CacheAbsent) first_answer_recorded in
  let w' := step w (Fetch 0 (Response true (Some []))) in
  pending w = [TWhisper first_answer_render (2500 # 1000)]
  /\ qaLogs (hooks w') = [new_question sample_question]
  /\ errorMessage (hooks w') = recognition_failed
  /\ pending w' = []
  /\ effects w' = effects w
  /\ aiState (hooks w') = 2.
Proof. vm_compute. repeat split. Qed.

(** C5.  When the synthesis request fails (the request or the parsing of
    its body rejects, the response is not [ok], it has no audio, or the audio
    does not decode), [playTTS] sets [aiState] to 2 at once, without a call
    of [play()].  When [play()] rejects, [aiState] is set to 2 as well, and on
    the [ended] event of an audio that plays it is set to 2 in the normal
    way. *)
Theorem speech_failure_leads_to_awaiting_answer :
  forall (fromInit : bool) (w : World),
    (forall r,
       playable r = None ->
       let w' := playTTS_fetched fromInit r w in
       aiState (hooks w') = 2 /\ effects w' = effects w /\ pending w' = pending w)
    /\ playable Rejected = None
    /\ (forall field, playable (Response false field) = None)
    /\ aiState (hooks (playTTS_played fromInit false w)) = 2
    /\ (forall a,
          audioRef (refs w) = Some a -> playing a = true ->
          aiState (hooks (onended w)) = 2).
Proof.
  intros fromInit w. split; [|split; [|split; [|split]]].
  - intros r Hr w'. subst w'. unfold playable in Hr. unfold playTTS_fetched.
    destruct (usable r) as [audio|].
    + destruct (atob_ok audio); [discriminate|].
      now rewrite returned_aiState, returned_effects, returned_pending.
    + now rewrite returned_aiState, returned_effects, returned_pending.
  - reflexivity.
  - reflexivity.
  - unfold playTTS_played. now rewrite returned_aiState.
  - intros a Ha Hp. unfold onended. now rewrite Ha, Hp.
Qed.

(** The first question of the sample session: the synthesis route answers
    with status 500, and in a second run the audio plays to its end. *)
Lemma speech_failure_leads_to_awaiting_answer_witness :
  let asked := run (mount CacheAbsent)
                 [Fetch 0 (answered "thread_1");
                  Fetch 0 (Response true (Some sample_question))] in
  aiState (hooks asked) = 1
  /\ aiState (hooks (playTTS_fetched true (Response false None)
                       (set_pending [] asked))) = 2
  /\ effects (playTTS_fetched true (Response false None) (set_pending [] asked))
     = effects asked
  /\ aiState (hooks (onended (run asked [Fetch 0 (answered "QUJD");
                                          Playback 0 true]))) = 2.
Proof.
  intro asked.
  split; [reflexivity|].
  pose proof (speech_failure_leads_to_awaiting_answer true
                (set_pending [] asked)) as (H & _).
  specialize (H (Response false None) eq_refl). cbv zeta in H.
  destruct H as (H1 & H2 & _).
  split; [exact H1|]. split; [exact H2|].
  pose proof (speech_failure_leads_to_awaiting_answer true
                (run asked [Fetch 0 (answered "QUJD"); Playback 0 true]))
    as (_ & _ & _ & _ & H).
  apply (H {| src := lit "QUJD"; playing := true |}); reflexivity.
Defined.

(** The completion callback. *)
Lemma onComplete_effects (w : World) :
  effects (onComplete w) = effects w ++ [OnComplete]
  /\ mounted (onComplete w) = false.
Proof.
  unfold onComplete. split; [|reflexivity].
  pose proof (run_cleanup_surface (emit OnComplete w)) as (_ & He & _).
  cbn. exact He.
Qed.

(** What ending the interview sends: the request to the webhook when the
    cache can be read, and nothing but the completion callback when it
    cannot. *)
Lemma handleEndInterview_effects (snap : Hooks) (w : World) :
  exists w',
    handleEndInterview snap w = Normal w'
    /\ effects w'
       = effects w
         ++ (if readable (cache (browser w))
             then [FetchWebhook (interviewContent (qaLogs snap))
                                (contactNumber (cache (browser w)))]
             else [OnComplete])
    /\ (if readable (cache (browser w))
        then exists others, pending w' = others ++ [TWebhook]
        else mounted w' = false).
Proof.
  unfold handleEndInterview.
  destruct (stopRecording_normal w) as (w1 & E & H1). rewrite E. cbn [and_then].
  pose proof (cleanupAudio_surface w1) as H2.
  pose proof (same_surface_trans _ _ _ H1 H2) as (_ & He & _ & Hc & _).
  set (w2 := setIsProcessing false
               (setRecordingState 0
                  (setAiState 0
                     match audioRef (refs (cleanupAudio w1)) with
                     | Some _ =>
                         set_audio (Some {| src := []; playing := false |})
                                   (cleanupAudio w1)
                     | None => cleanupAudio w1
                     end))).
  assert (H : effects w2 = effects w
              /\ cache (browser w2) = cache (browser w)).
  { subst w2. destruct (audioRef (refs (cleanupAudio w1))); cbn;
      rewrite He, Hc; split; reflexivity. }
  destruct H as (He2 & Hc2). clearbody w2. rewrite Hc2.
  destruct (readable (cache (browser w))).
  - eexists. split; [reflexivity|]. cbn. rewrite He2.
    split; [reflexivity|eexists; reflexivity].
  - eexists. split; [reflexivity|].
    destruct (onComplete_effects w2) as (Ho & Hm). now rewrite Ho, He2.
Qed.

(** C4, as the code has it.  Ending the interview sends one request to the
    webhook when the cache can be read, with the transcript of the log of
    the current render, and however that request ends (it rejects, the
    response is [ok] or not) the completion callback is called once.  When
    reading the cache throws, no request is sent and the completion callback
    is called at once.  The transcript of the empty log is the fixed text
    that says there is no record; the transcript of a log that holds one
    open turn is the segment of that turn with an empty answer. *)
Theorem handleEndInterview_delivers_once :
  (forall (snap : Hooks) (w : World),
     exists w',
       handleEndInterview snap w = Normal w'
       /\ effects w'
          = effects w
            ++ (if readable (cache (browser w))
                then [FetchWebhook (interviewContent (qaLogs snap))
                                   (contactNumber (cache (browser w)))]
                else [OnComplete])
       /\ (if readable (cache (browser w))
           then exists others, pending w' = others ++ [TWebhook]
           else mounted w' = false))
  /\ (forall (r : Fetched) (w : World),
        effects (handleEndInterview_fetched r w) = effects w ++ [OnComplete]
        /\ mounted (handleEndInterview_fetched r w) = false)
  /\ interviewContent [] = no_record
  /\ (forall question,
        interviewContent [new_question question]
        = lit "질문 : " ++ question ++ lit ", 답변 : ").
Proof.
  split; [exact handleEndInterview_effects|]. split; [|split].
  - intros r w. destruct r; apply onComplete_effects.
  - reflexivity.
  - intro question.
    rewrite interviewContent_cons.
    cbn [map join]. unfold segment. cbn [q aText new_question].
    now rewrite app_nil_r.
Qed.

(** The log with one open turn has no completed turn, and its transcript is
    not the text that says there is no record: it is the question with an
    empty answer. *)
Lemma open_turn_is_not_no_record :
  completed_turns [new_question sample_question] = 0
  /\ interviewContent [new_question sample_question]
     = lit "질문 : 자기소개를 해주세요., 답변 : "
  /\ interviewContent [new_question sample_question] <> no_record.
Proof.
  split; [reflexivity|]. split; [vm_compute; reflexivity|].
  vm_compute. discriminate.
Qed.

(** The storage cannot be read and the interview is ended before the thread
    has arrived: no request goes to the webhook, the completion callback is
    called, and the component leaves the page. *)
Lemma unreadable_cache_sends_nothing :
  let w := run (mount CacheUnreadable) [ClickEnd] in
  effects w = [FetchCreateThread; OnComplete]
  /\ mounted w = false.
Proof. vm_compute. split; reflexivity. Qed.

(** *** Turns stay in the log *)









Lemma playTTS_logs b t w : qaLogs (hooks (playTTS b t w)) = qaLogs (hooks w).
Proof. unfold playTTS. now destruct (audioRef (refs (setAiState 1 w))). Qed.








End InterviewFacts.

(** ** The interview component: states that are reached *)

Module InterviewReach.
Import Interview.

Lemma run_reachable (c : Cache) (es : list Event) : reachable (run (mount c) es).
Proof. now exists c, es. Qed.

(** While a question is asked for, synthesized or played, the record button
    does nothing. *)
Lemma toggleRecording_ignored_while_asking (snap : Hooks) (w : World) :
  aiState snap = 1 -> toggleRecording snap w = Normal w.
Proof. intro H. unfold toggleRecording. now rewrite H. Qed.

(** C2, at two sessions.  In the first the user presses the record button
    while the thread is being created: when the thread arrives the first
    question is asked for, and [recordingState] and [aiState] are both 1;
    the microphone is then granted and records while [aiState] is 1, and
    the record button, which would stop it, does nothing.  In the second
    the user presses the record button in the second between the
    transcription of an answer and the request for the next question. *)
Theorem recording_and_asking_at_once :
  let w := run (mount CacheAbsent) record_before_first_question in
  let w' := step w (Microphone 0 true) in
  let v := run (mount CacheAbsent) record_before_next_question in
  reachable w
  /\ recordingState (hooks w) = 1 /\ aiState (hooks w) = 1
  /\ recordingState (hooks w') = 1 /\ aiState (hooks w') = 1
  /\ open_streams w' = 1
  /\ map rec_state (recorders (browser w')) = [recording]
  /\ step w' ClickRecord = w'
  /\ reachable v
  /\ recordingState (hooks v) = 1 /\ aiState (hooks v) = 1.
Proof.
  intros w w' v.
  split; [apply run_reachable|].
  split; [vm_compute; reflexivity|]. split; [vm_compute; reflexivity|].
  split; [vm_compute; reflexivity|]. split; [vm_compute; reflexivity|].
  split; [vm_compute; reflexivity|]. split; [vm_compute; reflexivity|].
  split; [vm_compute; reflexivity|].
  split; [apply run_reachable|].
  split; vm_compute; reflexivity.
Qed.

(** C7, at two sessions.  In the interview: start, stop, start while the
    first request for the microphone is not yet answered; once both requests
    are granted nothing is pending and two streams are open.  [streamRef]
    holds the second; the first is held by nothing, and stays open when the
    recording is stopped and when the interview is ended and the component
    unmounted.  In the self-test: the retry button of the refusal view is
    pressed twice before the browser answers, and both requests are
    granted. *)
Theorem two_streams_open_at_once :
  let w := run (mount CacheAbsent) start_stop_start in
  let stopped := run w [ClickRecord; Recorded 0 4096; Fetch 0 Rejected] in
  let ended := run w [ClickEnd; Recorded 0 4096; Fetch 0 Rejected] in
  let m := MicTest.run (MicTest.mount true) MicTest.retry_twice_after_refusal in
  reachable w
  /\ pending w = []
  /\ streams (browser w) = [true; true]
  /\ open_streams w = 2
  /\ streamRef (refs w) = Some 1
  /\ pending stopped = [] /\ streams (browser stopped) = [true; false]
  /\ streamRef (refs stopped) = None
  /\ mounted ended = false /\ streams (browser ended) = [true; false]
  /\ MicTest.pending m = [] /\ MicTest.open_streams m = 2.
Proof.
  intros w stopped ended m.
  split; [apply run_reachable|].
  repeat split; vm_compute; reflexivity.
Qed.

(** *** Recordings are started by renders that may record *)

Lemma Forall_remove_at {A : Type} (P : A -> Prop) (l : list A) (n : nat) :
  Forall P l -> Forall P (remove_at n l).
Proof.
  intro H. revert n. induction H as [|x l Hx Hl IH]; intros [|n]; cbn; auto.
Qed.

Lemma Forall_update_at {A : Type} (P : A -> Prop) (f : A -> A) (l : list A)
    (n : nat) :
  (forall x, P x -> P (f x)) -> Forall P l -> Forall P (update_at n f l).
Proof.
  intros Hf H. revert n. induction H as [|x l Hx Hl IH]; intros [|n]; cbn; auto.
Qed.

Lemma spawn_can_record t w :
  task_can_record t -> renders_can_record w -> renders_can_record (spawn t w).
Proof.
  intros Ht [Hp Hr]. split; [|exact Hr]. cbn. apply Forall_app. auto.
Qed.

Lemma stop_tracks_can_record s w :
  renders_can_record w -> renders_can_record (stop_tracks s w).
Proof.
  intros [Hp Hr]. unfold stop_tracks. rewrite InterviewFrame.spawn_all.
  split; cbn.
  - apply Forall_app. split; [exact Hp|].
    apply Forall_forall. intros t Ht. apply in_map_iff in Ht as (rid & <- & _).
    exact I.
  - apply Forall_map. revert Hr. apply Forall_impl. intros r Hr.
    now destruct ((rec_stream r =? s) && is_recording r).
Qed.

Lemma end_stream_can_record w :
  renders_can_record w -> renders_can_record (end_stream w).
Proof.
  unfold end_stream. destruct (streamRef (refs w)); auto using stop_tracks_can_record.
Qed.

Lemma cleanupAudio_can_record w :
  renders_can_record w -> renders_can_record (cleanupAudio w).
Proof.
  intro H. unfold cleanupAudio, close_context.
  assert (H1 : renders_can_record (cancel_frame w)).
  { unfold cancel_frame. destruct (animationFrameRef (refs w)) as [id|];
      [destruct (negb (id =? 0))|]; exact H. }
  apply end_stream_can_record in H1.
  destruct (audioContextRef (refs (end_stream (cancel_frame w)))) as [c|];
    [destruct (context_open c _)|]; exact H1.
Qed.

Lemma stopRecording_can_record w :
  renders_can_record w -> renders_can_record (world_of (stopRecording w)).
Proof.
  intro H. unfold stopRecording.
  assert (H1 : forall w1, stop_recorder w = Normal w1 -> renders_can_record w1).
  { unfold stop_recorder. destruct (mediaRecorderRef (refs w)) as [rid|];
      [|intros w1 E; injection E as <-; exact H].
    destruct (nth_error (recorders (browser w)) rid) as [r|] eqn:Er;
      [|intros w1 E; injection E as <-; exact H].
    destruct (is_recording r) eqn:Erec;
      [|intros w1 E; injection E as <-; exact H].
    unfold MediaRecorder_stop. rewrite Er, Erec.
    intros w1 E. injection E as <-. destruct H as [Hp Hr].
    apply spawn_can_record; [exact I|]. split; [exact Hp|]. cbn.
    apply Forall_update_at; [auto|exact Hr]. }
  destruct (InterviewFrame.stop_recorder_normal w) as (w1 & E & _).
  rewrite E. cbn [and_then world_of]. specialize (H1 w1 E).
  assert (H2 : renders_can_record (drop_frame w1)).
  { unfold drop_frame. destruct (animationFrameRef (refs w1)) as [id|];
      [destruct (negb (id =? 0))|]; exact H1. }
  unfold drop_stream. destruct (streamRef (refs (drop_frame w1))) as [s|];
    [|exact H2].
  exact (stop_tracks_can_record s _ H2).
Qed.

Lemma effect_cleanup_can_record w :
  renders_can_record w -> renders_can_record (effect_cleanup w).
Proof.
  intro H. apply cleanupAudio_can_record, stopRecording_can_record, H.
Qed.

Lemma run_cleanup_can_record w :
  renders_can_record w -> renders_can_record (run_cleanup w).
Proof.
  intro H. unfold run_cleanup. destruct (cleanup w);
    [now apply effect_cleanup_can_record|exact H].
Qed.

Lemma onComplete_can_record w :
  renders_can_record w -> renders_can_record (onComplete w).
Proof.
  intro H. exact (run_cleanup_can_record (emit OnComplete w) H).
Qed.

Lemma returned_can_record b w :
  renders_can_record w -> renders_can_record (returned b w).
Proof. now destruct b. Qed.

Lemma startNextQuestion_can_record snap b t m w :
  renders_can_record w -> renders_can_record (startNextQuestion snap b t m w).
Proof.
  intro H. unfold startNextQuestion. destruct (aiState snap =? 1).
  - now apply returned_can_record.
  - apply spawn_can_record; [exact I|exact H].
Qed.

Lemma playTTS_can_record b t w :
  renders_can_record w -> renders_can_record (playTTS b t w).
Proof.
  intro H. unfold playTTS. apply spawn_can_record; [exact I|].
  now destruct (audioRef (refs (setAiState 1 w))).
Qed.

Lemma resume_can_record i w t w' :
  resume i w = Some (t, w') -> renders_can_record w ->
  task_can_record t /\ renders_can_record w'.
Proof.
  unfold resume. destruct (nth_error (pending w) i) as [t0|] eqn:E; [|discriminate].
  intros H [Hp Hr]. injection H as <- <-. split.
  - rewrite Forall_forall in Hp. apply Hp. eapply nth_error_In, E.
  - split; [|exact Hr]. cbn. now apply Forall_remove_at.
Qed.

Lemma handle_can_record (e : Event) (w : World) :
  renders_can_record w -> renders_can_record (world_of (handle e w)).
Proof.
  intro H.
  destruct e as [| |ms|i r|i g|i st|i data|i| |id]; cbn [handle].
  - unfold toggleRecording.
    destruct ((aiState (hooks w) =? 1) || isProcessing (hooks w)) eqn:G;
      [exact H|].
    destruct (recordingState (hooks w) =? 0); cbn [Nat.eqb].
    + cbn [world_of]. unfold initializeRecording.
      apply spawn_can_record; [unfold task_can_record, can_record; now rewrite G|].
      exact (end_stream_can_record (setRecordingState 1 w) H).
    + exact (stopRecording_can_record (setRecordingState 0 w) H).
  - unfold handleEndInterview.
    destruct (InterviewFrame.stopRecording_normal w) as (w1 & E & _).
    pose proof (stopRecording_can_record w H) as H1. rewrite E in *.
    cbn [and_then world_of] in *. apply cleanupAudio_can_record in H1.
    destruct (readable _); cbn [world_of].
    + apply spawn_can_record; [exact I|].
      destruct (audioRef (refs (cleanupAudio w1))); exact H1.
    + apply onComplete_can_record.
      destruct (audioRef (refs (cleanupAudio w1))); exact H1.
  - exact H.
  - destruct (resume i w) as [[t w']|] eqn:E; [|exact H].
    destruct (resume_can_record i w t w' E H) as [Ht H'].
    destruct t as [snap|b|b|b|snap|rid|snap d|snap text|]; cbn [world_of];
      try exact H.
    + unfold initInterview_fetched. destruct r as [|ok field]; [exact H'|].
      destruct (usable (Response ok field)); [|exact H'].
      now apply startNextQuestion_can_record.
    + unfold startNextQuestion_fetched.
      destruct r as [|ok field]; [now apply returned_can_record|].
      destruct (usable (Response ok field));
        [now apply playTTS_can_record|now apply returned_can_record].
    + unfold playTTS_fetched.
      destruct (usable r) as [audio|]; [destruct (atob_ok audio)|];
        try (now apply returned_can_record).
      apply spawn_can_record; [exact I|exact H'].
    + unfold processAudioToText_fetched. destruct r as [|ok field]; [exact H'|].
      destruct (usable (Response ok field)) as [text|]; [|exact H'].
      change (renders_can_record (spawn (TTimer snap text) w')).
      apply spawn_can_record; [exact Ht|exact H'].
    + destruct r; cbn [handleEndInterview_fetched];
        exact (onComplete_can_record w' H').
  - destruct (resume i w) as [[t w']|] eqn:E; [|exact H].
    destruct (resume_can_record i w t w' E H) as [Ht H'].
    destruct t; cbn [world_of]; try exact H.
    unfold initializeRecording_resumed. destruct g; [|exact H'].
    destruct H' as [Hp Hr]. unfold drawWaveform.
    match goal with |- renders_can_record (if ?c then _ else _) =>
      destruct c end;
      (split; [exact Hp|]); cbn;
      (apply Forall_update_at; [auto|]); apply Forall_app; split;
      try exact Hr; repeat constructor; exact Ht.
  - destruct (resume i w) as [[t w']|] eqn:E; [|exact H].
    destruct (resume_can_record i w t w' E H) as [Ht H'].
    destruct t; cbn [world_of]; try exact H.
    unfold playTTS_played. destruct st; apply returned_can_record; [|exact H'].
    now destruct (audioRef (refs w')).
  - destruct (resume i w) as [[t w']|] eqn:E; [|exact H].
    destruct (resume_can_record i w t w' E H) as [Ht H'].
    destruct t; try exact H.
    change (recorders (browser (set_audioChunks (audioChunksRef (refs w') ++ [data]) w')))
      with (recorders (browser w')).
    destruct (nth_error (recorders (browser w')) rid) as [r|] eqn:Er;
      cbn [world_of]; [|exact H'].
    unfold processAudioToText.
    destruct (length _ =? 0); [exact H'|].
    destruct (isProcessing (rec_onstop r)); [exact H'|].
    apply spawn_can_record; [|exact H'].
    destruct H' as [_ Hr]. rewrite Forall_forall in Hr.
    apply Hr. eapply nth_error_In, Er.
  - destruct (resume i w) as [[t w']|] eqn:E; [|exact H].
    destruct (resume_can_record i w t w' E H) as [Ht H'].
    destruct t; cbn [world_of]; try exact H.
    unfold processAudioToText_timer. destruct (truthy (threadId snap)); [|exact H'].
    now apply startNextQuestion_can_record.
  - cbn [world_of]. unfold onended. destruct (audioRef (refs w)) as [a|]; [|exact H].
    now destruct (playing a).
  - destruct (existsb _ _); cbn [world_of]; [|exact H].
    unfold drawWaveform. now destruct (_ && _).
Qed.

Lemma commit_can_record w :
  renders_can_record w -> renders_can_record (commit w).
Proof.
  intro H. unfold commit. destruct (mounted w); [|exact H].
  destruct (same_deps _ _); [exact H|].
  pose proof (run_cleanup_can_record
                (set_deps (aiState (hooks w), isInitialized (hooks w)) w) H) as H1.
  unfold effect_body. destruct (isInitializingRef _ || isInitialized _); [exact H1|].
  unfold initInterview.
  match goal with
  | |- renders_can_record (set_cleanup true (spawn ?t ?w0)) =>
      exact (spawn_can_record t w0 I H1)
  end.
Qed.

(** X20.  In every world that is reached, the render that a pending request
    for the microphone, a recorder, a pending transcription or a pending timer
    carries is one with [aiState] other than 1 and [isProcessing] false:
    the tests of these two in [processAudioToText] and in
    [startNextQuestion] called from the timer never stop them. *)
Lemma reachable_renders_can_record (w : World) :
  reachable w -> renders_can_record w.
Proof.
  intros (c & es & ->). unfold run.
  assert (H0 : renders_can_record (mount c)).
  { split; [|constructor]. repeat constructor. }
  revert H0. generalize (mount c). induction es as [|e es IH]; intros w H.
  - exact H.
  - cbn [fold_left]. apply IH. unfold step. destruct (mounted w); [|exact H].
    apply commit_can_record, handle_can_record, H.
Qed.

(** The world in which the first answer is on its way to the transcription. *)
Lemma reachable_renders_can_record_witness :
  renders_can_record (run (mount CacheAbsent) first_answer_recorded).
Proof.
  apply reachable_renders_can_record.
  exists CacheAbsent, first_answer_recorded. reflexivity.
Defined.

End InterviewReach.

(** ** Stopping a capture that is not open *)

Module CaptureFacts.
Import InterviewFrame.


(** *** The interview component *)

Section InterviewStop.
Import Interview.












End InterviewStop.

(** *** The microphone self-test *)

Section MicTestStop.
Import MicTest.



End MicTestStop.


End CaptureFacts.

(** ** The microphone self-test: the verdict *)

Module MicTestFacts.
Import MicTest JSFacts.

Lemma fetched_isSuccess (r : Transcribed) (w : World) :
  isSuccess (hooks (handleRecordingComplete_fetched r w))
  = match r with
    | Parsed (Some text) =>
        Some (truthy text && negb (eqb (trim text) []))
    | _ => Some false
    end.
Proof.
  unfold handleRecordingComplete_fetched.
  destruct r as [e|  |e|[text|]]; try reflexivity.
  cbn [truthy_opt opt_or_else]. unfold or_else.
  destruct text as [|c text]; [reflexivity|]. cbn [truthy andb].
  now destruct (negb (eqb (trim (c :: text)) [])).
Qed.

Lemma eqb_nil_false (s : jsstring) : eqb s [] = false <-> s <> [].
Proof.
  split.
  - intros H E. apply eqb_eq in E. congruence.
  - intro H. destruct (eqb s []) eqn:E; [|reflexivity].
    apply eqb_eq in E. now elim H.
Qed.

(** C9.  In the microphone self-test a transcription whose text is empty or
    made of white space only marks the test as failed and keeps the button
    to the next step disabled.  The test is marked as passed exactly when
    the request succeeds with a text that is not empty after trimming; the
    button to the next step is enabled only for a test that passed, and
    pressing it while it is disabled does nothing. *)
Theorem blank_transcript_fails_the_test :
  forall w : World,
    (forall text,
       white_space_only text ->
       let w' := handleRecordingComplete_fetched (Parsed (Some text)) w in
       isSuccess (hooks w') = Some false
       /\ next_button_enabled (hooks w') = false)
    /\ (forall r,
          isSuccess (hooks (handleRecordingComplete_fetched r w)) = Some true
          <-> exists text, r = Parsed (Some text) /\ trim text <> [])
    /\ (forall h, next_button_enabled h = true -> isSuccess h = Some true)
    /\ (next_button_enabled (hooks w) = false -> step w ClickNext = w).
Proof.
  intro w.
  assert (Hnext : forall h, next_button_enabled h = true -> isSuccess h = Some true).
  { intro h. unfold next_button_enabled.
    destruct (micPermission h); try discriminate;
      destruct (isRecordingComplete h); try discriminate;
      now destruct (isSuccess h) as [[|]|]. }
  split; [|split; [|split]].
  - intros text Hws w'. subst w'.
    assert (E : isSuccess (hooks (handleRecordingComplete_fetched
                                    (Parsed (Some text)) w)) = Some false).
    { rewrite fetched_isSuccess. apply trim_nil in Hws. rewrite Hws.
      now destruct (truthy text). }
    split; [exact E|].
    destruct (next_button_enabled _) eqn:N; [|reflexivity].
    apply Hnext in N. congruence.
  - intro r. rewrite fetched_isSuccess. split.
    + destruct r as [e|  |e|[text|]]; try discriminate.
      intro H. injection H as H. apply andb_prop in H as [_ H].
      apply negb_true_iff, eqb_nil_false in H. now exists text.
    + intros (text & -> & H). f_equal. apply andb_true_intro. split.
      * destruct text; [now elim H|reflexivity].
      * now apply negb_true_iff, eqb_nil_false.
  - exact Hnext.
  - intro H. unfold step. destruct (mounted w); [|reflexivity].
    cbn [handle]. now rewrite H.
Qed.

(** The sample recording is transcribed as two spaces and a tab. *)
Lemma blank_transcript_fails_the_test_witness :
  let w := set_pending [] (run (mount true) transcribing) in
  let w' := handleRecordingComplete_fetched
              (Parsed (Some [32; 32; 9]%N)) w in
  isSuccess (hooks w') = Some false
  /\ next_button_enabled (hooks w') = false
  /\ step w' ClickNext = w'
  /\ isSuccess (hooks (handleRecordingComplete_fetched
                         (Parsed (Some (lit "hello"))) w)) = Some true.
Proof.
  intros w w'.
  destruct (blank_transcript_fails_the_test w) as (Hblank & Hiff & _ & _).
  assert (Hws : white_space_only [32; 32; 9]%N).
  { intros c [<-|[<-|[<-|[]]]]; reflexivity. }
  destruct (Hblank _ Hws) as (H1 & H2). fold w' in H1, H2.
  split; [exact H1|]. split; [exact H2|]. split.
  - destruct (blank_transcript_fails_the_test w') as (_ & _ & _ & Hstep).
    exact (Hstep H2).
  - apply Hiff. exists (lit "hello"). split; [reflexivity|].
    vm_compute. discriminate.
Defined.

End MicTestFacts.

(** ** The interview component: one stream when the starts do not overlap *)

Module OneStream.
Import Interview InterviewFrame.

Lemma nth_update_at_false (l : list bool) (s k : nat) :
  nth k (update_at s (fun _ => false) l) false = true ->
  nth k l false = true /\ k <> s.
Proof.
  revert s k. induction l as [|b l IH]; intros [|s] [|k]; cbn; try discriminate;
    auto.
  intro H. destruct (IH s k H). auto.
Qed.

Lemma live_once (l : list bool) :
  (forall i j, nth i l false = true -> nth j l false = true -> i = j) ->
  count_occ bool_dec l true <= 1.
Proof.
  induction l as [|b l IH]; intro H; [cbn; lia|].
  destruct b.
  - assert (E : count_occ bool_dec l true = 0).
    { apply count_occ_not_In. intro Hin. apply In_nth with (d := false) in Hin.
      destruct Hin as (k & _ & Hk). specialize (H 0 (S k) eq_refl Hk).
      discriminate. }
    rewrite count_occ_cons_eq by reflexivity. lia.
  - rewrite count_occ_cons_neq by discriminate. apply IH.
    intros i j Hi Hj. specialize (H (S i) (S j) Hi Hj). lia.
Qed.

Lemma one_stream_open w : one_stream w -> open_streams w <= 1.
Proof.
  intros (H & _). apply live_once. intros i j Hi Hj.
  apply H in Hi, Hj. congruence.
Qed.

Lemma calmer_one_stream w w' : one_stream w -> calmer w w' -> one_stream w'.
Proof.
  intros (H1 & H2 & H3) (C1 & C2). split; [|split].
  - intros s Hs. destruct (C1 s Hs) as [Hl ->]. auto.
  - intros Hm s. destruct (nth s (streams (browser w')) false) eqn:E; auto.
    destruct (C1 s E) as [Hl _]. rewrite H2 in Hl by lia. discriminate.
  - lia.
Qed.

Lemma calmer_same w w' :
  streams (browser w') = streams (browser w) ->
  streamRef (refs w') = streamRef (refs w) ->
  microphone_requests w' <= microphone_requests w ->
  calmer w w'.
Proof. intros E1 E2 E3. split; [|exact E3]. intros s. rewrite E1. auto. Qed.

Lemma calmer_trans w1 w2 w3 : calmer w1 w2 -> calmer w2 w3 -> calmer w1 w3.
Proof.
  intros (A1 & A2) (B1 & B2). split; [|lia].
  intros s Hs. destruct (B1 s Hs) as [H2 E2]. destruct (A1 s H2) as [H1 E1].
  split; congruence.
Qed.

Lemma requests_spawn t w :
  microphone_requests (spawn t w)
  = microphone_requests w + (if is_microphone_request t then 1 else 0).
Proof.
  unfold microphone_requests. cbn. rewrite filter_app, length_app. cbn.
  now destruct (is_microphone_request t).
Qed.

Lemma spawn_calmer t w : is_microphone_request t = false -> calmer w (spawn t w).
Proof.
  intro H. apply calmer_same; try reflexivity. rewrite requests_spawn, H. lia.
Qed.

Lemma requests_stop_tracks s w :
  microphone_requests (stop_tracks s w) = microphone_requests w.
Proof.
  unfold microphone_requests, stop_tracks. rewrite spawn_all. cbn.
  rewrite filter_app, length_app.
  replace (filter is_microphone_request (map TRecorderStop _)) with (@nil Task);
    [cbn; lia|].
  generalize (recording_on s (recorders (browser w))).
  induction l; cbn; auto.
Qed.

Lemma stop_tracks_streams s w :
  streams (browser (stop_tracks s w))
  = update_at s (fun _ => false) (streams (browser w)).
Proof. unfold stop_tracks. now rewrite spawn_all. Qed.

Lemma stop_tracks_streamRef s w :
  streamRef (refs (stop_tracks s w)) = streamRef (refs w).
Proof. unfold stop_tracks. now rewrite spawn_all. Qed.

Lemma stop_tracks_calmer s w : calmer w (stop_tracks s w).
Proof.
  split; [|rewrite requests_stop_tracks; lia].
  intros k. rewrite stop_tracks_streams, stop_tracks_streamRef. intro H.
  apply nth_update_at_false in H. tauto.
Qed.

(** Once the tracks of the stream in [streamRef] are stopped, no stream is
    live. *)
Lemma stop_tracks_all_ended s w :
  one_stream w -> streamRef (refs w) = Some s ->
  all_ended (streams (browser (stop_tracks s w))).
Proof.
  intros (H & _) E k. rewrite stop_tracks_streams.
  destruct (nth k (update_at s _ _) false) eqn:N; [|reflexivity].
  apply nth_update_at_false in N as [N Hk]. apply H in N. congruence.
Qed.

Lemma no_stream_all_ended w :
  one_stream w -> streamRef (refs w) = None -> all_ended (streams (browser w)).
Proof.
  intros (H & _) E k. destruct (nth k _ false) eqn:N; [|reflexivity].
  apply H in N. congruence.
Qed.

Lemma end_stream_calmer w : calmer w (end_stream w).
Proof.
  unfold end_stream. destruct (streamRef (refs w));
    [apply stop_tracks_calmer|now apply calmer_same].
Qed.

Lemma end_stream_all_ended w :
  one_stream w -> all_ended (streams (browser (end_stream w))).
Proof.
  intro H. unfold end_stream. destruct (streamRef (refs w)) as [s|] eqn:E.
  - now apply stop_tracks_all_ended.
  - now apply no_stream_all_ended.
Qed.

Lemma drop_stream_one w : one_stream w -> one_stream (drop_stream w).
Proof.
  intro H. unfold drop_stream. destruct (streamRef (refs w)) as [s|] eqn:E;
    [|exact H].
  pose proof (stop_tracks_all_ended s w H E) as Hall.
  pose proof (requests_stop_tracks s w) as Hm.
  destruct H as (_ & _ & H3).
  split; [|split].
  - intros k Hk. cbn in Hk. rewrite Hall in Hk. discriminate.
  - intros _. exact Hall.
  - change (microphone_requests (stop_tracks s w) <= 1). lia.
Qed.

Lemma cancel_frame_calmer w : calmer w (cancel_frame w).
Proof.
  unfold cancel_frame. destruct (animationFrameRef (refs w)) as [id|];
    [destruct (negb (id =? 0))|]; now apply calmer_same.
Qed.

Lemma close_context_calmer w : calmer w (close_context w).
Proof.
  unfold close_context. destruct (audioContextRef (refs w)) as [c|];
    [destruct (context_open c w)|]; now apply calmer_same.
Qed.

Lemma cleanupAudio_calmer w : calmer w (cleanupAudio w).
Proof.
  unfold cleanupAudio.
  eapply calmer_trans; [apply cancel_frame_calmer|].
  eapply calmer_trans; [apply end_stream_calmer|apply close_context_calmer].
Qed.

Lemma drop_frame_calmer w : calmer w (drop_frame w).
Proof.
  unfold drop_frame. destruct (animationFrameRef (refs w)) as [id|];
    [destruct (negb (id =? 0))|]; now apply calmer_same.
Qed.

Lemma stop_recorder_calmer w w1 : stop_recorder w = Normal w1 -> calmer w w1.
Proof.
  unfold stop_recorder. destruct (mediaRecorderRef (refs w)) as [rid|];
    [|intro E; injection E as <-; now apply calmer_same].
  destruct (nth_error (recorders (browser w)) rid) as [r|] eqn:Er;
    [|intro E; injection E as <-; now apply calmer_same].
  destruct (is_recording r) eqn:Erec;
    [|intro E; injection E as <-; now apply calmer_same].
  unfold MediaRecorder_stop. rewrite Er, Erec. intro E. injection E as <-.
  apply calmer_same; try reflexivity.
  rewrite requests_spawn. unfold microphone_requests. cbn. lia.
Qed.

Lemma stopRecording_one w :
  one_stream w -> one_stream (world_of (stopRecording w)).
Proof.
  intro H. unfold stopRecording.
  destruct (stop_recorder_normal w) as (w1 & E & _). rewrite E.
  cbn [and_then world_of]. apply drop_stream_one.
  eapply calmer_one_stream; [|apply drop_frame_calmer].
  eapply calmer_one_stream; [exact H|now apply stop_recorder_calmer].
Qed.

Lemma effect_cleanup_one w : one_stream w -> one_stream (effect_cleanup w).
Proof.
  intro H. unfold effect_cleanup.
  eapply calmer_one_stream; [apply stopRecording_one, H|apply cleanupAudio_calmer].
Qed.

Lemma run_cleanup_one w : one_stream w -> one_stream (run_cleanup w).
Proof.
  intro H. unfold run_cleanup. destruct (cleanup w);
    [now apply effect_cleanup_one|exact H].
Qed.

Lemma onComplete_one w : one_stream w -> one_stream (onComplete w).
Proof.
  intro H. unfold onComplete.
  assert (H1 : one_stream (emit OnComplete w))
    by (apply (calmer_one_stream _ _ H); now apply calmer_same).
  apply (calmer_one_stream _ _ (run_cleanup_one _ H1)). now apply calmer_same.
Qed.

Lemma returned_calmer b w : calmer w (returned b w).
Proof. destruct b; now apply calmer_same. Qed.

Lemma startNextQuestion_calmer snap b t m w :
  calmer w (startNextQuestion snap b t m w).
Proof.
  unfold startNextQuestion. destruct (aiState snap =? 1);
    [apply returned_calmer|].
  apply calmer_same; try reflexivity.
  rewrite requests_spawn. unfold microphone_requests. cbn. lia.
Qed.

Lemma playTTS_calmer b t w : calmer w (playTTS b t w).
Proof.
  unfold playTTS. apply calmer_same; try reflexivity;
    try now destruct (audioRef (refs (setAiState 1 w))).
  rewrite requests_spawn. unfold microphone_requests.
  destruct (audioRef (refs (setAiState 1 w))); cbn; lia.
Qed.

Lemma filter_remove_at {A : Type} (f : A -> bool) (l : list A) (i : nat) (x : A) :
  nth_error l i = Some x ->
  length (filter f (remove_at i l)) + (if f x then 1 else 0)
  = length (filter f l).
Proof.
  revert i. induction l as [|y l IH]; intros [|i]; cbn; try discriminate.
  - intro E. injection E as ->. destruct (f x); cbn; lia.
  - intro E. specialize (IH i E). destruct (f y); cbn; lia.
Qed.

Lemma resume_requests i w t w' :
  resume i w = Some (t, w') ->
  streams (browser w') = streams (browser w)
  /\ streamRef (refs w') = streamRef (refs w)
  /\ microphone_requests w' + (if is_microphone_request t then 1 else 0)
     = microphone_requests w.
Proof.
  unfold resume. destruct (nth_error (pending w) i) as [t0|] eqn:E; [|discriminate].
  intro H. injection H as <- <-. repeat split.
  unfold microphone_requests. cbn. now apply filter_remove_at.
Qed.

Lemma resume_calmer i w t w' : resume i w = Some (t, w') -> calmer w w'.
Proof.
  intro H. destruct (resume_requests i w t w' H) as (E1 & E2 & E3).
  apply calmer_same; auto. lia.
Qed.

Lemma nth_app_one (l : list bool) (k : nat) :
  all_ended l -> nth k (l ++ [true]) false = true -> k = length l.
Proof.
  intros Hl H. destruct (Nat.lt_trichotomy k (length l)) as [Hlt|[Heq|Hgt]]; auto.
  - rewrite app_nth1 in H by exact Hlt. rewrite Hl in H. discriminate.
  - rewrite nth_overflow in H; [discriminate|]. rewrite length_app. cbn. lia.
Qed.

(** A start that finds no request waiting: the old stream is stopped, so no
    stream is live while the one request waits. *)
Lemma initializeRecording_one snap w :
  one_stream w -> microphone_requests w = 0 ->
  one_stream (initializeRecording snap w).
Proof.
  intros H Hm. pose proof (end_stream_all_ended w H) as Hall.
  destruct (end_stream_calmer w) as (_ & Hle).
  unfold initializeRecording. split; [|split].
  - intros k Hk. cbn in Hk. rewrite Hall in Hk. discriminate.
  - intros _. exact Hall.
  - rewrite requests_spawn. cbn [is_microphone_request].
    change (microphone_requests (emit GetUserMedia (end_stream w)))
      with (microphone_requests (end_stream w)). lia.
Qed.

(** The one request is answered: the stream it opens is the only live one
    and is the one in [streamRef]. *)
Lemma initializeRecording_resumed_one snap granted w :
  all_ended (streams (browser w)) -> microphone_requests w = 0 ->
  one_stream (initializeRecording_resumed snap granted w).
Proof.
  intros Hall Hm. unfold initializeRecording_resumed. destruct granted.
  - unfold drawWaveform.
    match goal with |- one_stream (if ?c then _ else _) => destruct c end;
      (split; [|split]);
      try (intros k Hk; cbn in Hk |- *; f_equal; symmetry;
           now apply nth_app_one);
      try (unfold microphone_requests; cbn; fold (microphone_requests w); lia).
  - split; [|split].
    + intros k Hk. cbn in Hk. rewrite Hall in Hk. discriminate.
    + intros _. exact Hall.
    + unfold microphone_requests. cbn. fold (microphone_requests w). lia.
Qed.

Lemma handle_one_stream (e : Event) (w : World) :
  one_stream w -> unhurried w e = true -> one_stream (world_of (handle e w)).
Proof.
  intros H Hu.
  assert (same : forall w0 w', one_stream w0 -> calmer w0 w' -> one_stream w')
    by exact calmer_one_stream.
  destruct e as [| |ms|i r|i g|i st|i data|i| |id]; cbn [handle].
  - unfold toggleRecording.
    destruct ((aiState (hooks w) =? 1) || isProcessing (hooks w)); [exact H|].
    cbn [unhurried] in Hu.
    destruct (recordingState (hooks w) =? 0); cbn [Nat.eqb].
    + cbn [world_of]. cbn [negb] in Hu. rewrite orb_false_r in Hu.
      apply Nat.eqb_eq in Hu.
      exact (initializeRecording_one (hooks w) (setRecordingState 1 w) H Hu).
    + exact (stopRecording_one (setRecordingState 0 w) H).
  - unfold handleEndInterview.
    destruct (stopRecording_normal w) as (w1 & E & _).
    pose proof (stopRecording_one w H) as H1. rewrite E in *.
    cbn [and_then world_of] in *.
    destruct (readable _); cbn [world_of].
    + apply (same _ _ H1). eapply calmer_trans; [apply cleanupAudio_calmer|].
      apply calmer_same;
        try (destruct (audioRef (refs (cleanupAudio w1))); reflexivity).
      rewrite requests_spawn. unfold microphone_requests.
      destruct (audioRef (refs (cleanupAudio w1))); cbn; lia.
    + apply onComplete_one.
      apply (same _ _ H1). eapply calmer_trans; [apply cleanupAudio_calmer|].
      apply calmer_same;
        destruct (audioRef (refs (cleanupAudio w1))); try reflexivity;
        unfold microphone_requests; cbn; lia.
  - exact H.
  - destruct (resume i w) as [[t w']|] eqn:E; [|exact H].
    pose proof (same _ _ H (resume_calmer i w t w' E)) as H'.
    destruct t as [snap|b|b|b|snap|rid|snap d|snap text|]; cbn [world_of];
      try exact H.
    + unfold initInterview_fetched. destruct r as [|ok field]; [exact H'|].
      destruct (usable (Response ok field)); [|exact H'].
      apply (same _ _ H'). eapply calmer_trans;
        [|apply startNextQuestion_calmer]. now apply calmer_same.
    + unfold startNextQuestion_fetched. apply (same _ _ H').
      destruct r as [|ok field];
        [eapply calmer_trans; [|apply returned_calmer]; now apply calmer_same|].
      destruct (usable (Response ok field)).
      * eapply calmer_trans; [|apply playTTS_calmer]. now apply calmer_same.
      * eapply calmer_trans; [|apply returned_calmer]. now apply calmer_same.
    + unfold playTTS_fetched. apply (same _ _ H').
      destruct (usable r) as [audio|]; [destruct (atob_ok audio)|];
        try (eapply calmer_trans; [|apply returned_calmer]; now apply calmer_same).
      apply calmer_same; try reflexivity.
      rewrite requests_spawn. unfold microphone_requests. cbn. lia.
    + unfold processAudioToText_fetched. apply (same _ _ H').
      destruct r as [|ok field]; [now apply calmer_same|].
      destruct (usable (Response ok field)); [|now apply calmer_same].
      apply calmer_same; try reflexivity.
      unfold microphone_requests. cbn. rewrite filter_app, length_app. cbn. lia.
    + destruct r; cbn [handleEndInterview_fetched];
        exact (onComplete_one w' H').
  - destruct (resume i w) as [[t w']|] eqn:E; [|exact H].
    destruct t; cbn [world_of]; try exact H.
    destruct (resume_requests i w _ w' E) as (E1 & E2 & E3).
    cbn [is_microphone_request] in E3. destruct H as (H1 & H2 & H3).
    apply initializeRecording_resumed_one; [|lia].
    rewrite E1. apply H2. lia.
  - destruct (resume i w) as [[t w']|] eqn:E; [|exact H].
    pose proof (same _ _ H (resume_calmer i w t w' E)) as H'.
    destruct t; cbn [world_of]; try exact H.
    unfold playTTS_played. apply (same _ _ H'). destruct st.
    + eapply calmer_trans; [|apply returned_calmer].
      destruct (audioRef (refs w')); now apply calmer_same.
    + eapply calmer_trans; [|apply returned_calmer]. now apply calmer_same.
  - destruct (resume i w) as [[t w']|] eqn:E; [|exact H].
    pose proof (same _ _ H (resume_calmer i w t w' E)) as H'.
    destruct t; try exact H.
    change (recorders (browser (set_audioChunks (audioChunksRef (refs w') ++ [data]) w')))
      with (recorders (browser w')).
    destruct (nth_error (recorders (browser w')) rid) as [r|];
      cbn [world_of]; [|exact H'].
    unfold processAudioToText.
    destruct (length _ =? 0); [exact H'|].
    destruct (isProcessing (rec_onstop r)); [exact H'|].
    apply (same _ _ H'). apply calmer_same; try reflexivity.
    unfold microphone_requests. cbn. rewrite filter_app, length_app. cbn. lia.
  - destruct (resume i w) as [[t w']|] eqn:E; [|exact H].
    pose proof (same _ _ H (resume_calmer i w t w' E)) as H'.
    destruct t; cbn [world_of]; try exact H.
    unfold processAudioToText_timer.
    destruct (truthy (threadId snap)); [|exact H'].
    apply (same _ _ H'), startNextQuestion_calmer.
  - cbn [world_of]. unfold onended.
    destruct (audioRef (refs w)) as [a|]; [|exact H].
    now destruct (playing a).
  - destruct (existsb _ _); cbn [world_of]; [|exact H].
    unfold drawWaveform. now destruct (_ && _).
Qed.

Lemma commit_one_stream w : one_stream w -> one_stream (commit w).
Proof.
  intro H. unfold commit. destruct (mounted w); [|exact H].
  destruct (same_deps _ _); [exact H|].
  pose proof (run_cleanup_one
                (set_deps (aiState (hooks w), isInitialized (hooks w)) w) H) as H1.
  unfold effect_body. destruct (isInitializingRef _ || isInitialized _); [exact H1|].
  apply (calmer_one_stream _ _ H1). apply calmer_same; try reflexivity.
  unfold microphone_requests. cbn. rewrite filter_app, length_app. cbn. lia.
Qed.

Lemma mount_one_stream c : one_stream (mount c).
Proof.
  split; [|split].
  - intros [|s]; discriminate.
  - intros _ [|s]; reflexivity.
  - cbn. lia.
Qed.

(** X19.  In a session in which no capture is started while a request for
    the microphone is still to be answered, at most one stream is open after
    every event. *)
Lemma unhurried_sessions_hold_one_stream (c : Cache) (es : list Event) :
  unhurried_run (mount c) es = true -> open_streams (run (mount c) es) <= 1.
Proof.
  intro Hu. apply one_stream_open. revert Hu.
  generalize (mount_one_stream c). generalize (mount c).
  induction es as [|e es IH]; intros w H Hu; [exact H|].
  cbn [unhurried_run] in Hu. apply andb_prop in Hu as [Hu1 Hu2].
  cbn [run fold_left]. apply IH; [|exact Hu2].
  unfold step. destruct (mounted w); [|exact H].
  apply commit_one_stream, handle_one_stream; assumption.
Qed.

(** The first question is asked and the first answer recorded. *)
Lemma unhurried_sessions_hold_one_stream_witness :
  open_streams (run (mount CacheAbsent) first_answer_recorded) <= 1.
Proof.
  apply unhurried_sessions_hold_one_stream. vm_compute. reflexivity.
Defined.

End OneStream.

(** ** The keypad *)

Module NumericPadFacts.
Import NumericPad JSFacts.

Lemma eqb_refl (a : jsstring) : eqb a a = true.
Proof. now apply eqb_eq. Qed.

Lemma eqb_neq (a b : jsstring) : a <> b -> eqb a b = false.
Proof.
  intro H. destruct (eqb a b) eqn:E; [|reflexivity].
  apply eqb_eq in E. now elim H.
Qed.

Lemma eqb_length (a b : jsstring) : length a <> length b -> eqb a b = false.
Proof. intro H. apply eqb_neq. intro E. apply H. now rewrite E. Qed.

Lemma lit_0 : lit "0" = [48%N].
Proof. vm_compute. reflexivity. Qed.

Lemma lit_01 : lit "01" = [48; 49]%N.
Proof. vm_compute. reflexivity. Qed.

Lemma lit_010 : lit "010-" = [48; 49; 48; 45]%N.
Proof. vm_compute. reflexivity. Qed.

Lemma lit_hyphen : lit "-" = [45%N].
Proof. vm_compute. reflexivity. Qed.

(** A key passes one character. *)
Lemma label_one (k : Key) : exists c, label k = [c].
Proof. destruct k; vm_compute; eexists; reflexivity. Qed.

Lemma label_zero (k : Key) : eqb (label k) (lit "0") = true <-> k = K0.
Proof.
  split.
  - destruct k; vm_compute; intro H; try discriminate; reflexivity.
  - intros ->. apply eqb_refl.
Qed.

Lemma label_digit (k : Key) :
  digit_key k = all_digits (label k).
Proof. destruct k; vm_compute; reflexivity. Qed.

Lemma grouped_length (d : jsstring) : length (grouped d) <= 13.
Proof.
  unfold grouped. rewrite lit_010, lit_hyphen. rewrite !length_app.
  destruct (4 <? length d); cbn [length app]; rewrite ?length_app, ?length_firstn;
    cbn [length]; lia.
Qed.

(** One more character after [d]. *)
Lemma click_grouped (c : N) (d : jsstring) :
  handleNumberClick [c] (grouped d) = grouped (d ++ [c]).
Proof.
  unfold handleNumberClick, grouped. rewrite lit_0, lit_01, lit_010, lit_hyphen.
  destruct d as [|d1 [|d2 [|d3 [|d4 [|d5 [|d6 [|d7 [|d8 d]]]]]]]];
    cbn [firstn skipn length app Nat.ltb Nat.leb];
    rewrite ?eqb_length by (cbn; lia); cbn [andb negb].
  - rewrite eqb_refl. cbn [andb].
    destruct (eqb [c] [48%N]); reflexivity.
  - reflexivity.
  - reflexivity.
  - reflexivity.
  - reflexivity.
  - reflexivity.
  - reflexivity.
  - reflexivity.
  - reflexivity.
Qed.

Lemma typed_from_grouped (ks : list Key) :
  forall d,
    fold_left (fun p k => handleNumberClick (label k) p) ks (grouped d)
    = grouped (d ++ labels ks).
Proof.
  induction ks as [|k ks IH]; intro d; cbn [fold_left labels flat_map].
  - now rewrite app_nil_r.
  - destruct (label_one k) as [c E]. rewrite E, click_grouped, IH.
    fold (labels ks). now rewrite <- app_assoc.
Qed.

Lemma grouped_nil : grouped [] = lit "010-".
Proof. unfold grouped. cbn. now rewrite app_nil_r. Qed.

Lemma click_nothing_zero : handleNumberClick (lit "0") [] = lit "0".
Proof. vm_compute. reflexivity. Qed.

Lemma click_after_0 (c : N) : handleNumberClick [c] (lit "0") = lit "01".
Proof.
  unfold handleNumberClick. rewrite lit_0, lit_01, lit_010.
  cbn [length Nat.leb]. rewrite (eqb_length [48%N] []) by (cbn; lia).
  cbn [andb]. now rewrite eqb_refl.
Qed.

Lemma click_after_01 (c : N) : handleNumberClick [c] (lit "01") = lit "010-".
Proof.
  unfold handleNumberClick. rewrite lit_0, lit_01, lit_010.
  cbn [length Nat.leb]. rewrite (eqb_length [48; 49]%N []) by (cbn; lia).
  rewrite (eqb_length [48; 49]%N [48%N]) by (cbn; lia).
  cbn [andb]. now rewrite eqb_refl.
Qed.

Lemma typed_after_key (k : Key) (ks : list Key) :
  k <> K0 -> typed (k :: ks) = grouped (labels (k :: ks)).
Proof.
  intro Hk. unfold typed. cbn [fold_left].
  assert (E : handleNumberClick (label k) [] = grouped (label k)).
  { unfold handleNumberClick. cbn [length Nat.leb]. rewrite eqb_refl.
    destruct (eqb (label k) (lit "0")) eqn:Z;
      [apply label_zero in Z; now elim Hk|].
    cbn [andb negb]. unfold grouped. destruct (label_one k) as [c ->].
    cbn. reflexivity. }
  rewrite E, typed_from_grouped. cbn [labels flat_map]. reflexivity.
Qed.

Lemma typed_after_zero (x y : Key) (ks : list Key) :
  typed (K0 :: x :: y :: ks) = grouped (labels ks).
Proof.
  unfold typed. cbn [fold_left].
  destruct (label_one x) as [cx ->]. destruct (label_one y) as [cy ->].
  change (label K0) with (lit "0").
  rewrite click_nothing_zero, click_after_0, click_after_01, <- grouped_nil.
  now rewrite typed_from_grouped.
Qed.

(** X1.  What the keys type.  After a first key other than 0 the number is
    ["010-"] followed by the characters of all the keys pressed, the first
    four, then a hyphen and the next four; further keys change nothing.
    After a first key 0 the next two keys, whatever they are, only complete
    the prefix ["010-"], and the keys after them are grouped in the same
    way. *)
Theorem typed_is_grouped :
  (forall k ks, k <> K0 -> typed (k :: ks) = grouped (labels (k :: ks)))
  /\ (forall x y ks, typed (K0 :: x :: y :: ks) = grouped (labels ks))
  /\ typed [] = [] /\ typed [K0] = lit "0"
  /\ (forall x, typed [K0; x] = lit "01").
Proof.
  split; [exact typed_after_key|]. split; [exact typed_after_zero|].
  split; [reflexivity|]. split; [apply click_nothing_zero|].
  intro x. unfold typed. cbn [fold_left]. destruct (label_one x) as [cx ->].
  change (label K0) with (lit "0").
  now rewrite click_nothing_zero, click_after_0.
Qed.

(** Eight keys after the prefix, the fifth to the eighth after a hyphen. *)
Lemma typed_is_grouped_witness :
  typed [K1; K2; K3; K4; K5; K6; K7; K8; K9] = lit "010-1234-5678".
Proof.
  rewrite (proj1 typed_is_grouped K1 _ ltac:(discriminate)).
  vm_compute. reflexivity.
Defined.

Lemma phone_pattern_eq :
  phone_pattern
  = [N.eqb 48; N.eqb 49; N.eqb 48; N.eqb 45; is_digit; is_digit; is_digit;
     is_digit; N.eqb 45; is_digit; is_digit; is_digit; is_digit]%N.
Proof. unfold phone_pattern. rewrite lit_010, lit_hyphen. reflexivity. Qed.

(** The numbers the regular expression accepts. *)
Lemma valid_shape (p : jsstring) :
  isValidPhoneNumber p = true <->
  exists a b,
    p = lit "010-" ++ a ++ lit "-" ++ b
    /\ length a = 4 /\ all_digits a = true
    /\ length b = 4 /\ all_digits b = true.
Proof.
  unfold isValidPhoneNumber. rewrite phone_pattern_eq, lit_010, lit_hyphen.
  split.
  - destruct p as [|c1 [|c2 [|c3 [|c4 [|a1 [|a2 [|a3 [|a4 [|h [|b1 [|b2 [|b3
      [|b4 [|x p]]]]]]]]]]]]]]; cbn [matches_all]; try discriminate;
      rewrite ?andb_false_r; try discriminate.
    intro H. repeat (apply andb_prop in H as [?H H]).
    repeat match goal with
           | E : (_ =? _)%N = true |- _ => apply N.eqb_eq in E; subst
           end.
    exists [a1; a2; a3; a4], [b1; b2; b3; b4]. cbn [app length all_digits forallb].
    repeat match goal with
           | E : is_digit _ = true |- _ => rewrite E; clear E
           end.
    repeat split.
  - intros (a & b & -> & La & Da & Lb & Db).
    destruct a as [|a1 [|a2 [|a3 [|a4 [|x a]]]]]; try discriminate.
    destruct b as [|b1 [|b2 [|b3 [|b4 [|x b]]]]]; try discriminate.
    cbn [all_digits forallb] in Da, Db.
    repeat (apply andb_prop in Da as [?Ha Da]).
    repeat (apply andb_prop in Db as [?Hb Db]).
    cbn [app matches_all]. rewrite Ha, Ha0, Ha1, Ha2, Hb, Hb0, Hb1, Hb2.
    reflexivity.
Qed.

Lemma grouped_valid (d : jsstring) :
  isValidPhoneNumber (grouped d)
  = (8 <=? length d) && all_digits (firstn 8 d).
Proof.
  unfold isValidPhoneNumber, grouped.
  rewrite phone_pattern_eq, lit_010, lit_hyphen.
  destruct d as [|d1 [|d2 [|d3 [|d4 [|d5 [|d6 [|d7 [|d8 d]]]]]]]];
    cbn [firstn skipn length app Nat.ltb Nat.leb matches_all all_digits forallb
         andb]; rewrite ?N.eqb_refl, ?andb_false_r, ?andb_true_r;
    cbn [andb]; reflexivity.
Qed.

Lemma labels_length (ks : list Key) : length (labels ks) = length ks.
Proof.
  induction ks as [|k ks IH]; [reflexivity|]. cbn [labels flat_map].
  destruct (label_one k) as [c ->]. cbn. fold (labels ks). now rewrite IH.
Qed.

Lemma labels_firstn (n : nat) (ks : list Key) :
  firstn n (labels ks) = labels (firstn n ks).
Proof.
  revert n. induction ks as [|k ks IH]; intros [|n]; try reflexivity.
  cbn [labels flat_map firstn]. destruct (label_one k) as [c E]. rewrite E.
  cbn. fold (labels ks) (labels (firstn n ks)). now rewrite IH.
Qed.

Lemma labels_digits (ks : list Key) :
  all_digits (labels ks) = forallb digit_key ks.
Proof.
  induction ks as [|k ks IH]; [reflexivity|]. cbn [labels flat_map forallb].
  unfold all_digits in *. rewrite forallb_app. fold (labels ks).
  now rewrite IH, label_digit.
Qed.

Lemma keys_valid (ks : list Key) :
  isValidPhoneNumber (grouped (labels ks))
  = (8 <=? length ks) && forallb digit_key (firstn 8 ks).
Proof.
  now rewrite grouped_valid, labels_length, labels_firstn, labels_digits.
Qed.

(** X2.  The number typed is accepted exactly when at least eight keys count
    after the prefix and the first eight of them are digit keys: a star or a
    hash among them makes the number invalid, and keys after the eighth do
    not matter. *)
Theorem typed_valid_iff_eight_digit_keys :
  (forall k ks,
     k <> K0 ->
     isValidPhoneNumber (typed (k :: ks))
     = (8 <=? length (k :: ks)) && forallb digit_key (firstn 8 (k :: ks)))
  /\ (forall x y ks,
        isValidPhoneNumber (typed (K0 :: x :: y :: ks))
        = (8 <=? length ks) && forallb digit_key (firstn 8 ks)).
Proof.
  split.
  - intros k ks Hk. now rewrite typed_after_key, keys_valid.
  - intros x y ks. now rewrite typed_after_zero, keys_valid.
Qed.

(** Eight digit keys; and a hash among the eight. *)
Lemma typed_valid_iff_eight_digit_keys_witness :
  isValidPhoneNumber (typed [K5; K5; K5; K5; K1; K2; K3; K4]) = true
  /\ isValidPhoneNumber (typed [K5; K5; KHash; K5; K1; K2; K3; K4]) = false.
Proof.
  split;
    rewrite (proj1 typed_valid_iff_eight_digit_keys K5 _ ltac:(discriminate));
    reflexivity.
Defined.

Lemma handleNumberClick_length (k : Key) (p : jsstring) :
  length p <= 13 -> length (handleNumberClick (label k) p) <= 13.
Proof.
  intro H. unfold handleNumberClick. destruct (label_one k) as [c ->].
  rewrite lit_0, lit_01, lit_010, lit_hyphen.
  destruct (13 <=? length p) eqn:L; [exact H|]. apply Nat.leb_gt in L.
  destruct (eqb p [] && _); [cbn; lia|].
  destruct (eqb p []); [cbn; lia|].
  destruct (eqb p [48%N]); [cbn; lia|].
  destruct (eqb p [48; 49]%N); [cbn; lia|].
  destruct (eqb p [48; 49; 48; 45]%N && _); [rewrite length_app; cbn; lia|].
  destruct (length p =? 8) eqn:E8;
    [apply Nat.eqb_eq in E8|]; rewrite !length_app; cbn; lia.
Qed.

Lemma handleDelete_length (p : jsstring) :
  length (handleDelete p) = length p - 1.
Proof.
  unfold handleDelete. destruct p as [|c p]; [reflexivity|].
  cbn [length Nat.eqb]. unfold drop_last. rewrite length_firstn. cbn [length]. lia.
Qed.

(** X3.  Whatever keys are pressed and whatever is deleted, the number never
    has more than 13 characters; a deletion removes exactly one character,
    the last one (a final hyphen is removed alone). *)
Theorem pad_number_is_bounded :
  (forall es : list Event, length (phoneNumber (run mount es)) <= 13)
  /\ (forall p c, handleDelete (p ++ [c]) = p)
  /\ handleDelete [] = [].
Proof.
  split; [|split].
  - intro es. unfold run.
    assert (H : length (phoneNumber mount) <= 13) by (cbn; lia).
    revert H. generalize mount. induction es as [|e es IH]; intros p H; [exact H|].
    cbn [fold_left]. apply IH. destruct e; cbn [step].
    + destruct (isSubmitting p); [exact H|]. cbn. now apply handleNumberClick_length.
    + destruct (isSubmitting p); [exact H|]. cbn.
      rewrite handleDelete_length. lia.
    + destruct (isSubmitting p); [exact H|].
      destruct (isValidPhoneNumber (phoneNumber p)); [|exact H].
      unfold handleConfirm. now destruct (_ && _).
  - intros p c. unfold handleDelete. rewrite length_app. cbn [length].
    replace (length p + 1 =? 0) with false by (symmetry; apply Nat.eqb_neq; lia).
    unfold drop_last. rewrite length_app. cbn [length].
    replace (length p + 1 - 1) with (length p + 0) by lia.
    rewrite firstn_app_2. cbn. now rewrite app_nil_r.
  - reflexivity.
Qed.

(** X4.  The number is passed on at most once, and only a number that the
    regular expression accepts: after any presses, deletions and
    confirmations, [onComplete] has been called at most once, with the
    number that is shown, which has the form 010-dddd-dddd; from then on the
    pad ignores every button. *)
Theorem pad_completes_once_with_a_valid_number :
  forall es : list Event,
    let p := run mount es in
    (completed p = [] /\ isSubmitting p = false)
    \/ (completed p = [phoneNumber p] /\ isSubmitting p = true
        /\ isValidPhoneNumber (phoneNumber p) = true
        /\ forall e, step p e = p).
Proof.
  intro es. cbv zeta. unfold run.
  assert (H : (completed mount = [] /\ isSubmitting mount = false)
              \/ (completed mount = [phoneNumber mount]
                  /\ isSubmitting mount = true
                  /\ isValidPhoneNumber (phoneNumber mount) = true
                  /\ forall e, step mount e = mount)) by (left; split; reflexivity).
  revert H. generalize mount. induction es as [|e es IH]; intros p H; [exact H|].
  cbn [fold_left]. apply IH. destruct H as [[Hc Hs]|(Hc & Hs & Hv & Hstep)].
  - destruct e; cbn [step]; rewrite Hs.
    + left. split; cbn; auto.
    + left. split; cbn; auto.
    + destruct (isValidPhoneNumber (phoneNumber p)) eqn:V; [|left; split; assumption].
      unfold handleConfirm. rewrite V, Hs. cbn [andb negb]. right.
      cbn. rewrite Hc. repeat split; auto. intros []; reflexivity.
  - rewrite Hstep. right. repeat split; assumption.
Qed.

Lemma labels_no_hyphen (ks : list Key) : forallb no_hyphen (labels ks) = true.
Proof.
  induction ks as [|k ks IH]; [reflexivity|]. cbn [labels flat_map].
  rewrite forallb_app. fold (labels ks). rewrite IH.
  destruct k; vm_compute; reflexivity.
Qed.

Lemma display_grouped (d : jsstring) :
  forallb no_hyphen d = true -> d <> [] ->
  displayPhoneNumber (grouped d)
  = grouped d ++ skipn (length (grouped d)) template.
Proof.
  intros H Hd. unfold displayPhoneNumber, grouped, template, without_hyphens.
  replace (lit "010-XXXX-XXXX")
    with [48; 49; 48; 45; 88; 88; 88; 88; 45; 88; 88; 88; 88]%N
    by (vm_compute; reflexivity).
  replace (lit "-XXXX") with [45; 88; 88; 88; 88]%N by (vm_compute; reflexivity).
  rewrite lit_010, lit_hyphen.
  destruct d as [|d1 [|d2 [|d3 [|d4 [|d5 [|d6 [|d7 [|d8 d]]]]]]]];
    [now elim Hd|..];
    cbn [forallb] in H;
    repeat (apply andb_prop in H as [?H H]);
    cbn [firstn skipn length app Nat.ltb Nat.leb truthy negb filter];
    repeat match goal with
           | E : no_hyphen _ = true |- _ => rewrite E; clear E
           end;
    reflexivity.
Qed.

(** X5.  For the prefix ["010-"] followed by at least one typed character,
    grouped as the keypad groups them, the display is the number followed
    by what is left of the template 010-XXXX-XXXX: it has 13 characters and
    shows a valid number unchanged.  For every number of one to four
    characters the display is the number padded with X to four characters
    and followed by ["-XXXX-XXXX"], 14 characters: the bare prefix ["010-"]
    shows with a doubled hyphen, and the number ["0101"], which is reached
    by deleting the hyphen of the prefix, shows as ["0101-XXXX-XXXX"].  For
    the empty number the display is the placeholder. *)
Theorem display_completes_the_template :
  (forall ks : list Key,
     ks <> [] ->
     let p := grouped (labels ks) in
     displayPhoneNumber p = p ++ skipn (length p) template
     /\ length (displayPhoneNumber p) = 13)
  /\ (forall p : jsstring,
        p <> [] -> length p <= 4 ->
        displayPhoneNumber p = padEnd p 4 ++ lit "-XXXX-XXXX"
        /\ length (displayPhoneNumber p) = 14)
  /\ displayPhoneNumber (lit "010-") = lit "010--XXXX-XXXX"
  /\ phoneNumber (run mount [Press K0; Press K1; Press K0; Delete; Press K1])
     = lit "0101"
  /\ displayPhoneNumber (lit "0101") = lit "0101-XXXX-XXXX"
  /\ displayPhoneNumber [] = placeholder.
Proof.
  split; [|split; [|split; [vm_compute; reflexivity|
    split; [vm_compute; reflexivity|
    split; [vm_compute; reflexivity|reflexivity]]]]].
  - intros ks Hks p. subst p.
    assert (E : displayPhoneNumber (grouped (labels ks))
                = grouped (labels ks)
                  ++ skipn (length (grouped (labels ks))) template).
    { apply display_grouped; [apply labels_no_hyphen|].
      intro E. apply (f_equal (@length N)) in E. rewrite labels_length in E.
      destruct ks; [now elim Hks|discriminate]. }
    split; [exact E|]. rewrite E, length_app, length_skipn.
    pose proof (grouped_length (labels ks)).
    replace (length template) with 13 by (vm_compute; reflexivity). lia.
  - intros p Hp Hlen.
    assert (E : displayPhoneNumber p = padEnd p 4 ++ lit "-XXXX-XXXX").
    { unfold displayPhoneNumber.
      destruct p as [|c p]; [now elim Hp|]. cbn [truthy negb].
      now replace (length (c :: p) <=? 4) with true
        by (symmetry; apply Nat.leb_le; exact Hlen). }
    split; [exact E|]. rewrite E. unfold padEnd.
    rewrite !length_app, repeat_length.
    replace (length (lit "-XXXX-XXXX")) with 10 by (vm_compute; reflexivity).
    lia.
Qed.

(** Five keys: the fifth character comes after the second hyphen. *)
Lemma display_completes_the_template_witness :
  displayPhoneNumber (grouped (labels [K1; K2; K3; K4; K5]))
  = lit "010-1234-5XXX".
Proof.
  rewrite (proj1 (proj1 display_completes_the_template
                    [K1; K2; K3; K4; K5] ltac:(discriminate))).
  vm_compute. reflexivity.
Defined.

(** X6.  On a number of fewer than 13 characters a deletion after a key
    press gives the number back, but for the three places where the press
    adds more than its own character: on the empty number with a key other
    than 0 the prefix stays, after ["01"] the number is left as ["010"], and
    after eight characters the hyphen stays.  On a number of 13 characters
    or more the press is ignored, and the deletion takes the last character
    of the number away.  A number left as ["010"] takes the next key without
    a hyphen. *)
Theorem delete_after_press :
  (forall (k : Key) (p : jsstring),
     length p < 13 -> length p <> 8 -> p <> lit "01" ->
     (p = [] -> k = K0) ->
     handleDelete (handleNumberClick (label k) p) = p)
  /\ (forall k, k <> K0 ->
        handleDelete (handleNumberClick (label k) []) = lit "010-")
  /\ (forall k, handleDelete (handleNumberClick (label k) (lit "01")) = lit "010")
  /\ (forall k p, length p = 8 ->
        handleDelete (handleNumberClick (label k) p) = p ++ lit "-")
  /\ (forall k p, 13 <= length p ->
        handleNumberClick (label k) p = p
        /\ handleDelete (handleNumberClick (label k) p) = drop_last p)
  /\ (forall k, handleNumberClick (label k) (lit "010") = lit "010" ++ label k).
Proof.
  assert (Hdel : forall p c, handleDelete (p ++ [c]) = p).
  { intros p c. unfold handleDelete. rewrite length_app. cbn [length].
    replace (length p + 1 =? 0) with false by (symmetry; apply Nat.eqb_neq; lia).
    unfold drop_last. rewrite length_app. cbn [length].
    replace (length p + 1 - 1) with (length p + 0) by lia.
    rewrite firstn_app_2. cbn. now rewrite app_nil_r. }
  split; [|split; [|split; [|split; [|split]]]].
  - intros k p Hlen H8 H01 Hnil. unfold handleNumberClick.
    replace (13 <=? length p) with false by (symmetry; apply Nat.leb_gt; lia).
    replace (length p =? 8) with false by (symmetry; now apply Nat.eqb_neq).
    rewrite (eqb_neq p (lit "01")) by exact H01.
    destruct (label_one k) as [c Ek].
    destruct p as [|c0 p].
    + rewrite (Hnil eq_refl). rewrite eqb_refl. cbn. now rewrite lit_0.
    + rewrite (eqb_length (c0 :: p) []) by (cbn; lia). cbn [andb].
      destruct (eqb (c0 :: p) (lit "0")) eqn:E0.
      * apply eqb_eq in E0. rewrite E0, lit_01, lit_0. reflexivity.
      * rewrite Ek. destruct (eqb (c0 :: p) (lit "010-") && _); apply Hdel.
  - intros k Hk. unfold handleNumberClick. cbn [length Nat.leb].
    rewrite eqb_refl. destruct (eqb (label k) (lit "0")) eqn:Z;
      [apply label_zero in Z; now elim Hk|].
    cbn [andb negb]. destruct (label_one k) as [c ->]. apply Hdel.
  - intro k. destruct (label_one k) as [c ->]. rewrite click_after_01.
    vm_compute. reflexivity.
  - intros k p H8. unfold handleNumberClick. rewrite H8. cbn [Nat.leb Nat.eqb].
    rewrite !(eqb_length p) by (rewrite ?lit_0, ?lit_01, ?lit_010; cbn; lia).
    cbn [andb]. destruct (label_one k) as [c ->].
    rewrite app_assoc. apply Hdel.
  - intros k p Hlen.
    assert (E : handleNumberClick (label k) p = p).
    { unfold handleNumberClick.
      now replace (13 <=? length p) with true
        by (symmetry; apply Nat.leb_le; exact Hlen). }
    split; [exact E|]. rewrite E. unfold handleDelete.
    now replace (length p =? 0) with false
      by (symmetry; apply Nat.eqb_neq; lia).
  - intro k. unfold handleNumberClick.
    replace (lit "010") with [48; 49; 48]%N by (vm_compute; reflexivity).
    rewrite lit_0, lit_01, lit_010. cbn [length Nat.leb Nat.eqb].
    rewrite !(eqb_length [48; 49; 48]%N) by (cbn; lia). reflexivity.
Qed.

(** A digit typed after the second hyphen is taken back. *)
Lemma delete_after_press_witness :
  handleDelete (handleNumberClick (label K7) (lit "010-1234-5"))
  = lit "010-1234-5".
Proof.
  apply (proj1 delete_after_press); try (vm_compute; lia).
  - vm_compute. discriminate.
  - vm_compute. discriminate.
Defined.

End NumericPadFacts.

(** ** The contact number from the keypad to the delivery *)

Module ContactFacts.
Import Interview JSFacts NumericPadFacts.

Lemma filter_all {A : Type} (f : A -> bool) (l : list A) :
  forallb f l = true -> filter f l = l.
Proof.
  induction l as [|x l IH]; [reflexivity|]. cbn. intro H.
  apply andb_prop in H as [Hx Hl]. now rewrite Hx, IH.
Qed.

Lemma digits_of_digits (s : jsstring) : forallb is_digit (digits_of s) = true.
Proof.
  unfold digits_of. apply forallb_forall. intros c Hc.
  now apply filter_In in Hc.
Qed.

Lemma forallb_firstn {A : Type} (f : A -> bool) (n : nat) (l : list A) :
  forallb f l = true -> forallb f (firstn n l) = true.
Proof.
  revert n. induction l as [|x l IH]; intros [|n] H; try reflexivity.
  cbn in *. apply andb_prop in H as [Hx Hl]. now rewrite Hx, IH.
Qed.

Lemma forallb_skipn {A : Type} (f : A -> bool) (n : nat) (l : list A) :
  forallb f l = true -> forallb f (skipn n l) = true.
Proof.
  revert n. induction l as [|x l IH]; intros [|n] H; try reflexivity;
    [exact H|].
  cbn in *. apply andb_prop in H as [Hx Hl]. now apply IH.
Qed.

Lemma digits_of_hyphenated (n m : nat) (d : jsstring) :
  forallb is_digit d = true -> digits_of (hyphenated n m d) = d.
Proof.
  intro H. unfold hyphenated, digits_of, substr, substr_from.
  rewrite lit_hyphen, !filter_app. cbn [filter].
  replace (is_digit 45) with false by reflexivity.
  cbn [app skipn].
  rewrite !filter_all
    by (repeat first [apply forallb_firstn | apply forallb_skipn]; exact H).
  rewrite (Nat.add_comm n m), <- skipn_skipn.
  now rewrite !firstn_skipn.
Qed.

Lemma contactNumber_cases (raw : jsstring) :
  contactNumber (CacheObject (Some raw))
  = if length (digits_of raw) =? 11 then hyphenated 3 4 (digits_of raw)
    else if length (digits_of raw) =? 10 then hyphenated 3 3 (digits_of raw)
    else raw.
Proof.
  unfold contactNumber, opt_or_else, or_else, hyphenated.
  destruct raw as [|c raw]; [reflexivity|]. reflexivity.
Qed.

(** A number the keypad accepts comes out of the formatting as it is. *)
Lemma valid_contact (p : jsstring) :
  NumericPad.isValidPhoneNumber p = true ->
  contactNumber (CacheObject (Some p)) = p.
Proof.
  intro Hp. apply valid_shape in Hp as (a & b & -> & La & Da & Lb & Db).
  destruct a as [|a1 [|a2 [|a3 [|a4 [|x a]]]]]; try discriminate.
  destruct b as [|b1 [|b2 [|b3 [|b4 [|x b]]]]]; try discriminate.
  cbn [NumericPad.all_digits forallb] in Da, Db.
  repeat (apply andb_prop in Da as [?Ha Da]).
  repeat (apply andb_prop in Db as [?Hb Db]).
  rewrite contactNumber_cases. unfold hyphenated, digits_of, substr, substr_from.
  rewrite lit_010, lit_hyphen. cbn [app filter].
  replace (is_digit 48) with true by reflexivity.
  replace (is_digit 49) with true by reflexivity.
  replace (is_digit 45) with false by reflexivity.
  rewrite Ha, Ha0, Ha1, Ha2, Hb, Hb0, Hb1, Hb2. reflexivity.
Qed.

(** X7.  The contact number of the delivery keeps the digits of the cached
    number; formatting what was formatted changes nothing; and a number the
    keypad accepted comes out as it was typed. *)
Theorem contactNumber_keeps_the_number :
  (forall raw : jsstring,
     digits_of (contactNumber (CacheObject (Some raw))) = digits_of raw)
  /\ (forall raw : jsstring,
        contactNumber (CacheObject (Some (contactNumber (CacheObject (Some raw)))))
        = contactNumber (CacheObject (Some raw)))
  /\ (forall p : jsstring,
        NumericPad.isValidPhoneNumber p = true ->
        contactNumber (CacheObject (Some p)) = p)
  /\ contactNumber CacheAbsent = [] /\ contactNumber CacheMalformed = []
  /\ contactNumber (CacheObject None) = [].
Proof.
  assert (Hd : forall raw,
            digits_of (contactNumber (CacheObject (Some raw))) = digits_of raw).
  { intro raw. rewrite contactNumber_cases.
    destruct (length (digits_of raw) =? 11);
      [apply digits_of_hyphenated, digits_of_digits|].
    destruct (length (digits_of raw) =? 10);
      [apply digits_of_hyphenated, digits_of_digits|reflexivity]. }
  split; [exact Hd|]. split; [|split; [|repeat split]].
  - intro raw. rewrite (contactNumber_cases (contactNumber _)), Hd.
    rewrite (contactNumber_cases raw).
    destruct (length (digits_of raw) =? 11); [reflexivity|].
    destruct (length (digits_of raw) =? 10); reflexivity.
  - exact valid_contact.
Qed.

(** The number 010-1234-5678, and the same digits with other punctuation. *)
Lemma contactNumber_keeps_the_number_witness :
  contactNumber (CacheObject (Some (lit "010-1234-5678"))) = lit "010-1234-5678"
  /\ contactNumber (CacheObject (Some (lit "(010) 1234 5678")))
     = lit "010-1234-5678".
Proof.
  split.
  - apply (proj1 (proj2 (proj2 contactNumber_keeps_the_number))).
    vm_compute. reflexivity.
  - vm_compute. reflexivity.
Defined.

End ContactFacts.

(** ** The checklist *)

Module PreCheckFacts.
Import PreCheck.

Lemma handleCheck_items (key : Id) (a b c d : bool) :
  handleCheck key (items a b c d)
  = items (xorb a (Id_eqb noise key)) (xorb b (Id_eqb microphone key))
          (xorb c (Id_eqb internet key)) (xorb d (Id_eqb mindset key)).
Proof. destruct key, a, b, c, d; reflexivity. Qed.

Lemma checks_cons_check (key k : Id) (es : list Event) :
  checks key (Check k :: es) = (if Id_eqb k key then 1 else 0) + checks key es.
Proof. unfold checks. cbn. now destruct (Id_eqb k key). Qed.

Lemma checks_cons_next (key : Id) (es : list Event) :
  checks key (Next :: es) = checks key es.
Proof. reflexivity. Qed.

Lemma step_next_items (w : World) : checkedItems (step w Next) = checkedItems w.
Proof.
  cbn. unfold handleNext. now destruct (allChecked (checkedItems w)).
Qed.

(** The boxes after a session: each one is checked when it was clicked an
    odd number of times. *)
Lemma run_items (es : list Event) :
  forall (w : World) (a b c d : bool),
    checkedItems w = items a b c d ->
    checkedItems (run w es)
    = items (xorb a (Nat.odd (checks noise es)))
            (xorb b (Nat.odd (checks microphone es)))
            (xorb c (Nat.odd (checks internet es)))
            (xorb d (Nat.odd (checks mindset es))).
Proof.
  induction es as [|e es IH]; intros w a b c d H.
  - cbn. now rewrite H, !xorb_false_r.
  - cbn [run fold_left]. fold (run (step w e) es). destruct e as [key|].
    + erewrite IH by (cbn; rewrite H; apply handleCheck_items).
      rewrite !checks_cons_check.
      destruct key; cbn [Id_eqb Nat.add]; rewrite ?Nat.odd_succ, <- ?Nat.negb_odd;
        rewrite ?xorb_false_r;
        repeat match goal with |- context [Nat.odd ?n] => destruct (Nat.odd n) end;
        destruct a, b, c, d; reflexivity.
    + erewrite IH by (rewrite step_next_items; exact H).
      now rewrite !checks_cons_next.
Qed.

Lemma allChecked_items (a b c d : bool) :
  allChecked (items a b c d) = a && b && c && d.
Proof. destruct a, b, c, d; reflexivity. Qed.

Lemma allChecked_run (es : list Event) :
  allChecked (checkedItems (run mount es)) = true
  <-> forall key, Nat.odd (checks key es) = true.
Proof.
  rewrite (run_items es mount false false false false eq_refl).
  rewrite allChecked_items, !xorb_false_l. split.
  - intros H key.
    apply andb_prop in H as [H Hd]. apply andb_prop in H as [H Hc].
    apply andb_prop in H as [Ha Hb]. now destruct key.
  - intro H. now rewrite !H.
Qed.

Lemma odd_positive (n : nat) : Nat.odd n = true -> 1 <= n.
Proof. destruct n; [discriminate|lia]. Qed.

Lemma checks_total (es : list Event) :
  checks noise es + checks microphone es + checks internet es
  + checks mindset es <= length es.
Proof.
  induction es as [|[key|] es IH]; [cbn; lia| |].
  - rewrite !checks_cons_check. cbn [length]. destruct key; cbn [Id_eqb]; lia.
  - rewrite !checks_cons_next. cbn [length]. lia.
Qed.

Lemma checklist_run_snoc (w : World) (es : list Event) (e : Event) :
  run w (es ++ [e]) = step (run w es) e.
Proof. unfold run. now rewrite fold_left_app. Qed.

(** X8.  After any clicks on the checklist the object of the boxes still has
    the four keys in their order, and all boxes are checked exactly when
    each of the four was clicked an odd number of times, which takes at
    least four clicks. *)
Theorem allChecked_iff_each_box_clicked_oddly :
  forall es : list Event,
    map fst (checkedItems (run mount es)) = checkItems
    /\ (allChecked (checkedItems (run mount es)) = true
        <-> forall key, Nat.odd (checks key es) = true)
    /\ (allChecked (checkedItems (run mount es)) = true -> 4 <= length es).
Proof.
  intro es. split; [|split].
  - now rewrite (run_items es mount false false false false eq_refl).
  - apply allChecked_run.
  - intro H. pose proof (proj1 (allChecked_run es) H) as Hk.
    pose proof (checks_total es).
    pose proof (odd_positive _ (Hk noise)).
    pose proof (odd_positive _ (Hk microphone)).
    pose proof (odd_positive _ (Hk internet)).
    pose proof (odd_positive _ (Hk mindset)). lia.
Qed.

(** X9.  The checklist calls [onComplete] only from a click on the button
    that comes when every box has been clicked an odd number of times: a
    session with a completion has such a click. *)
Theorem completion_needs_every_box :
  forall es : list Event,
    0 < completions (run mount es) ->
    exists before after,
      es = before ++ Next :: after
      /\ forall key, Nat.odd (checks key before) = true.
Proof.
  induction es as [|e es IH] using rev_ind; [cbn; lia|].
  rewrite checklist_run_snoc. intro H.
  destruct (Nat.eq_dec (completions (run mount es)) 0) as [Z|NZ].
  - destruct e as [key|]; [cbn in H; lia|].
    cbn [step] in H. unfold handleNext in H.
    destruct (allChecked (checkedItems (run mount es))) eqn:A; [|lia].
    exists es, []. split; [reflexivity|]. now apply allChecked_run.
  - destruct IH as (before & after & -> & Hk); [lia|].
    exists before, (after ++ [e]). split; [|exact Hk].
    now rewrite <- app_assoc.
Qed.

(** The four boxes are checked one after the other and the button is
    clicked. *)
Lemma completion_needs_every_box_witness :
  exists before after,
    [Check noise; Check mindset; Check internet; Check microphone; Next]
    = before ++ Next :: after
    /\ forall key, Nat.odd (checks key before) = true.
Proof.
  apply (completion_needs_every_box
           [Check noise; Check mindset; Check internet; Check microphone; Next]).
  vm_compute. lia.
Defined.

End PreCheckFacts.

(** ** The page *)

Module HomeFacts.
Import Home.

Lemma page_run_snoc (w : World) (es : list Event) (e : Event) :
  run w (es ++ [e]) = step (run w es) e.
Proof. unfold run. now rewrite fold_left_app. Qed.

Lemma run_app (w : World) (es es' : list Event) :
  run w (es ++ es') = run (run w es) es'.
Proof. unfold run. now rewrite fold_left_app. Qed.

(** *** The keypad on the page *)

(** A button of the keypad either leaves the calls as they are, or is the
    one confirmation, of a number the keypad accepts. *)
Lemma pad_step_cases (p : NumericPad.Pad) (e : NumericPad.Event) :
  (calls p (NumericPad.step p e) = []
   /\ NumericPad.isSubmitting (NumericPad.step p e) = NumericPad.isSubmitting p
   /\ NumericPad.completed (NumericPad.step p e) = NumericPad.completed p)
  \/ (NumericPad.isSubmitting p = false
      /\ NumericPad.isValidPhoneNumber (NumericPad.phoneNumber p) = true
      /\ calls p (NumericPad.step p e) = [NumericPad.phoneNumber p]
      /\ NumericPad.isSubmitting (NumericPad.step p e) = true
      /\ NumericPad.phoneNumber (NumericPad.step p e) = NumericPad.phoneNumber p).
Proof.
  assert (same : forall l : list jsstring, skipn (length l) l = []).
  { intro l. apply skipn_all2. lia. }
  unfold calls.
  destruct e as [k| |]; cbn [NumericPad.step];
    destruct (NumericPad.isSubmitting p) eqn:S;
    try solve [left; cbn; rewrite ?S, ?same; auto].
  destruct (NumericPad.isValidPhoneNumber (NumericPad.phoneNumber p)) eqn:V;
    [|left; rewrite ?S, ?same; now auto].
  right. unfold NumericPad.handleConfirm. rewrite V, S. cbn.
  repeat split; auto.
  rewrite skipn_app, same, Nat.sub_diag. reflexivity.
Qed.

Lemma mount_sound c wr : sound c wr (mount c wr).
Proof.
  repeat split; cbn; auto; try lia; now intros.
Qed.

Lemma resume_one (t : Task) (w : World) (i : nat) :
  pending w = [t] ->
  resume i w = match i with
               | 0 => Some (t, set_pending [] w)
               | S _ => None
               end.
Proof.
  intro H. unfold resume. rewrite H. destruct i as [|[|i]]; reflexivity.
Qed.

Lemma resume_none (w : World) (i : nat) : pending w = [] -> resume i w = None.
Proof. intro H. unfold resume. rewrite H. now destruct i. Qed.

Ltac sound_split := unfold sound; split; [|split; [|split; [|split]]].

Lemma step_sound c wr (w : World) (e : Event) :
  sound c wr w -> sound c wr (step w e).
Proof.
  intro H. pose proof H as (H4 & Hw & Hp & Hn & Hs).
  assert (catch : forall w0, writable w0 = wr -> storage w0 = storage w ->
                   effects w0 = effects w ->
                   sound c wr (setCurrentStep 1 (setIsLoading false
                                                   (set_pending [] w0)))).
  { intros w0 W0 S0 E0. sound_split; cbn.
    - lia.
    - exact W0.
    - now left.
    - now intros.
    - rewrite S0, E0. exact Hs. }
  destruct e as [e|i a|i| | |]; cbn [step].
  - destruct (currentStep (hooks w) =? 0) eqn:Z;
      [apply Nat.eqb_eq in Z|exact H].
    destruct (pad_step_cases (pad w) e) as [(C & S & K)|(S & V & C & S' & N)];
      rewrite C; cbn [fold_left].
    + sound_split; cbn; auto.
      destruct Hp as [P|(t & P & Z' & S1)]; [now left|].
      right. exists t. rewrite S. auto.
    + assert (P : pending w = []).
      { destruct Hp as [P|(t & _ & _ & S1)]; [exact P|]. congruence. }
      sound_split; cbn; auto.
      * right. rewrite P. eexists. repeat split; auto.
      * intros n I. rewrite P in I. cbn in I. destruct I as [I|[]].
        inversion I. subst n. split; [exact V|].
        apply in_or_app. right. now left.
      * destruct Hs as [Hs|(p & Hs & Vp & W & I)]; [now left|].
        right. exists p. repeat split; auto. apply in_or_app. now left.
  - destruct Hp as [P|(t & P & Z & S)]; [now rewrite (resume_none w i P)|].
    rewrite (resume_one t w i P). destruct i; [|exact H].
    destruct t as [number|]; [|exact H].
    destruct (Hn number) as [V I]; [rewrite P; now left|].
    unfold handlePhoneNumberComplete_fetched, handlePhoneNumberComplete_catch,
      localStorage_setItem.
    destruct a as [|[|] d]; cbn [writable set_pending];
      [now apply catch| |now apply catch].
    rewrite Hw. destruct wr; [|now apply catch].
    assert (sound c true
              (spawn TTimer (emit (SetTimeout 3000)
                 (setShowSuccessModal true
                    (set_storage (Interview.CacheObject (Some number))
                       {| hooks := hooks w; pad := pad w; storage := storage w;
                          writable := writable w; pending := [];
                          effects := effects w |}))))) as G.
    { sound_split; cbn; auto.
      - right. eexists. repeat split; auto.
      - intros n [I'|[]]. discriminate.
      - right. exists number. repeat split; auto. apply in_or_app. now left. }
    now destruct (success_is d).
  - destruct Hp as [P|(t & P & Z & S)]; [now rewrite (resume_none w i P)|].
    rewrite (resume_one t w i P). destruct i; [|exact H].
    destruct t as [number|]; [exact H|].
    sound_split; cbn; auto; try lia; now intros.
  - destruct (currentStep (hooks w) =? 1) eqn:Z;
      [apply Nat.eqb_eq in Z|exact H].
    sound_split; cbn; auto; try lia.
    destruct Hp as [P|(t & _ & Z' & _)]; [now left|lia].
  - destruct (currentStep (hooks w) =? 2) eqn:Z;
      [apply Nat.eqb_eq in Z|exact H].
    sound_split; cbn; auto; try lia.
    destruct Hp as [P|(t & _ & Z' & _)]; [now left|lia].
  - destruct (3 <=? currentStep (hooks w)) eqn:Z;
      [apply Nat.leb_le in Z|exact H].
    sound_split; cbn; auto; try lia.
    destruct Hp as [P|(t & _ & Z' & _)]; [now left|lia].
Qed.

Lemma run_sound c wr (es : list Event) : sound c wr (run (mount c wr) es).
Proof.
  induction es as [|e es IH] using rev_ind; [apply mount_sound|].
  rewrite page_run_snoc. now apply step_sound.
Qed.

Lemma fold_calls_step (l : list jsstring) :
  forall w,
    currentStep (hooks (fold_left (fun w number =>
                                     handlePhoneNumberComplete number w) l w))
    = currentStep (hooks w).
Proof.
  induction l as [|n l IH]; intro w; [reflexivity|].
  cbn [fold_left]. now rewrite IH.
Qed.

Lemma step_forward c wr (w : World) (e : Event) :
  sound c wr w ->
  currentStep (hooks (step w e)) = currentStep (hooks w)
  \/ currentStep (hooks (step w e)) = S (currentStep (hooks w)).
Proof.
  intros (H4 & Hw & Hp & Hn & Hs).
  destruct e as [e|i a|i| | |]; cbn [step].
  - destruct (currentStep (hooks w) =? 0); [|now left].
    left. now rewrite fold_calls_step.
  - destruct Hp as [P|(t & P & Z & S)]; [rewrite (resume_none w i P); now left|].
    rewrite (resume_one t w i P). destruct i; [|now left].
    destruct t as [number|]; [|now left].
    unfold handlePhoneNumberComplete_fetched, handlePhoneNumberComplete_catch,
      localStorage_setItem.
    destruct a as [|[|] d]; cbn [writable set_pending].
    + right. cbn. now rewrite Z.
    + destruct (writable w); [|right; cbn; now rewrite Z].
      left. now destruct (success_is d).
    + right. cbn. now rewrite Z.
  - destruct Hp as [P|(t & P & Z & S)]; [rewrite (resume_none w i P); now left|].
    rewrite (resume_one t w i P). destruct i; [|now left].
    destruct t as [number|]; [now left|]. right. cbn. now rewrite Z.
  - destruct (currentStep (hooks w) =? 1) eqn:Z; [|now left].
    apply Nat.eqb_eq in Z. right. cbn. now rewrite Z.
  - destruct (currentStep (hooks w) =? 2) eqn:Z; [|now left].
    apply Nat.eqb_eq in Z. right. cbn. now rewrite Z.
  - destruct (3 <=? currentStep (hooks w)) eqn:Z; [|now left].
    apply Nat.leb_le in Z. cbn.
    destruct (Nat.eq_dec (currentStep (hooks w)) 3) as [E|E];
      [right; now rewrite E|left; lia].
Qed.

(** X10.  The wizard only moves forward, one step at a time: in every
    session of the page the step stays within 0..4, each event leaves it
    where it is or moves it to the next one, and a request or a timer of
    the registration is under way only while the keypad is shown. *)
Theorem wizard_moves_forward_one_step_at_a_time :
  forall (c : Interview.Cache) (wr : bool) (es : list Event) (e : Event),
    let w := run (mount c wr) es in
    currentStep (hooks w) <= 4
    /\ (currentStep (hooks (step w e)) = currentStep (hooks w)
        \/ currentStep (hooks (step w e)) = S (currentStep (hooks w)))
    /\ (currentStep (hooks w) <> 0 -> pending w = []).
Proof.
  intros c wr es e w. pose proof (run_sound c wr es) as H. fold w in H.
  split; [apply H|]. split; [now apply (step_forward c wr)|].
  intro NZ. destruct H as (_ & _ & [P|(t & _ & Z & _)] & _);
    [exact P|contradiction].
Qed.

(** X11.  What the interview will read from the cache: in every session of
    the page the cache entry is the one found at the start, or holds a
    number that the keypad accepted, that was sent to the registration
    webhook and that the storage took; the contact number the interview
    computes from such an entry is that number, unchanged. *)
Theorem cached_contact_is_the_registered_number :
  forall (c : Interview.Cache) (wr : bool) (es : list Event),
    let w := run (mount c wr) es in
    storage w = c
    \/ exists p, storage w = Interview.CacheObject (Some p)
                 /\ NumericPad.isValidPhoneNumber p = true
                 /\ wr = true
                 /\ In (FetchWebhook p) (effects w)
                 /\ Interview.contactNumber (storage w) = p.
Proof.
  intros c wr es w. pose proof (run_sound c wr es) as H. fold w in H.
  destruct H as (_ & _ & _ & _ & [Hs|(p & Hs & V & W & I)]); [now left|].
  right. exists p. repeat split; auto. rewrite Hs.
  now apply ContactFacts.valid_contact.
Qed.

(** *** A registration from the first key to the microphone test *)

Lemma presses_run (ks : list NumericPad.Key) :
  forall (w : World) (n : jsstring),
    currentStep (hooks w) = 0 ->
    pad w = {| NumericPad.phoneNumber := n; NumericPad.isSubmitting := false;
               NumericPad.completed := [] |} ->
    run w (presses ks)
    = set_pad {| NumericPad.phoneNumber :=
                   fold_left (fun p k =>
                                NumericPad.handleNumberClick (NumericPad.label k) p)
                             ks n;
                 NumericPad.isSubmitting := false;
                 NumericPad.completed := [] |} w.
Proof.
  induction ks as [|k ks IH]; intros w n Z P.
  - cbn. rewrite <- P. now destruct w.
  - cbn [presses map run fold_left]. fold (presses ks).
    fold (run (step w (Pad (NumericPad.Press k))) (presses ks)).
    assert (E : step w (Pad (NumericPad.Press k))
                = set_pad {| NumericPad.phoneNumber :=
                               NumericPad.handleNumberClick (NumericPad.label k) n;
                             NumericPad.isSubmitting := false;
                             NumericPad.completed := [] |} w).
    { cbn [step]. rewrite Z, P. reflexivity. }
    rewrite E. erewrite IH; [|exact Z|reflexivity]. reflexivity.
Qed.

(** X12.  A registration always ends at the microphone test.  When the keys
    pressed give a number the keypad accepts, then after the confirmation,
    the answer of the webhook whatever it is, and the timer, the page is at
    step 1 with the modal closed and nothing under way; the number went to
    the webhook; and the cache holds the number exactly when the webhook
    answered with an ok status and the storage took the write, in which
    case [isLoading] is still set. *)
Theorem registration_ends_at_the_microphone_test :
  forall (c : Interview.Cache) (wr : bool) (ks : list NumericPad.Key)
         (a : Answer),
    NumericPad.isValidPhoneNumber (NumericPad.typed ks) = true ->
    let w := run (mount c wr)
                 (presses ks ++ [Pad NumericPad.Confirm; Webhook 0 a; Timer 0]) in
    currentStep (hooks w) = 1
    /\ showSuccessModal (hooks w) = false
    /\ pending w = []
    /\ hd_error (effects w) = Some (FetchWebhook (NumericPad.typed ks))
    /\ storage w = (if accepted a && wr
                    then Interview.CacheObject (Some (NumericPad.typed ks))
                    else c)
    /\ isLoading (hooks w) = accepted a && wr.
Proof.
  intros c wr ks a V w. subst w. rewrite run_app.
  rewrite (presses_run ks (mount c wr) [] eq_refl eq_refl).
  fold (NumericPad.typed ks). set (n := NumericPad.typed ks) in *.
  cbn [run fold_left]. 
  assert (E : step (set_pad {| NumericPad.phoneNumber := n;
                               NumericPad.isSubmitting := false;
                               NumericPad.completed := [] |} (mount c wr))
                   (Pad NumericPad.Confirm)
              = handlePhoneNumberComplete n
                  (set_pad {| NumericPad.phoneNumber := n;
                              NumericPad.isSubmitting := true;
                              NumericPad.completed := [n] |} (mount c wr))).
  { cbn [step set_pad hooks mount currentStep Nat.eqb pad NumericPad.step
         NumericPad.isSubmitting NumericPad.phoneNumber].
    rewrite V. unfold NumericPad.handleConfirm.
    cbn [NumericPad.isSubmitting NumericPad.phoneNumber NumericPad.completed].
    rewrite V. reflexivity. }
  rewrite E. clearbody n. clear E V.
  destruct a as [|[|] d]; [| destruct wr; [destruct d as [|[|]]|] |];
    cbn; repeat split; reflexivity.
Qed.

(** The keys 1 to 8 give the number 010-1234-5678, and the webhook answers
    with an ok status and a body that cannot be parsed. *)
Lemma registration_ends_at_the_microphone_test_witness :
  let w := run (mount Interview.CacheAbsent true)
               (presses [NumericPad.K1; NumericPad.K2; NumericPad.K3;
                         NumericPad.K4; NumericPad.K5; NumericPad.K6;
                         NumericPad.K7; NumericPad.K8]
                ++ [Pad NumericPad.Confirm;
                    Webhook 0 (Responded true DataFalsy); Timer 0]) in
  currentStep (hooks w) = 1
  /\ storage w = Interview.CacheObject (Some (lit "010-1234-5678")).
Proof.
  pose proof (registration_ends_at_the_microphone_test
                Interview.CacheAbsent true
                [NumericPad.K1; NumericPad.K2; NumericPad.K3; NumericPad.K4;
                 NumericPad.K5; NumericPad.K6; NumericPad.K7; NumericPad.K8]
                (Responded true DataFalsy)) as H.
  destruct H as (H1 & _ & _ & _ & H5 & _); [vm_compute; reflexivity|].
  split; [exact H1|]. rewrite H5. vm_compute. reflexivity.
Defined.

End HomeFacts.

(** ** The speech route *)

Module SpeechFacts.
Import Route SpeechRoute.

Lemma list_ind3 {A : Type} (P : list A -> Prop) :
  P [] -> (forall a, P [a]) -> (forall a b, P [a; b]) ->
  (forall a b c l, P l -> P (a :: b :: c :: l)) ->
  forall l, P l.
Proof.
  intros H0 H1 H2 H3 l.
  enough (P l /\ (forall a, P (a :: l)) /\ (forall a b, P (a :: b :: l)))
    by tauto.
  induction l as [|x l (IH0 & IH1 & IH2)]; [now auto|].
  split; [apply IH1|]. split; [intro a; apply IH2|].
  intros a b. now apply H3.
Qed.

Lemma alphabet_base64 : forallb is_base64 alphabet = true.
Proof. vm_compute. reflexivity. Qed.

Lemma alphabet_length : length alphabet = 64.
Proof. vm_compute. reflexivity. Qed.

Lemma digit64_base64 (i : N) : (i < 64)%N -> is_base64 (digit64 i) = true.
Proof.
  intro H. unfold digit64.
  pose proof alphabet_base64 as A. rewrite forallb_forall in A.
  apply A, nth_In. rewrite alphabet_length. lia.
Qed.

Lemma byte_bound (b : Byte.byte) : (Byte.to_N b < 256)%N.
Proof. destruct b; vm_compute; reflexivity. Qed.

Lemma base64_not_pad (c : N) : is_base64 c = true -> (c =? 61)%N = false.
Proof.
  intro H. destruct (N.eqb_spec c 61) as [->|]; [|reflexivity].
  vm_compute in H. discriminate H.
Qed.

Lemma base64_not_space (c : N) :
  is_base64 c = true -> is_ascii_white_space c = false.
Proof.
  intro H. destruct (is_ascii_white_space c) eqn:W; [|reflexivity].
  unfold is_ascii_white_space in W.
  rewrite !orb_true_iff, !N.eqb_eq in W.
  destruct W as [[[[->| ->]| ->]| ->]| ->]; vm_compute in H; discriminate H.
Qed.

Ltac numeral x H :=
  destruct x as [|x]; [reflexivity|];
  do 6 (try (destruct x as [x|x|]; try reflexivity;
             try (cbn in H; discriminate H))).

Lemma strip_padding_keep (s : jsstring) :
  length s mod 4 = 0 ->
  (forall x r, rev s = x :: r -> (x =? 61)%N = false) ->
  strip_padding s = s.
Proof.
  intros L H. unfold strip_padding. rewrite L. cbn [Nat.eqb].
  destruct (rev s) as [|x r]; [reflexivity|].
  specialize (H x r eq_refl). numeral x H.
Qed.

Lemma strip_padding_one (s : jsstring) (r : jsstring) :
  length s mod 4 = 0 -> rev s = 61%N :: r ->
  (forall x r', r = x :: r' -> (x =? 61)%N = false) ->
  strip_padding s = rev r.
Proof.
  intros L E H. unfold strip_padding. rewrite L, E. cbn [Nat.eqb].
  destruct r as [|x r']; [reflexivity|].
  specialize (H x r' eq_refl). numeral x H.
Qed.

Lemma strip_padding_two (s : jsstring) (r : jsstring) :
  length s mod 4 = 0 -> rev s = 61%N :: 61%N :: r -> strip_padding s = rev r.
Proof.
  intros L E. unfold strip_padding. now rewrite L, E.
Qed.

Lemma rev_head_in (body : jsstring) (x : N) (r : jsstring) :
  rev body = x :: r -> In x body.
Proof. intro E. apply in_rev. rewrite E. now left. Qed.

(** Digits, then no, one or two padding characters, four by four: the
    decoding of the browser accepts such a string. *)
Lemma atob_ok_padded (body pad : jsstring) :
  forallb is_base64 body = true ->
  pad = [] \/ pad = [61%N] \/ pad = [61%N; 61%N] ->
  length (body ++ pad) mod 4 = 0 ->
  length body mod 4 <> 1 ->
  atob_ok (body ++ pad) = true.
Proof.
  intros B P L L1. unfold atob_ok.
  assert (Hb : forall x r, rev body = x :: r -> (x =? 61)%N = false).
  { intros x r E. apply base64_not_pad.
    rewrite forallb_forall in B. eapply B, rev_head_in, E. }
  assert (F : filter (fun c => negb (is_ascii_white_space c)) (body ++ pad)
              = body ++ pad).
  { apply ContactFacts.filter_all. rewrite forallb_app. apply andb_true_intro.
    split.
    - apply forallb_forall. intros c Hc. rewrite forallb_forall in B.
      now rewrite (base64_not_space c (B c Hc)).
    - destruct P as [->|[->| ->]]; reflexivity. }
  rewrite F.
  assert (S : strip_padding (body ++ pad) = body).
  { destruct P as [->|[->| ->]].
    - rewrite app_nil_r in *. now apply strip_padding_keep.
    - rewrite (strip_padding_one _ (rev body) L).
      + apply rev_involutive.
      + rewrite rev_app_distr. reflexivity.
      + exact Hb.
    - rewrite (strip_padding_two _ (rev body) L).
      + apply rev_involutive.
      + rewrite rev_app_distr. reflexivity. }
  rewrite S, B, andb_true_r.
  apply negb_true_iff, Nat.eqb_neq, L1.
Qed.

Lemma base64_shape (bytes : list Byte.byte) :
  exists body pad,
    base64 bytes = body ++ pad
    /\ forallb is_base64 body = true
    /\ (pad = [] \/ pad = [61%N] \/ pad = [61%N; 61%N])
    /\ length (body ++ pad) = 4 * ((length bytes + 2) / 3)
    /\ length body mod 4 <> 1.
Proof.
  induction bytes as [|a|a b|a b c rest (body & pad & E & B & P & L & L1)]
    using list_ind3.
  - exists [], []. repeat split; auto.
  - exists [digit64 (Byte.to_N a / 4); digit64 (Byte.to_N a mod 4 * 16)],
           [61%N; 61%N].
    pose proof (byte_bound a).
    repeat split; auto; try (cbn; lia).
    cbn [forallb]. rewrite !digit64_base64; [reflexivity| |].
    + pose proof (N.mod_lt (Byte.to_N a) 4). lia.
    + apply N.Div0.div_lt_upper_bound. lia.
  - exists [digit64 (Byte.to_N a / 4);
            digit64 (Byte.to_N a mod 4 * 16 + Byte.to_N b / 16);
            digit64 (Byte.to_N b mod 16 * 4)],
           [61%N].
    pose proof (byte_bound a). pose proof (byte_bound b).
    repeat split; auto; try (cbn; lia).
    cbn [forallb]. rewrite !digit64_base64; [reflexivity| | |].
    + pose proof (N.mod_lt (Byte.to_N b) 16). lia.
    + pose proof (N.mod_lt (Byte.to_N a) 4).
      assert (Byte.to_N b / 16 < 16)%N
        by (apply N.Div0.div_lt_upper_bound; lia). lia.
    + apply N.Div0.div_lt_upper_bound. lia.
  - exists ([digit64 (Byte.to_N a / 4);
             digit64 (Byte.to_N a mod 4 * 16 + Byte.to_N b / 16);
             digit64 (Byte.to_N b mod 16 * 4 + Byte.to_N c / 64);
             digit64 (Byte.to_N c mod 64)] ++ body), pad.
    pose proof (byte_bound a). pose proof (byte_bound b).
    pose proof (byte_bound c).
    split; [|split; [|split; [exact P|split]]].
    + cbn [base64]. rewrite E. now rewrite <- app_assoc.
    + rewrite forallb_app, B, andb_true_r. cbn [forallb].
      rewrite !digit64_base64; [reflexivity| | | |].
      * pose proof (N.mod_lt (Byte.to_N c) 64). lia.
      * pose proof (N.mod_lt (Byte.to_N b) 16).
        assert (Byte.to_N c / 64 < 4)%N
          by (apply N.Div0.div_lt_upper_bound; lia). lia.
      * pose proof (N.mod_lt (Byte.to_N a) 4).
        assert (Byte.to_N b / 16 < 16)%N
          by (apply N.Div0.div_lt_upper_bound; lia). lia.
      * apply N.Div0.div_lt_upper_bound. lia.
    + rewrite <- app_assoc, length_app, L. cbn [length].
      replace (S (S (S (length rest))) + 2) with (length rest + 2 + 1 * 3) by lia.
      rewrite Nat.div_add by lia. lia.
    + rewrite length_app. cbn [length].
      replace (4 + length body) with (length body + 1 * 4) by lia.
      now rewrite Nat.Div0.mod_add.
Qed.

Lemma base64_nil (bytes : list Byte.byte) : base64 bytes = [] -> bytes = [].
Proof.
  destruct bytes as [|a [|b [|c rest]]]; [reflexivity| | |]; discriminate.
Qed.

Lemma atob_ok_base64 (bytes : list Byte.byte) : atob_ok (base64 bytes) = true.
Proof.
  destruct (base64_shape bytes) as (body & pad & E & B & P & L & L1).
  rewrite E. apply atob_ok_padded; auto.
  rewrite L, Nat.mul_comm. apply Nat.Div0.mod_mul.
Qed.

(** X13.  What the speech route sends as audio is always accepted by the
    decoding the interview applies to it: the base64 text of any bytes has
    four characters for every three bytes begun, passes [atob], and is the
    empty string only for no bytes at all. *)
Theorem base64_audio_is_accepted_by_atob :
  forall bytes : list Byte.byte,
    atob_ok (base64 bytes) = true
    /\ length (base64 bytes) = 4 * ((length bytes + 2) / 3)
    /\ (base64 bytes = [] <-> bytes = []).
Proof.
  intro bytes. split; [apply atob_ok_base64|]. split.
  - destruct (base64_shape bytes) as (body & pad & E & _ & _ & L & _).
    now rewrite E.
  - split; [apply base64_nil|now intros ->].
Qed.

Lemma base64_truthy (a : Byte.byte) (bytes : list Byte.byte) :
  truthy (base64 (a :: bytes)) = true.
Proof. destruct bytes as [|b [|c rest]]; reflexivity. Qed.

(** X14.  The reply of the speech route in the interview.  The route
    answers with status 200, 400 or 500.  Either the request carried a text,
    the synthesis gave at least one byte, and the interview sets the audio
    it received as the source of its player and starts it; or the interview
    takes the question as spoken ([aiState] 2) without playing anything,
    which for a reply with status 200 is the case of a synthesis of no bytes
    at all. *)
Theorem speech_reply_plays_unless_it_is_empty :
  forall (env : Env) (fromInit : bool) (w : Interview.World),
    let r := POST env in
    (status r = 200 \/ status r = 400 \/ status r = 500)
    /\ ((exists text a bytes,
           request env = JsonValue (Some text) /\ truthy text = true
           /\ speech env text = Resolves (a :: bytes)
           /\ r = {| status := 200; body := Audio (base64 (a :: bytes)) |}
           /\ Interview.playTTS_fetched fromInit (seen_by_interview r) w
              = Interview.spawn (Interview.TPlay fromInit)
                  (Interview.emit (Interview.AudioPlay (base64 (a :: bytes)))
                     (Interview.set_audio
                        (Some {| Interview.src := base64 (a :: bytes);
                                 Interview.playing := false |}) w)))
        \/ (Interview.playTTS_fetched fromInit (seen_by_interview r) w
            = Interview.returned fromInit (Interview.setAiState 2 w)
            /\ (status r = 200 ->
                exists text, request env = JsonValue (Some text)
                             /\ truthy text = true
                             /\ speech env text = Resolves []))).
Proof.
  intros env fromInit w r. subst r. unfold POST.
  destruct (request env) as [e| |[text|]] eqn:R;
    try (split; [cbn; auto|right; split; [reflexivity|cbn; discriminate]]).
  cbn [truthy_opt]. destruct (truthy text) eqn:T; cbn [negb];
    [|split; [cbn; auto|right; split; [reflexivity|cbn; discriminate]]].
  assert (O : opt_or_else (Some text) [] = text)
    by (cbn; unfold or_else; now rewrite T).
  rewrite O.
  destruct (speech env text) as [[|a bytes]|e] eqn:S.
  - split; [cbn; auto|]. right. split; [reflexivity|].
    intros _. exists text. auto.
  - split; [cbn; auto|]. left. exists text, a, bytes.
    repeat split; auto.
    unfold Interview.playTTS_fetched, seen_by_interview.
    cbn [status body ok Nat.leb andb usable].
    change (200 <=? 200) with true. change (200 <=? 299) with true.
    cbn [andb usable]. rewrite base64_truthy, atob_ok_base64. reflexivity.
  - split; [cbn; auto|right; split; [reflexivity|cbn; discriminate]].
Qed.

End SpeechFacts.

(** ** The transcription route *)

Module WhisperFacts.
Import Route WhisperRoute.

Lemma ok_range (st : nat) : ok st = true <-> 200 <= st <= 299.
Proof.
  unfold ok. rewrite andb_true_iff, !Nat.leb_le. tauto.
Qed.

Lemma ok_500 : ok 500 = false.
Proof. reflexivity. Qed.

Lemma response_init_none (rt : Runtime) (st : nat) :
  response_init rt st = None ->
  200 <= st <= 599 /\ null_body_status st = false.
Proof.
  unfold response_init.
  destruct ((st <? 200) || (599 <? st)) eqn:R; [discriminate|].
  destruct (null_body_status st); [discriminate|]. intros _.
  apply orb_false_iff in R as [A B].
  apply Nat.ltb_ge in A. apply Nat.ltb_ge in B. auto.
Qed.

(** The replies of the route, case by case. *)
Lemma POST_cases (env : Env) :
  (exists st data,
      truthy_opt (apiKey env) = true /\ formData env = None
      /\ upstream env = Responds st (Resolves data) /\ ok st = true
      /\ POST env = {| status := 200; body := Passed data |})
  \/ (exists st text m,
         truthy_opt (apiKey env) = true /\ formData env = None
         /\ upstream env = Responds st (Resolves (DataObject text m))
         /\ ok st = false /\ 200 <= st <= 599 /\ null_body_status st = false
         /\ POST env
            = {| status := st;
                 body := Failure
                           (opt_or_else m (lit "음성 변환에 실패했습니다.")) |})
  \/ (exists error,
         POST env = {| status := 500; body := Failure error |}
         /\ forall st data, upstream env = Responds st (Resolves data) ->
                            truthy_opt (apiKey env) = true ->
                            formData env = None -> ok st = false).
Proof.
  unfold POST.
  destruct (truthy_opt (apiKey env)) eqn:K; cbn [negb];
    [|right; right; eexists; split; [reflexivity|discriminate]].
  destruct (formData env) as [e|] eqn:F;
    [right; right; eexists; split; [reflexivity|discriminate]|].
  destruct (upstream env) as [e|st [data|e]] eqn:U;
    try (right; right; eexists; split; [reflexivity|discriminate]).
  destruct (ok st) eqn:O; [left; exists st, data; auto|].
  destruct data as [|text m].
  - right; right. eexists. split; [reflexivity|].
    intros st' d' E _ _. inversion E. now subst.
  - destruct (response_init (runtime env) st) as [e|] eqn:I.
    + right; right. eexists. split; [reflexivity|].
      intros st' d' E _ _. inversion E. now subst.
    + right; left. apply response_init_none in I as [I1 I2].
      exists st, text, m. repeat split; auto; lia.
Qed.

Lemma or_else_truthy (a b : jsstring) :
  truthy b = true -> truthy (or_else a b) = true.
Proof. intro H. unfold or_else. now destruct (truthy a) eqn:A. Qed.

Lemma opt_or_else_truthy (o : option jsstring) (b : jsstring) :
  truthy b = true -> truthy (opt_or_else o b) = true.
Proof. intro H. destruct o; [now apply or_else_truthy|exact H]. Qed.

(** X15.  The transcription route mirrors the service.  Its status is 200
    or a status from 300 to 599 that allows a body; it is a 2xx status
    exactly when the key is set, the form was read, and the service
    answered with a 2xx status and a body that parses, which the route then
    passes on as it is; every other reply carries an error, and the error
    that stands for an answer of the service with another status is never
    the empty string. *)
Theorem whisper_reply_mirrors_the_service :
  forall env : Env,
    let r := POST env in
    (status r = 200
     \/ (300 <= status r <= 599 /\ null_body_status (status r) = false))
    /\ (ok (status r) = true <->
        exists st data,
          truthy_opt (apiKey env) = true /\ formData env = None
          /\ upstream env = Responds st (Resolves data) /\ ok st = true
          /\ r = {| status := 200; body := Passed data |})
    /\ (ok (status r) = false ->
        exists error, body r = Failure error
                      /\ (status r <> 500 -> truthy error = true)).
Proof.
  intros env r. subst r.
  destruct (POST_cases env)
    as [(st & data & K & F & U & O & E)
       |[(st & text & m & K & F & U & O & R & N & E)|(error & E & H)]];
    rewrite E; cbn [status body].
  - split; [now left|]. split; [|discriminate].
    split; [intros _; exists st, data; auto|reflexivity].
  - assert (300 <= st).
    { destruct (Nat.le_gt_cases 300 st) as [L|L]; [exact L|].
      assert (ok st = true) by (apply ok_range; lia). congruence. }
    split; [right; split; [lia|exact N]|]. split.
    + split; [congruence|].
      intros (st' & d' & _ & _ & U' & O' & _). rewrite U in U'.
      inversion U'. subst. congruence.
    + intros _. eexists. split; [reflexivity|]. intros _.
      apply opt_or_else_truthy. vm_compute. reflexivity.
  - split; [right; split; [lia|reflexivity]|]. split.
    + split; [discriminate|].
      intros (st' & d' & K & F & U' & O' & _).
      specialize (H st' d' U' K F). congruence.
    + intros _. exists error. split; [reflexivity|]. intro N. now elim N.
Qed.

(** X16.  The transcript on its way to the two clients.  The interview
    takes an answer from the reply exactly when the service answered with a
    2xx status and a text that is not empty, and the answer is that text;
    the microphone test passes exactly when the interview would take an
    answer and that answer is not blank, and fails otherwise; and for a
    reply with a failure status the message it shows is its own, not the
    error of the route. *)
Theorem transcript_reaches_the_clients :
  forall (env : Env) (w : MicTest.World),
    let r := POST env in
    let w' := MicTest.handleRecordingComplete_fetched
                (seen_by_micTest (runtime env) r) w in
    (forall s,
        usable (seen_by_interview r) = Some s <->
        truthy_opt (apiKey env) = true /\ formData env = None
        /\ truthy s = true
        /\ exists st m,
             upstream env = Responds st (Resolves (DataObject (Some s) m))
             /\ ok st = true)
    /\ (MicTest.isSuccess (MicTest.hooks w') = Some true <->
        exists s, usable (seen_by_interview r) = Some s /\ trim s <> [])
    /\ (MicTest.isSuccess (MicTest.hooks w') = Some true
        \/ MicTest.isSuccess (MicTest.hooks w') = Some false)
    /\ (ok (status r) = false ->
        MicTest.errorMessage (MicTest.hooks w')
        = lit "음성 변환에 실패했습니다.").
Proof.
  intros env w r w'. subst w' r.
  assert (no : forall s : jsstring,
             ~ (exists s', @None jsstring = Some s' /\ trim s' <> [])).
  { intros _ (s' & E & _). discriminate. }
  destruct (POST_cases env)
    as [(st & data & K & F & U & O & E)
       |[(st & text & m & K & F & U & O & R & N & E)|(error & E & H)]];
    rewrite E; unfold seen_by_interview, seen_by_micTest; cbn [status body].
  - change (ok 200) with true. cbv iota.
    destruct data as [|[s|] m].
    + split; [|split; [|split; [|discriminate]]].
      * intro s. split; [discriminate|].
        intros (_ & _ & _ & st' & m' & U' & _). rewrite U in U'. discriminate.
      * split; [discriminate|]. intros (s & Hs & _). discriminate.
      * now right.
    + cbn [usable]. destruct (truthy s) eqn:T.
      * split; [|split; [|split; [|discriminate]]].
        -- intro s'. split.
           ++ intro Hs. inversion Hs. subst s'. repeat split; auto.
              exists st, m. auto.
           ++ intros (_ & _ & _ & st' & m' & U' & _). rewrite U in U'.
              inversion U'. reflexivity.
        -- unfold MicTest.handleRecordingComplete_fetched.
           cbn [truthy_opt opt_or_else]. unfold or_else. rewrite T.
           cbn [andb]. destruct (eqb (trim s) []) eqn:B; cbn [negb].
           ++ apply JSFacts.eqb_eq in B. split; [discriminate|].
              intros (s' & Hs & Hn). inversion Hs. subst s'. now elim Hn.
           ++ split; [intros _|reflexivity]. exists s. split; [reflexivity|].
              intro B'. rewrite B' in B. discriminate.
        -- unfold MicTest.handleRecordingComplete_fetched.
           cbn [truthy_opt opt_or_else]. unfold or_else. rewrite T.
           cbn [andb]. destruct (eqb (trim s) []); cbn; auto.
      * split; [|split; [|split; [|discriminate]]].
        -- intro s'. split; [discriminate|].
           intros (_ & _ & T' & st' & m' & U' & _). rewrite U in U'.
           inversion U'. subst s'. congruence.
        -- unfold MicTest.handleRecordingComplete_fetched.
           cbn [truthy_opt]. rewrite T. cbn [andb]. split; [discriminate|].
           intros (s' & Hs & _). discriminate.
        -- unfold MicTest.handleRecordingComplete_fetched.
           cbn [truthy_opt]. rewrite T. cbn. auto.
    + cbn [usable]. split; [|split; [|split; [|discriminate]]].
      * intro s'. split; [discriminate|].
        intros (_ & _ & _ & st' & m' & U' & _). rewrite U in U'. discriminate.
      * split; [discriminate|]. intros (s' & Hs & _). discriminate.
      * now right.
  - rewrite O. cbn [usable]. split; [|split; [|split]].
    + intro s'. split; [discriminate|].
      intros (_ & _ & _ & st' & m' & U' & O'). rewrite U in U'.
      inversion U'. subst. congruence.
    + split; [discriminate|]. intros (s' & Hs & _). discriminate.
    + now right.
    + reflexivity.
  - rewrite ok_500. cbn [usable]. split; [|split; [|split]].
    + intro s'. split; [discriminate|].
      intros (K & F & _ & st' & m' & U' & O').
      specialize (H st' _ U' K F). congruence.
    + split; [discriminate|]. intros (s' & Hs & _). discriminate.
    + now right.
    + reflexivity.
Qed.

End WhisperFacts.

(** ** The assistant route: dispatch and reply *)

Module AssistantFacts.
Import Route AssistantRoute AssistantPOST.

(** The run [waitForRunCompletion] returns is a completed one. *)
Lemma poll_loop_returns (poll : nat -> Retrieved) :
  forall left i s,
    fst (poll_loop poll i left) = Returns s -> s = lit "completed".
Proof.
  induction left as [|left IH]; intros i s; cbn [poll_loop].
  - discriminate.
  - destruct (poll i) as [m|status]; [discriminate|].
    destruct (eqb status (lit "completed")) eqn:E.
    + cbn. intro H. inversion H. subst. now apply JSFacts.eqb_eq.
    + destruct (includes terminated status); [discriminate|].
      specialize (IH (S i) s).
      destruct (poll_loop poll (S i) left) as [r acts]. exact IH.
Qed.

Lemma handleSendMessage_cases (threadId message : jsstring) (remote : Remote) :
  let r := handleSendMessage threadId message remote in
  (status r = 400 /\ (exists e, body r = Failure e)
   /\ (truthy threadId = false \/ truthy message = false))
  \/ (status r = 500 /\ (exists e, body r = Failure e)
      /\ truthy threadId = true /\ truthy message = true)
  \/ (exists answer data,
         r = {| status := 200; body := Answer answer (lit "completed") |}
         /\ truthy threadId = true /\ truthy message = true
         /\ messages_create remote = None /\ runs_create remote = None
         /\ fst (waitForRunCompletion (runs_retrieve remote) maxAttempts_default)
            = Returns (lit "completed")
         /\ messages_list remote = Returns data
         /\ answered data answer).
Proof.
  cbv zeta. unfold handleSendMessage.
  destruct (truthy threadId) eqn:T; cbn [negb];
    [|left; cbn; eauto].
  destruct (truthy message) eqn:M; cbn [negb];
    [|left; cbn; eauto].
  destruct (messages_create remote) as [e|] eqn:C1;
    [right; left; cbn; eauto|].
  destruct (runs_create remote) as [e|] eqn:C2;
    [right; left; cbn; eauto|].
  destruct (fst (waitForRunCompletion (runs_retrieve remote) maxAttempts_default))
    as [s|e] eqn:W; [|right; left; cbn; eauto].
  pose proof (poll_loop_returns _ _ _ _ W) as ->.
  destruct (messages_list remote) as [data|e] eqn:L;
    [|right; left; cbn; eauto].
  destruct (filter (fun msg => eqb (role msg) (lit "assistant")) data)
    as [|latest rest] eqn:F.
  - right; right. exists no_answer_message, data.
    repeat split; auto. unfold answered. now rewrite F.
  - destruct (content latest) as [|[value|] cs] eqn:K.
    + right; left; cbn; eauto.
    + right; right. exists value, data.
      repeat split; auto. unfold answered. now rewrite F, K.
    + right; right. exists no_answer_message, data.
      repeat split; auto. unfold answered. now rewrite F, K.
Qed.

(** X17.  How the promise of [POST] settles.  It rejects exactly when the
    action is [createThread] and the creation of the thread rejects, with
    that error, which the [catch] of [POST] does not see; it gives a thread
    id exactly when that creation resolves; every other request gets a
    reply with status 200, 400 or 500, and a reply with status 200 answers
    a [sendMessage] with both arguments and carries a completed run. *)
Theorem assistant_POST_outcomes :
  forall env : Env,
    (forall e,
        POST env = Escapes e <->
        exists action t m,
          request env = JsonValue action t m
          /\ is_action action (lit "createThread") = true
          /\ threads_create env = Rejects e)
    /\ (forall id,
           POST env = Creates id <->
           exists action t m,
             request env = JsonValue action t m
             /\ is_action action (lit "createThread") = true
             /\ threads_create env = Resolves id)
    /\ (forall r,
           POST env = Replies r ->
           (status r = 200 \/ status r = 400 \/ status r = 500)
           /\ (status r = 200 ->
               exists action t m answer,
                 request env = JsonValue action t m
                 /\ is_action action (lit "sendMessage") = true
                 /\ truthy (argument t) = true /\ truthy (argument m) = true
                 /\ body r = Answer answer (lit "completed"))).
Proof.
  intro env. unfold POST, handleCreateThread, catch.
  destruct (request env) as [e0| |action t m] eqn:R.
  - split; [|split].
    + intro e. split; [discriminate|]. intros (? & ? & ? & ? & _). discriminate.
    + intro id. split; [discriminate|]. intros (? & ? & ? & ? & _). discriminate.
    + intros r E. inversion E. cbn. split; [auto|discriminate].
  - split; [|split].
    + intro e. split; [discriminate|]. intros (? & ? & ? & ? & _). discriminate.
    + intro id. split; [discriminate|]. intros (? & ? & ? & ? & _). discriminate.
    + intros r E. inversion E. cbn. split; [auto|discriminate].
  - destruct (is_action action (lit "createThread")) eqn:A.
    + destruct (threads_create env) as [id0|e0] eqn:C; (split; [|split]).
      * intro e. split; [discriminate|].
        intros (? & ? & ? & _ & _ & ?). discriminate.
      * intro id. split.
        -- intro E. inversion E. subst. exists action, t, m. auto.
        -- intros (? & ? & ? & _ & _ & E). now inversion E.
      * discriminate.
      * intro e. split.
        -- intro E. inversion E. subst. exists action, t, m. auto.
        -- intros (? & ? & ? & _ & _ & E). now inversion E.
      * intro id. split; [discriminate|].
        intros (? & ? & ? & _ & _ & ?). discriminate.
      * discriminate.
    + split; [|split].
      * intro e. split.
        -- destruct (is_action action (lit "sendMessage")); discriminate.
        -- intros (a' & t' & m' & E & A' & _). inversion E. subst. congruence.
      * intro id. split.
        -- destruct (is_action action (lit "sendMessage")); discriminate.
        -- intros (a' & t' & m' & E & A' & _). inversion E. subst. congruence.
      * intros r E.
        destruct (is_action action (lit "sendMessage")) eqn:A2.
        -- inversion E as [E']. clear E.
           pose proof (handleSendMessage_cases (argument t) (argument m)
                         (remote env)) as H. cbv zeta in H.
           destruct H as [(S & _ & _)|[(S & _ & _)
                          |(answer & data & Eq & T & M & _)]].
           ++ rewrite S. split; [auto|discriminate].
           ++ rewrite S. split; [auto|discriminate].
           ++ rewrite Eq. cbn. split; [auto|]. intros _.
              exists action, t, m, answer. auto.
        -- inversion E. cbn. split; [auto|discriminate].
Qed.

Lemma questions_returned (b : bool) (w : Interview.World) :
  Interview.questions (Interview.returned b w) = Interview.questions w.
Proof.
  unfold Interview.questions. now rewrite InterviewFacts.returned_logs.
Qed.

Lemma errorMessage_returned (b : bool) (w : Interview.World) :
  Interview.errorMessage (Interview.hooks (Interview.returned b w))
  = Interview.errorMessage (Interview.hooks w).
Proof. now destruct b. Qed.

Lemma asked (b : bool) (question : jsstring) (w : Interview.World) :
  truthy question = true ->
  Interview.questions
    (Interview.startNextQuestion_fetched b (Response true (Some question)) w)
  = Interview.questions w ++ [question].
Proof.
  intro T. unfold Interview.startNextQuestion_fetched. cbn [usable].
  rewrite T. unfold Interview.questions.
  rewrite InterviewFacts.playTTS_logs. cbn. now rewrite map_app.
Qed.

Lemma not_asked (b : bool) (ok : bool) (field : option jsstring)
    (w : Interview.World) :
  usable (Response ok field) = None ->
  let w' := Interview.startNextQuestion_fetched b (Response ok field) w in
  Interview.questions w' = Interview.questions w
  /\ Interview.errorMessage (Interview.hooks w')
     = lit "질문을 생성할 수 없습니다. 다시 시도해주세요.".
Proof.
  intro U. cbv zeta. unfold Interview.startNextQuestion_fetched. rewrite U.
  rewrite questions_returned, errorMessage_returned. split; reflexivity.
Qed.

Lemma no_answer_truthy : truthy no_answer_message = true.
Proof. vm_compute. reflexivity. Qed.

(** X18.  The reply to a message in the interview.  A reply with status
    200 carries a completed run and an answer: the first text of the latest
    message of the assistant, or the fixed apology when the assistant left
    no message or one that begins with something else.  Unless it is the
    empty string, the interview appends that answer to its log as the next
    question, the apology included.  Any other reply leaves the log as it
    is and shows the message that no question could be made. *)
Theorem assistant_reply_becomes_the_next_question :
  forall (threadId message : jsstring) (remote : Remote)
         (fromInit : bool) (w : Interview.World),
    let r := handleSendMessage threadId message remote in
    let w' := Interview.startNextQuestion_fetched
                fromInit (seen_by_interview r) w in
    (status r = 200 ->
     exists answer data,
       body r = Answer answer (lit "completed")
       /\ messages_list remote = Returns data
       /\ answered data answer
       /\ (truthy answer = true ->
           Interview.questions w' = Interview.questions w ++ [answer]))
    /\ (status r <> 200 ->
        Interview.questions w' = Interview.questions w
        /\ Interview.errorMessage (Interview.hooks w')
           = lit "질문을 생성할 수 없습니다. 다시 시도해주세요.")
    /\ (forall data,
           status r = 200 -> messages_list remote = Returns data ->
           filter (fun msg => eqb (role msg) (lit "assistant")) data = [] ->
           Interview.questions w'
           = Interview.questions w ++ [no_answer_message]).
Proof.
  intros threadId message remote fromInit w r w'. subst w'.
  pose proof (handleSendMessage_cases threadId message remote) as H.
  cbv zeta in H. fold r in H.
  destruct H as [(S & (e & B) & _)|[(S & (e & B) & _)
                 |(answer & data & Eq & T & M & C1 & C2 & W & L & A)]].
  - split; [rewrite S; discriminate|].
    split; [|rewrite S; discriminate].
    intros _. unfold seen_by_interview, AssistantRoute.ok. rewrite S, B.
    now apply not_asked.
  - split; [rewrite S; discriminate|].
    split; [|rewrite S; discriminate].
    intros _. unfold seen_by_interview, AssistantRoute.ok. rewrite S, B.
    now apply not_asked.
  - rewrite Eq. unfold seen_by_interview, AssistantRoute.ok.
    cbn [status body]. change ((200 <=? 200) && (200 <=? 299)) with true.
    split; [|split].
    + intros _. exists answer, data. repeat split; auto.
      intro Ta. now apply asked.
    + intro N. now elim N.
    + intros data' _ L' F. rewrite L in L'. inversion L'. subst data'.
      unfold answered in A. rewrite F in A. subst answer.
      apply asked, no_answer_truthy.
Qed.

End AssistantFacts.

(** ** The microphone self-test: sessions *)

Module MicTestSessionFacts.
Import MicTest MicTestSession.

Lemma same_verdict_refl w : same_verdict w w.
Proof. repeat split. Qed.

Lemma same_verdict_trans w1 w2 w3 :
  same_verdict w1 w2 -> same_verdict w2 w3 -> same_verdict w1 w3.
Proof.
  unfold same_verdict. intros (?&?&?&?) (?&?&?&?). repeat split; congruence.
Qed.

Lemma face_refl w : same_face w w.
Proof. repeat split. Qed.

Lemma face_trans w1 w2 w3 :
  same_face w1 w2 -> same_face w2 w3 -> same_face w1 w3.
Proof.
  unfold same_face. intros (?&?&?) (?&?&?). repeat split; congruence.
Qed.

Lemma face_verdict w w' : same_face w w' -> same_verdict w w'.
Proof.
  intros (H & E & M). unfold same_verdict, completions.
  now rewrite H, E, M.
Qed.

Lemma spawn_all_face (l : list nat) :
  forall w, same_face w (fold_left (fun w rid => spawn (TRecorderStop rid) w) l w).
Proof.
  induction l as [|rid l IH]; intro w; [apply face_refl|].
  cbn [fold_left]. eapply face_trans; [|apply IH]. repeat split.
Qed.

Lemma stop_tracks_face s w : same_face w (stop_tracks s w).
Proof.
  unfold stop_tracks. eapply face_trans; [|apply spawn_all_face].
  repeat split.
Qed.

Lemma clear_timer_face w : same_face w (clear_timer w).
Proof.
  unfold clear_timer. destruct (timerRef (refs w)) as [t|];
    [destruct (negb (t =? 0))|]; repeat split.
Qed.

Lemma drop_frame_face w : same_face w (drop_frame w).
Proof.
  unfold drop_frame. destruct (animationFrameRef (refs w)); repeat split.
Qed.

Lemma close_face w :
  same_face w (match audioContextRef (refs w) with
               | Some c =>
                   if context_open c w
                   then set_audioContext None (AudioContext_close c w)
                   else w
               | None => w
               end).
Proof.
  destruct (audioContextRef (refs w)) as [c|];
    [destruct (context_open c w)|]; repeat split.
Qed.

Lemma end_stream_face w :
  same_face w (match streamRef (refs w) with
               | Some s => set_stream None (stop_tracks s w)
               | None => w
               end).
Proof.
  destruct (streamRef (refs w)) as [s|]; [|apply face_refl].
  destruct (stop_tracks_face s w) as (?&?&?). repeat split; assumption.
Qed.

Lemma stop_stream_face w :
  same_face w (match streamRef (refs w) with
               | Some s => stop_tracks s w
               | None => w
               end).
Proof.
  destruct (streamRef (refs w)) as [s|];
    [apply stop_tracks_face|apply face_refl].
Qed.

Ltac name_face F w' :=
  match type of F with same_face _ ?x => set (w' := x) in * end.

Lemma completions_emit (e : Effect) (w : World) :
  completions (emit e w)
  = completions w + match e with OnComplete => 1 | _ => 0 end.
Proof.
  unfold completions. cbn [emit effects]. rewrite filter_app, length_app.
  now destruct e.
Qed.

Lemma startRecording_catch_verdict e w :
  same_verdict w (startRecording_catch e w).
Proof.
  unfold startRecording_catch. destruct e as [name message|]; [|repeat split].
  destruct (_ || _); repeat split.
Qed.

Lemma startRecording_verdict w : same_verdict w (startRecording w).
Proof.
  unfold startRecording. cbv zeta.
  pose proof (end_stream_face
                (setIsTimerComplete false
                   (setErrorMessage [] (setIsLoading true w)))) as F.
  name_face F w2.
  assert (H2 : same_verdict w w2).
  { eapply same_verdict_trans; [|apply face_verdict, F]. repeat split. }
  destruct (negb (supported (browser w2))).
  - eapply same_verdict_trans; [exact H2|apply startRecording_catch_verdict].
  - destruct H2 as (?&?&?&?). repeat split; try assumption.
    unfold completions in *. cbn [spawn set_pending emit effects].
    rewrite filter_app, length_app. cbn. lia.
Qed.

Lemma stopRecording_verdict snap w :
  same_verdict w (world_of (stopRecording snap w)).
Proof.
  unfold stopRecording, stop_recorder.
  pose proof (face_verdict _ _ (clear_timer_face w)) as H1.
  assert (D : forall w0, same_verdict w0 (drop_frame w0))
    by (intro w0; apply face_verdict, drop_frame_face).
  set (w1 := clear_timer w) in *.
  destruct (recorderRef (refs w1)) as [rid|]; cbn [and_then world_of];
    [|eapply same_verdict_trans; [exact H1|apply D]].
  destruct (isRecording snap); cbn [and_then world_of];
    [|eapply same_verdict_trans; [exact H1|apply D]].
  unfold MediaRecorder_stop.
  destruct (nth_error (recorders (browser w1)) rid) as [r|];
    [destruct (is_recording r)|]; cbn [and_then world_of].
  - eapply same_verdict_trans; [exact H1|].
    eapply same_verdict_trans; [|apply D]. repeat split.
  - exact H1.
  - eapply same_verdict_trans; [exact H1|].
    eapply same_verdict_trans; [|apply D]. repeat split.
Qed.

Lemma setupAudioVisualization_verdict dom w :
  same_verdict w (setupAudioVisualization dom w).
Proof.
  unfold setupAudioVisualization, startCanvasAnimation.
  destruct (audioContextRef (refs w)) as [c|];
    [destruct (context_open c w)|];
    destruct (negb (canvas_present dom) || _); repeat split.
Qed.

Lemma startRecording_resumed_verdict dom r w :
  same_verdict w (startRecording_resumed dom r w).
Proof.
  unfold startRecording_resumed.
  destruct r as [e|]; [apply startRecording_catch_verdict|].
  match goal with
  | |- context [setupAudioVisualization dom ?w0] =>
      pose proof (setupAudioVisualization_verdict dom w0) as (?&?&?&?)
  end.
  repeat split; cbn; assumption.
Qed.

Lemma countdown_verdict w : same_verdict w (countdown w).
Proof. unfold countdown. destruct (_ <=? 1); repeat split. Qed.

Lemma handleRecordingComplete_verdict w :
  same_verdict w (handleRecordingComplete w).
Proof.
  unfold handleRecordingComplete. repeat split.
  unfold completions. cbn [spawn set_pending emit effects].
  rewrite filter_app, length_app. cbn. lia.
Qed.

Lemma next_button_passed (h : Hooks) :
  next_button_enabled h = true -> isSuccess h = Some true.
Proof.
  unfold next_button_enabled.
  destruct (micPermission h); try discriminate;
    destruct (isSuccess h) as [[|]|]; rewrite ?andb_false_r;
    try discriminate; reflexivity.
Qed.

Lemma unmount_face w :
  hooks (unmount w) = hooks w /\ effects (unmount w) = effects w
  /\ mounted (unmount w) = false.
Proof.
  unfold unmount. cbv zeta.
  pose proof (clear_timer_face w) as F1. name_face F1 w1.
  pose proof (drop_frame_face w1) as F2. name_face F2 w2.
  pose proof (close_face w2) as F3. name_face F3 w3.
  pose proof (end_stream_face w3) as F4. name_face F4 w4.
  destruct (face_trans _ _ _ (face_trans _ _ _ (face_trans _ _ _ F1 F2) F3) F4)
    as (H & E & _).
  repeat split; assumption.
Qed.

Lemma handleNext_face w :
  hooks (handleNext w) = hooks w
  /\ completions (handleNext w) = S (completions w)
  /\ mounted (handleNext w) = false.
Proof.
  unfold handleNext. cbv zeta.
  pose proof (end_stream_face w) as F1. name_face F1 w1.
  pose proof (close_face w1) as F2. name_face F2 w2.
  destruct (unmount_face (emit OnComplete w2)) as (U1 & U2 & U3).
  destruct (face_trans _ _ _ F1 F2) as (H & E & _).
  split; [rewrite U1; exact H|]. split; [|exact U3].
  unfold completions in *. rewrite U2. cbn [emit effects].
  rewrite filter_app, length_app, E. cbn. lia.
Qed.

Lemma handleRetry_verdict w :
  isSuccess (hooks (handleRetry w)) = None
  /\ completions (handleRetry w) = completions w
  /\ mounted (handleRetry w) = mounted w.
Proof.
  unfold handleRetry. cbv zeta.
  pose proof (stop_stream_face
                (setIsTimerComplete false
                   (setErrorMessage []
                      (setIsSuccess None
                         (setConversionResult []
                            (setIsRecordingComplete false w)))))) as F.
  name_face F w1.
  destruct (startRecording_verdict w1) as (S1 & _ & S3 & S4).
  destruct (face_verdict _ _ F) as (T1 & _ & T3 & T4).
  rewrite S1, S3, S4, T1, T3, T4. repeat split.
Qed.

Lemma heard_more (es : list Event) (e : Event) : heard es -> heard (es ++ [e]).
Proof.
  intros (i & text & I & T). exists i, text. split; [|exact T].
  apply in_or_app. now left.
Qed.

Lemma judged_same (es : list Event) (e : Event) (w w' : World) :
  mounted w = true -> same_verdict w w' -> judged es w -> judged (es ++ [e]) w'.
Proof.
  intros M (S1 & S2 & S3 & S4) (J1 & J2). split.
  - rewrite S1, S2. intro H. destruct (J1 H). split; [now apply heard_more|auto].
  - rewrite S3, S4. destruct J2 as [Z|(O & M' & _)]; [now left|congruence].
Qed.

Lemma step_judged (es : list Event) (e : Event) (w : World) :
  judged es w -> judged (es ++ [e]) (step w e).
Proof.
  intro J. pose proof J as (J1 & J2). unfold step.
  destruct (mounted w) eqn:M.
  2:{ split.
      - intro H. destruct (J1 H). split; [now apply heard_more|auto].
      - destruct J2 as [Z|(O & M' & H)]; [now left|].
        right. repeat split; auto. now apply heard_more. }
  assert (same : forall w', same_verdict w w' -> judged (es ++ [e]) w')
    by (intros w' S; now apply (judged_same es e w w')).
  assert (Z : completions w = 0).
  { destruct J2 as [Z|(_ & M' & _)]; [exact Z|congruence]. }
  destruct e as [| | |ms|i r|i data|i r|id|id]; cbn [handle].
  - destruct (main_button_enabled (hooks w)); [|now apply same, same_verdict_refl].
    destruct (isRecording (hooks w)).
    + apply same, stopRecording_verdict.
    + apply same, startRecording_verdict.
  - destruct (retry_button_shown (hooks w)); [|now apply same, same_verdict_refl].
    cbn [world_of]. destruct (handleRetry_verdict w) as (I1 & I2 & I3). split.
    + rewrite I1. discriminate.
    + left. now rewrite I2.
  - destruct (next_button_enabled (hooks w)) eqn:N;
      [|now apply same, same_verdict_refl].
    apply next_button_passed in N. destruct (J1 N) as [H T].
    cbn [world_of]. destruct (handleNext_face w) as (U1 & U2 & U3). split.
    + rewrite U1. intros _. split; [now apply heard_more|exact T].
    + right. rewrite U2, Z. repeat split; auto. now apply heard_more.
  - now apply same.
  - unfold resume. destruct (nth_error (pending w) i) as [t|];
      [|now apply same, same_verdict_refl].
    destruct t; try (now apply same, same_verdict_refl).
    cbn [world_of].
    eapply same, same_verdict_trans;
      [|apply startRecording_resumed_verdict]. repeat split.
  - unfold resume. destruct (nth_error (pending w) i) as [t|];
      [|now apply same, same_verdict_refl].
    destruct t; try (now apply same, same_verdict_refl).
    cbn [world_of].
    eapply same, same_verdict_trans;
      [|apply handleRecordingComplete_verdict].
    destruct (0 <? data); repeat split.
  - unfold resume. destruct (nth_error (pending w) i) as [t|];
      [|now apply same, same_verdict_refl].
    destruct t; try (now apply same, same_verdict_refl).
    cbn [world_of]. split.
    + rewrite MicTestFacts.fetched_isSuccess.
      destruct r as [e| |e|[text|]]; try discriminate.
      intro H. inversion H as [H']. apply andb_prop in H' as [T B].
      apply negb_true_iff, MicTestFacts.eqb_nil_false in B.
      split.
      * exists i, text. split; [apply in_or_app; right; now left|exact B].
      * unfold handleRecordingComplete_fetched. cbn [truthy_opt opt_or_else].
        unfold or_else. rewrite T.
        destruct (true && negb (eqb (trim text) [])); exact B.
    + left. rewrite <- Z. unfold handleRecordingComplete_fetched.
      destruct r as [e| |e|[text|]]; try reflexivity;
        cbn [truthy_opt opt_or_else];
        destruct (_ && _); reflexivity.
  - destruct (existsb _ _); [|now apply same, same_verdict_refl].
    apply same, countdown_verdict.
  - destruct (existsb _ _); [|now apply same, same_verdict_refl].
    apply same. repeat split.
Qed.

Lemma micTest_run_snoc (w : World) (es : list Event) (e : Event) :
  run w (es ++ [e]) = step (run w es) e.
Proof. unfold run. now rewrite fold_left_app. Qed.

Lemma run_judged (media : bool) (es : list Event) :
  judged es (run (mount media) es).
Proof.
  induction es as [|e es IH] using rev_ind.
  - split; [discriminate|now left].
  - rewrite micTest_run_snoc. now apply step_judged.
Qed.

(** X21.  The microphone test lets the candidate on only after it heard
    something.  In every session the verdict is a success only when the
    text shown is not blank; [onComplete] is called at most once, after it
    the component is off the page, and a session in which it is called has
    a transcription that answered with a text that is not blank. *)
Theorem completion_needs_a_heard_recording :
  forall (media : bool) (es : list Event),
    let w := run (mount media) es in
    (isSuccess (hooks w) = Some true ->
     trim (conversionResult (hooks w)) <> [])
    /\ completions w <= 1
    /\ (completions w = 1 -> heard es /\ mounted w = false).
Proof.
  intros media es w. destruct (run_judged media es) as (J1 & J2). fold w in J1, J2.
  split; [intro H; now apply J1|]. split.
  - destruct J2 as [Z|(O & _)]; lia.
  - intro O. destruct J2 as [Z|(_ & M & H)]; [lia|auto].
Qed.

Lemma ticks_S (n : nat) (w : World) : ticks (S n) w = countdown (ticks n w).
Proof. reflexivity. Qed.

(** X22.  The countdown only counts.  After the interval timer has fired
    [n] times the time shown is what is left of it, [isTimerComplete] is set
    once nothing is left, and the references, the browser objects with the
    recorder among them, the pending requests and every other state of the
    render are as they were: the recording goes on until the button is
    pressed. *)
Theorem countdown_never_stops_the_recording :
  forall (n : nat) (w : World),
    let w' := ticks n w in
    remainingTime (hooks w') = remainingTime (hooks w) - n
    /\ isTimerComplete (hooks w')
       = isTimerComplete (hooks w)
         || ((1 <=? n) && (remainingTime (hooks w) <=? n))
    /\ isRecording (hooks w') = isRecording (hooks w)
    /\ isRecordingComplete (hooks w') = isRecordingComplete (hooks w)
    /\ refs w' = refs w /\ browser w' = browser w
    /\ pending w' = pending w /\ effects w' = effects w
    /\ mounted w' = mounted w.
Proof.
  intros n w. cbv zeta. induction n as [|n (R & T & I)].
  - cbn. rewrite Nat.sub_0_r, orb_false_r. repeat split.
  - rewrite ticks_S. unfold countdown.
    destruct (remainingTime (hooks (ticks n w)) <=? 1) eqn:L.
    + apply Nat.leb_le in L. cbn. split; [lia|]. split; [|exact I].
      replace (remainingTime (hooks w) <=? S n) with true
        by (symmetry; apply Nat.leb_le; lia).
      now rewrite orb_true_r.
    + apply Nat.leb_gt in L. cbn. split; [lia|]. split; [|exact I].
      rewrite T. f_equal.
      replace (remainingTime (hooks w) <=? S n) with false
        by (symmetry; apply Nat.leb_gt; lia).
      replace (remainingTime (hooks w) <=? n) with false
        by (symmetry; apply Nat.leb_gt; lia).
      now rewrite !andb_false_r.
Qed.

End MicTestSessionFacts.

(** ** The interview component: what is delivered *)

Module DeliveryFacts.
Import Interview InterviewSession InterviewFrame.

Lemma sd_refl w : same_delivery w w.
Proof. split; reflexivity. Qed.

Lemma sd_trans w1 w2 w3 :
  same_delivery w1 w2 -> same_delivery w2 w3 -> same_delivery w1 w3.
Proof. intros (?&?) (?&?). split; congruence. Qed.

Lemma surface_delivery w w' : same_surface w w' -> same_delivery w w'.
Proof.
  intros (_ & E & _ & C & _). split; [exact C|].
  unfold deliveries. now rewrite E.
Qed.

(** A world built from [w] by the setters, by requests that are not
    deliveries and by new tasks. *)
Ltac quiet :=
  split; [reflexivity|];
  unfold deliveries; cbn; rewrite ?filter_app; cbn; rewrite ?app_nil_r;
  reflexivity.

Lemma returned_sd b w : same_delivery w (returned b w).
Proof. destruct b; quiet. Qed.

Lemma playTTS_sd b t w : same_delivery w (playTTS b t w).
Proof. unfold playTTS. destruct (audioRef (refs (setAiState 1 w))); quiet. Qed.

Lemma startNextQuestion_sd snap b t m w :
  same_delivery w (startNextQuestion snap b t m w).
Proof.
  unfold startNextQuestion. destruct (aiState snap =? 1);
    [apply returned_sd|quiet].
Qed.

Lemma initInterview_sd snap w : same_delivery w (initInterview snap w).
Proof. quiet. Qed.

Lemma initInterview_fetched_sd snap r w :
  same_delivery w (initInterview_fetched snap r w).
Proof.
  unfold initInterview_fetched. destruct r as [|ok field]; [quiet|].
  destruct (usable (Response ok field)); [|quiet].
  eapply sd_trans; [|apply startNextQuestion_sd]. quiet.
Qed.

Lemma startNextQuestion_fetched_sd b r w :
  same_delivery w (startNextQuestion_fetched b r w).
Proof.
  unfold startNextQuestion_fetched. destruct r as [|ok field].
  - eapply sd_trans; [|apply returned_sd]. quiet.
  - destruct (usable (Response ok field)).
    + eapply sd_trans; [|apply playTTS_sd]. quiet.
    + eapply sd_trans; [|apply returned_sd]. quiet.
Qed.

Lemma playTTS_fetched_sd b r w : same_delivery w (playTTS_fetched b r w).
Proof.
  unfold playTTS_fetched.
  destruct (usable r) as [audio|]; [destruct (atob_ok audio)|]; try quiet;
    (eapply sd_trans; [|apply returned_sd]; quiet).
Qed.

Lemma playTTS_played_sd b st w : same_delivery w (playTTS_played b st w).
Proof.
  unfold playTTS_played. destruct st.
  - eapply sd_trans; [|apply returned_sd]. destruct (audioRef (refs w)); quiet.
  - eapply sd_trans; [|apply returned_sd]. quiet.
Qed.

Lemma onended_sd w : same_delivery w (onended w).
Proof.
  unfold onended. destruct (audioRef (refs w)) as [a|]; [|quiet].
  destruct (playing a); quiet.
Qed.

Lemma drawWaveform_sd w : same_delivery w (drawWaveform w).
Proof. unfold drawWaveform. destruct (_ && _); quiet. Qed.

Lemma initializeRecording_sd snap w :
  same_delivery w (initializeRecording snap w).
Proof.
  unfold initializeRecording.
  eapply sd_trans; [apply surface_delivery, end_stream_surface|]. quiet.
Qed.

Lemma initializeRecording_resumed_sd snap g w :
  same_delivery w (initializeRecording_resumed snap g w).
Proof.
  unfold initializeRecording_resumed. destruct g; [|quiet].
  cbv zeta. eapply sd_trans; [|apply drawWaveform_sd]. quiet.
Qed.

Lemma stopRecording_sd w : same_delivery w (world_of (stopRecording w)).
Proof.
  destruct (stopRecording_normal w) as (w' & E & H). rewrite E.
  now apply surface_delivery.
Qed.

Lemma toggleRecording_sd snap w :
  same_delivery w (world_of (toggleRecording snap w)).
Proof.
  unfold toggleRecording.
  destruct ((aiState snap =? 1) || isProcessing snap); [apply sd_refl|].
  destruct (recordingState snap =? 0); cbn [Nat.eqb world_of].
  - eapply sd_trans; [|apply initializeRecording_sd]. quiet.
  - eapply sd_trans; [|apply stopRecording_sd]. quiet.
Qed.

Lemma processAudioToText_sd snap w :
  same_delivery w (processAudioToText snap w).
Proof.
  unfold processAudioToText.
  destruct (length (audioChunksRef (refs w)) =? 0); [apply sd_refl|].
  destruct (isProcessing snap); [apply sd_refl|quiet].
Qed.

Lemma processAudioToText_fetched_sd snap d r w :
  same_delivery w (processAudioToText_fetched snap d r w).
Proof.
  unfold processAudioToText_fetched. destruct r as [|ok field]; [quiet|].
  destruct (usable (Response ok field)); quiet.
Qed.

Lemma processAudioToText_timer_sd snap text w :
  same_delivery w (processAudioToText_timer snap text w).
Proof.
  unfold processAudioToText_timer. destruct (truthy (threadId snap)); [|quiet].
  apply startNextQuestion_sd.
Qed.

Lemma onComplete_sd w : same_delivery w (onComplete w).
Proof.
  unfold onComplete.
  apply (sd_trans _ (emit OnComplete w)); [quiet|].
  apply (sd_trans _ (run_cleanup (emit OnComplete w)));
    [apply surface_delivery, run_cleanup_surface|].
  split; reflexivity.
Qed.

Lemma commit_sd w : same_delivery w (commit w).
Proof.
  unfold commit. destruct (mounted w); [|apply sd_refl].
  destruct (same_deps _ _); [apply sd_refl|].
  unfold effect_body.
  pose proof (surface_delivery _ _
                (run_cleanup_surface
                   (set_deps (aiState (hooks w), isInitialized (hooks w)) w)))
    as H.
  assert (H0 : same_delivery w
                 (run_cleanup
                    (set_deps (aiState (hooks w), isInitialized (hooks w)) w))).
  { eapply sd_trans; [|exact H]. quiet. }
  destruct (isInitializingRef _ || isInitialized _).
  - eapply sd_trans; [exact H0|]. split; reflexivity.
  - eapply sd_trans; [exact H0|].
    match goal with
    | |- same_delivery ?a (set_cleanup true (initInterview ?h ?a)) =>
        apply (sd_trans _ (initInterview h a));
          [apply initInterview_sd|split; reflexivity]
    end.
Qed.

(** What [handleEndInterview] adds to the deliveries: one request, with the
    contact number read from the cache, when the cache can be read, and
    none when it cannot. *)
Lemma handleEndInterview_delivery snap w :
  let w' := world_of (handleEndInterview snap w) in
  cache (browser w') = cache (browser w)
  /\ deliveries w'
     = deliveries w
       ++ (if readable (cache (browser w))
           then [FetchWebhook (interviewContent (qaLogs snap))
                              (contactNumber (cache (browser w)))]
           else []).
Proof.
  cbv zeta. unfold handleEndInterview.
  destruct (stopRecording_normal w) as (w1 & E & H1). rewrite E.
  cbn [and_then].
  pose proof (cleanupAudio_surface w1) as H2.
  pose proof (surface_delivery _ _ (same_surface_trans _ _ _ H1 H2)) as (C & D).
  set (w2 := setIsProcessing false _).
  assert (S2 : same_delivery w w2).
  { split; [rewrite <- C|rewrite <- D]; subst w2;
      destruct (audioRef (refs (cleanupAudio w1))); reflexivity. }
  assert (C2 : cache (browser w2) = cache (browser w)) by apply S2.
  clearbody w2. rewrite C2.
  destruct (readable (cache (browser w))); cbn [world_of].
  - destruct S2 as (_ & D2). split; [exact C2|].
    unfold deliveries in *. cbn. rewrite filter_app, D2. reflexivity.
  - rewrite app_nil_r. apply (sd_trans _ w2); [exact S2|apply onComplete_sd].
Qed.

Lemma handle_delivers (c : Cache) (e : Event) (w : World) :
  delivers c w -> delivers c (world_of (handle e w)).
Proof.
  intros (C & D).
  assert (same : forall w', same_delivery w w' -> delivers c w').
  { intros w' (C' & D'). split; [congruence|]. now rewrite D'. }
  destruct e as [| |ms|i r|i g|i st|i data|i| |id]; cbn [handle].
  - apply same, toggleRecording_sd.
  - destruct (handleEndInterview_delivery (hooks w) w) as (C' & D').
    split; [congruence|]. intros content contact I. rewrite D' in I.
    apply in_app_or in I as [I|I]; [now apply (D content)|].
    destruct (readable (cache (browser w))); [|destruct I].
    destruct I as [I|[]]. inversion I. now rewrite C.
  - apply same. quiet.
  - unfold resume. destruct (nth_error (pending w) i) as [t|];
      [|apply same, sd_refl].
    destruct t as [snap|b|b|b|snap|rid|snap d|snap text|]; cbn [world_of];
      try (apply same, sd_refl); apply same.
    + eapply sd_trans; [|apply initInterview_fetched_sd]. quiet.
    + eapply sd_trans; [|apply startNextQuestion_fetched_sd]. quiet.
    + eapply sd_trans; [|apply playTTS_fetched_sd]. quiet.
    + eapply sd_trans; [|apply processAudioToText_fetched_sd]. quiet.
    + eapply sd_trans; [|destruct r; apply onComplete_sd]. quiet.
  - unfold resume. destruct (nth_error (pending w) i) as [t|];
      [|apply same, sd_refl].
    destruct t; cbn [world_of]; try (apply same, sd_refl). apply same.
    eapply sd_trans; [|apply initializeRecording_resumed_sd]. quiet.
  - unfold resume. destruct (nth_error (pending w) i) as [t|];
      [|apply same, sd_refl].
    destruct t; cbn [world_of]; try (apply same, sd_refl). apply same.
    eapply sd_trans; [|apply playTTS_played_sd]. quiet.
  - unfold resume. destruct (nth_error (pending w) i) as [t|];
      [|apply same, sd_refl].
    destruct t; try (apply same, sd_refl). apply same. cbv zeta.
    destruct (nth_error _ rid) as [r|]; cbn [world_of]; [|quiet].
    eapply sd_trans; [|apply processAudioToText_sd]. quiet.
  - unfold resume. destruct (nth_error (pending w) i) as [t|];
      [|apply same, sd_refl].
    destruct t; cbn [world_of]; try (apply same, sd_refl). apply same.
    eapply sd_trans; [|apply processAudioToText_timer_sd]. quiet.
  - apply same, onended_sd.
  - apply same. destruct (existsb _ _); cbn [world_of]; [|apply sd_refl].
    eapply sd_trans; [|apply drawWaveform_sd]. quiet.
Qed.

Lemma run_delivers (c : Cache) (es : list Event) :
  delivers c (run (mount c) es).
Proof.
  assert (H0 : delivers c (mount c)).
  { split; [reflexivity|]. intros content contact []. }
  revert H0. unfold run. generalize (mount c).
  induction es as [|e es IH]; intros w H; [exact H|].
  cbn [fold_left]. apply IH. unfold step. destruct (mounted w); [|exact H].
  pose proof (handle_delivers c e w H) as (C & D).
  destruct (commit_sd (world_of (handle e w))) as (C' & D').
  split; [congruence|]. now rewrite D'.
Qed.

Lemma in_deliveries (w : World) (content contact : jsstring) :
  In (FetchWebhook content contact) (effects w)
  <-> In (FetchWebhook content contact) (deliveries w).
Proof.
  unfold deliveries. rewrite filter_In. tauto.
Qed.

(** X23.  From the keypad to the delivery.  Let the page run any session
    from a cache entry [c], and let the interview then run any session from
    what the page left in the cache.  The contact of every request the
    interview sends to the webhook is the contact number of [c], or it is a
    number that the keypad accepted and the page sent to the registration
    webhook, delivered as it was typed. *)
Theorem delivered_contact_is_the_registered_number :
  forall (c : Cache) (wr : bool) (page : list Home.Event) (es : list Event)
         (content contact : jsstring),
    let h := Home.run (Home.mount c wr) page in
    In (FetchWebhook content contact)
       (effects (run (mount (Home.storage h)) es)) ->
    contact = contactNumber c
    \/ (NumericPad.isValidPhoneNumber contact = true
        /\ In (Home.FetchWebhook contact) (Home.effects h)).
Proof.
  intros c wr page es content contact h I.
  apply in_deliveries in I.
  destruct (run_delivers (Home.storage h) es) as (_ & D).
  specialize (D content contact I).
  destruct (HomeFacts.run_sound c wr page)
    as (_ & _ & _ & _ & [S|(p & S & V & _ & F)]); fold h in S.
  - left. now rewrite <- S.
  - fold h in F. right. rewrite S in D.
    rewrite (ContactFacts.valid_contact p V) in D. subst contact. auto.
Qed.

(** The number 010-1234-5678 is typed and registered, and the interview is
    ended before its first question. *)
Lemma delivered_contact_is_the_registered_number_witness :
  lit "010-1234-5678" = contactNumber CacheAbsent
  \/ (NumericPad.isValidPhoneNumber (lit "010-1234-5678") = true
      /\ In (Home.FetchWebhook (lit "010-1234-5678"))
            (Home.effects
               (Home.run (Home.mount CacheAbsent true)
                  (Home.presses
                     [NumericPad.K1; NumericPad.K2; NumericPad.K3;
                      NumericPad.K4; NumericPad.K5; NumericPad.K6;
                      NumericPad.K7; NumericPad.K8]
                   ++ [Home.Pad NumericPad.Confirm;
                       Home.Webhook 0 (Home.Responded true Home.DataFalsy);
                       Home.Timer 0])))).
Proof.
  apply (delivered_contact_is_the_registered_number
           CacheAbsent true
           (Home.presses
              [NumericPad.K1; NumericPad.K2; NumericPad.K3; NumericPad.K4;
               NumericPad.K5; NumericPad.K6; NumericPad.K7; NumericPad.K8]
            ++ [Home.Pad NumericPad.Confirm;
                Home.Webhook 0 (Home.Responded true Home.DataFalsy);
                Home.Timer 0])
           [ClickEnd] no_record (lit "010-1234-5678")).
  vm_compute. right. left. reflexivity.
Defined.

End DeliveryFacts.
